(** * Root server core: token authority, session store, service registry

    A shallow embedding of the three engines of the root server (packages
    [jwt], [session] and [registry] with their in-memory repositories) and
    the properties stated for them, and of what stands around the engines:
    the auth service, the threshold of the logger, the middleware for
    bearer tokens and for CORS, the handlers as far as they answer without
    a body, and the configuration repository.

    Go packages are rendered as modules of the same name.  Objects reached
    through pointers ([*session.Session], [*service.Service]) live in an
    explicit object store indexed by addresses, because the in-memory
    repositories keep and hand out the pointers themselves: a write through
    a pointer returned by [Get] or [List] is a write to the stored record. *)

From Stdlib Require Import ZArith List Ascii String Lia Bool.
From stdpp Require Import base option list gmap fin_maps strings.

Local Open Scope string_scope.
Local Open Scope Z_scope.

(* ================================================================== *)
(** * Part I. The program                                               *)
(* ================================================================== *)

(** ** Addresses and object stores *)

(** The address of a heap object; Go pointers are never dangling. *)
Definition loc := positive.

(** The objects of one struct type, by address. *)
Definition objects (T : Type) := loc -> T.

Definition poke {T} (h : objects T) (p : loc) (v : T) : objects T :=
  fun q => if Pos.eqb q p then v else h q.

(** ** Errors

    The program builds every error with [fmt.Errorf]; its callers can tell
    errors apart by their message only.  [Errorf_w] is the [%w] form, whose
    message is [msg ++ ": " ++ message of err]. *)
Inductive error : Type :=
| Errorf (msg : string)
| Errorf_w (msg : string) (err : error)
| CorruptInputError                 (* encoding/base64 *)
| SyntaxError                       (* encoding/json: malformed text *)
| UnmarshalTypeError                (* encoding/json: wrong JSON kind *)
| UnsupportedTypeError              (* encoding/json: no encoding *)
| UnsupportedValueError             (* encoding/json: no encoding *)
| MarshalerError                    (* encoding/json: a MarshalJSON failed *)
| TimeParseError                    (* time: bad RFC 3339 text *)
| Unmodelled.                       (* input the embedding does not cover *)

(** A Go result pair [(T, error)]: exactly one side is meaningful. *)
Inductive result (T : Type) : Type :=
| Ok (v : T)
| Err (e : error).
Arguments Ok {T} v.
Arguments Err {T} e.

#[global] Instance result_bind : MBind result :=
  fun A B f r => match r with Ok v => f v | Err e => Err e end.
#[global] Instance result_ret : MRet result := fun A v => Ok v.

(** The quotation mark, byte 34. *)
Definition dquote : ascii := ascii_of_nat 34.

(** ** Package time *)
Module time.

(** An instant, in nanoseconds since the Unix epoch. *)
Definition Time := Z.

(** [time.Duration] is an [int64] count of nanoseconds. *)
Definition Duration := Z.

Definition minDuration : Duration := - 2 ^ 63.
Definition maxDuration : Duration := 2 ^ 63 - 1.

(** [int64] arithmetic wraps around. *)
Definition wrap64 (z : Z) : Z := (z + 2 ^ 63) mod 2 ^ 64 - 2 ^ 63.

(** [d * n] on durations. *)
Definition mul (d : Duration) (n : Z) : Duration := wrap64 (d * n).

(** [t.After(u)]. *)
Definition After (t u : Time) : bool := u <? t.

(** [t.Before(u)]. *)
Definition Before (t u : Time) : bool := t <? u.

(** [t.Add(d)]. *)
Definition Add (t : Time) (d : Duration) : Time := t + d.

(** [t.Sub(u)]: the difference, saturated to the range of [Duration]. *)
Definition Sub (t u : Time) : Duration :=
  if t - u <? minDuration then minDuration
  else if maxDuration <? t - u then maxDuration
  else t - u.

(** [time.Since(t)], with [now] the reading of [time.Now()]. *)
Definition Since (now t : Time) : Duration := Sub now t.

(** The zero [time.Time]: January 1 of year 1, 00:00:00 UTC. *)
Definition zero : Time := -62135596800 * 1000000000.

(** *** The calendar

    Dates are those of the proleptic Gregorian calendar, in UTC: the
    process is taken to run with [time.Local] set to UTC, so that
    [time.Now()] prints with the zone [Z]. *)

Definition isLeap (year : Z) : bool :=
  (year mod 4 =? 0) && (negb (year mod 100 =? 0) || (year mod 400 =? 0)).

Definition daysIn (month year : Z) : Z :=
  if month =? 2 then (if isLeap year then 29 else 28)
  else if (month =? 4) || (month =? 6) || (month =? 9) || (month =? 11) then 30
  else 31.

(** Days from 1970-01-01 to the given date.  Years are counted from March,
    in eras of 400 years. *)
Definition daysSinceEpoch (year month day : Z) : Z :=
  let y := if month <=? 2 then year - 1 else year in
  let era := y / 400 in
  let yoe := y - era * 400 in
  let doy := (153 * (if 2 <? month then month - 3 else month + 9) + 2) / 5 + day - 1 in
  let doe := yoe * 365 + yoe / 4 - yoe / 100 + doy in
  era * 146097 + doe - 719468.

(** The date (year, month, day) a number of days after 1970-01-01. *)
Definition civil (days : Z) : Z * Z * Z :=
  let z := days + 719468 in
  let era := z / 146097 in
  let doe := z - era * 146097 in
  let yoe := (doe - doe / 1460 + doe / 36524 - doe / 146096) / 365 in
  let doy := doe - (365 * yoe + yoe / 4 - yoe / 100) in
  let mp := (5 * doy + 2) / 153 in
  let day := doy - (153 * mp + 2) / 5 + 1 in
  let month := if mp <? 10 then mp + 3 else mp - 9 in
  (if month <=? 2 then yoe + era * 400 + 1 else yoe + era * 400, month, day).

Definition Year (t : Time) : Z := (civil (t / 1000000000 / 86400)).1.1.

(** [time.Date(year, month, day, hour, min, sec, nsec, time.UTC)] for
    arguments in their normal ranges. *)
Definition Date (year month day hour min sec nsec : Z) : Time :=
  ((daysSinceEpoch year month day * 86400 + hour * 3600 + min * 60 + sec)
   * 1000000000 + nsec).

(** *** Text in the layout [RFC3339Nano] *)

Definition digit (d : Z) : ascii := ascii_of_N (Z.to_N (48 + d)).

Definition digitVal (c : ascii) : option Z :=
  let n := Z.of_N (N_of_ascii c) in
  if (48 <=? n) && (n <=? 57) then Some (n - 48) else None.

Definition pad2 (v : Z) : string :=
  String (digit (v / 10)) (String (digit (v mod 10)) EmptyString).

Definition pad4 (v : Z) : string :=
  (pad2 (v / 100) ++ pad2 (v mod 100))%string.

(** The digits of a fraction given by its nine digits [v], without the
    trailing zeros: [k] digits are still to come. *)
Fixpoint fracDigits (k : nat) (v : Z) : string :=
  match k with
  | O => EmptyString
  | S k' =>
      if v =? 0 then EmptyString
      else String (digit (v / 10 ^ Z.of_nat k')) (fracDigits k' (v mod 10 ^ Z.of_nat k'))
  end.

Definition fraction (nsec : Z) : string :=
  if nsec =? 0 then EmptyString else String "."%char (fracDigits 9 nsec).

(** [t.Format(time.RFC3339Nano)]. *)
Definition Format (t : Time) : string :=
  let sec := t / 1000000000 in
  let nsec := t mod 1000000000 in
  let '(year, month, day) := civil (sec / 86400) in
  let s := sec mod 86400 in
  (pad4 year ++ "-" ++ pad2 month ++ "-" ++ pad2 day ++ "T"
   ++ pad2 (s / 3600) ++ ":" ++ pad2 (s mod 3600 / 60) ++ ":" ++ pad2 (s mod 60)
   ++ fraction nsec ++ "Z")%string.

(** [t.MarshalJSON()]: the quoted text, or an error for a year outside
    [0, 9999]. *)
Definition MarshalJSON (t : Time) : result string :=
  if (Year t <? 0) || (9999 <? Year t) then Err MarshalerError
  else Ok (String dquote (Format t ++ String dquote EmptyString))%string.

(** [n] digits exactly, as a number. *)
Fixpoint digits (n : nat) (acc : Z) (s : string) : option (Z * string) :=
  match n with
  | O => Some (acc, s)
  | S n' =>
      match s with
      | EmptyString => None
      | String c rest =>
          match digitVal c with
          | Some d => digits n' (10 * acc + d) rest
          | None => None
          end
      end
  end.

Definition expect (c : ascii) (s : string) : option string :=
  match s with
  | String c' rest => if Ascii.eqb c' c then Some rest else None
  | EmptyString => None
  end.

(** The digits of a fraction: at most nine count ([k] of them are still
    wanted), the others are skipped. *)
Fixpoint fracValue (k : nat) (acc : Z) (s : string) : Z * string :=
  match s with
  | EmptyString => (acc * 10 ^ Z.of_nat k, s)
  | String c rest =>
      match digitVal c with
      | None => (acc * 10 ^ Z.of_nat k, s)
      | Some d =>
          match k with
          | O => fracValue O acc rest
          | S k' => fracValue k' (10 * acc + d) rest
          end
      end
  end.

(** A fraction is read only where a period is followed by a digit. *)
Definition parseFraction (s : string) : Z * string :=
  match s with
  | String "."%char (String c rest) =>
      match digitVal c with
      | Some _ => fracValue 9 0 (String c rest)
      | None => (0, s)
      end
  | _ => (0, s)
  end.

(** The zone: [Z], or a sign with hours and minutes; in seconds east of
    UTC. *)
Definition parseZone (s : string) : option Z :=
  if String.eqb s "Z" then Some 0
  else
    match s with
    | String sign rest =>
        '(hr, rest) ← digits 2 0 rest;
        rest ← expect ":"%char rest;
        '(mm, rest) ← digits 2 0 rest;
        if negb (String.eqb rest "") then None
        else if negb ((hr <=? 23) && (mm <=? 59)) then None
        else if Ascii.eqb sign "+"%char then Some ((hr * 60 + mm) * 60)
        else if Ascii.eqb sign "-"%char then Some (- ((hr * 60 + mm) * 60))
        else None
    | EmptyString => None
    end.

(** The text of an RFC 3339 date and time as the instant it denotes. *)
Definition parseRFC3339 (s : string) : option Time :=
  '(year, s) ← digits 4 0 s;
  s ← expect "-"%char s;
  '(month, s) ← digits 2 0 s;
  s ← expect "-"%char s;
  '(day, s) ← digits 2 0 s;
  s ← expect "T"%char s;
  '(hour, s) ← digits 2 0 s;
  s ← expect ":"%char s;
  '(min, s) ← digits 2 0 s;
  s ← expect ":"%char s;
  '(sec, s) ← digits 2 0 s;
  if negb ((1 <=? month) && (month <=? 12)
           && (1 <=? day) && (day <=? daysIn month year)
           && (hour <=? 23) && (min <=? 59) && (sec <=? 59))
  then None
  else
    let '(nsec, s) := parseFraction s in
    offset ← parseZone s;
    Some (Date year month day hour min sec nsec - offset * 1000000000).

(** [t.UnmarshalJSON(data)] for [data] a JSON string literal whose text
    between the quotes is [raw].  Text that is not of the RFC 3339 form
    is an error here; the layouts beyond it that [time.Parse] lets pass
    are not covered. *)
Definition UnmarshalJSON (raw : string) : result Time :=
  match parseRFC3339 raw with
  | Some t => Ok t
  | None => Err TimeParseError
  end.

(** [t.UnixNano()]: the nanoseconds since the epoch, as an [int64]. *)
Definition UnixNano (t : Time) : Z := wrap64 t.

End time.

(** ** Dynamically typed values

    The values an [any] of a data payload or of a metadata map can hold:
    what [encoding/json] decodes into an [any], and a channel, which stands
    for the Go values that have no JSON encoding. *)
#[warnings="-register-all"] Inductive any : Type :=
| Nil
| Bool (b : bool)
| Float64 (n : Z)                      (* a float64 holding the integer n *)
| Str (s : string)
| Slice (l : list any)                 (* []any *)
| Map (m : list (string * any))        (* map[string]any, keys ascending *)
| Chan.

(** ** A state monad for the stateful engines *)
Definition M (S A : Type) : Type := S -> A * S.

Definition ret {S A} (a : A) : M S A := fun s => (a, s).
Definition bind {S A B} (m : M S A) (k : A -> M S B) : M S B :=
  fun s => let '(a, s') := m s in k a s'.
Definition gets {S A} (f : S -> A) : M S A := fun s => (f s, s).
Definition modify {S} (f : S -> S) : M S unit := fun s => (tt, f s).

Declare Scope go_scope.
Delimit Scope go_scope with go.
Notation "x <- m ;; k" := (bind m (fun x => k))
  (at level 100, m at next level, right associativity) : go_scope.
Notation "m ;;; k" := (bind m (fun _ => k))
  (at level 100, right associativity) : go_scope.

(** ** Package logger: the entries written, newest first *)
Inductive Level := LevelDebug | LevelInfo | LevelWarn | LevelError.

Definition entry : Type := Level * string.

(** ** Package session (domain) *)
Module session.

Record Session := {
  ID : string;
  UserID : string;
  ServiceID : string;
  Data : gmap string any;
  CreatedAt : time.Time;
  ExpiresAt : time.Time;
  UpdatedAt : time.Time;
}.

(** [IsExpired]: [time.Now().After(s.ExpiresAt)]. *)
Definition IsExpired (now : time.Time) (s : Session) : bool :=
  time.After now (ExpiresAt s).

Definition IsActive (now : time.Time) (s : Session) : bool :=
  negb (IsExpired now s).

(** [Touch]: [s.UpdatedAt = time.Now()]. *)
Definition Touch (now : time.Time) (s : Session) : Session :=
  {| ID := ID s; UserID := UserID s; ServiceID := ServiceID s;
     Data := Data s; CreatedAt := CreatedAt s; ExpiresAt := ExpiresAt s;
     UpdatedAt := now |}.

(** The assignment [s.Data = data]. *)
Definition set_Data (data : gmap string any) (s : Session) : Session :=
  {| ID := ID s; UserID := UserID s; ServiceID := ServiceID s;
     Data := data; CreatedAt := CreatedAt s; ExpiresAt := ExpiresAt s;
     UpdatedAt := UpdatedAt s |}.

End session.

(** ** Package memory: the in-memory session repository

    [store] is the state the repository methods run in: the session
    objects and the table [sessions] from identifiers to their addresses.
    The mutex only serialises the methods and is not represented. *)
Module memory_session.

Record store := {
  objs : objects session.Session;
  sessions : gmap string loc;
  logs : list entry;
}.

Definition with_sessions (m : gmap string loc) (st : store) : store :=
  {| objs := objs st; sessions := m; logs := logs st |}.

Definition with_obj (p : loc) (s : session.Session) (st : store) : store :=
  {| objs := poke (objs st) p s; sessions := sessions st; logs := logs st |}.

Definition with_log (e : entry) (st : store) : store :=
  {| objs := objs st; sessions := sessions st; logs := e :: logs st |}.

Definition NewSessionRepository (h : objects session.Session) : store :=
  {| objs := h; sessions := ∅; logs := [] |}.

Definition Create (sess : loc) : M store (option error) :=
  fun st =>
    let id := session.ID (objs st sess) in
    match sessions st !! id with
    | Some _ => (Some (Errorf "session already exists"), st)
    | None => (None, with_sessions (<[id := sess]> (sessions st)) st)
    end.

Definition Get (id : string) : M store (result loc) :=
  fun st =>
    match sessions st !! id with
    | None => (Err (Errorf "session not found"), st)
    | Some sess => (Ok sess, st)
    end.

Definition Update (sess : loc) : M store (option error) :=
  fun st =>
    let id := session.ID (objs st sess) in
    match sessions st !! id with
    | None => (Some (Errorf "session not found"), st)
    | Some _ => (None, with_sessions (<[id := sess]> (sessions st)) st)
    end.

Definition Delete (id : string) : M store (option error) :=
  fun st => (None, with_sessions (delete id (sessions st)) st).

(** [DeleteExpired]: one pass over the table; an entry whose session
    expired before [now] is deleted and counted.  [now] is read once,
    before the loop. *)
Definition DeleteExpired (now : time.Time) : M store (Z * option error) :=
  fun st =>
    let '(m, count) :=
      map_fold
        (fun id sess '(m, count) =>
           if time.Before (session.ExpiresAt (objs st sess)) now
           then (delete id m, count + 1)
           else (m, count))
        (sessions st, 0) (sessions st) in
    ((count, None), with_sessions m st).

End memory_session.

(** ** Package strconv: decimal text of an [int64] *)
Module strconv.

(** The decimal digits of [u > 0] in front of [acc]. *)
Fixpoint formatBits (fuel : nat) (u : Z) (acc : string) : string :=
  match fuel with
  | O => acc
  | S fuel' =>
      if u <? 10 then String (time.digit u) acc
      else formatBits fuel' (u / 10) (String (time.digit (u mod 10)) acc)
  end.

(** [strconv.FormatInt(i, 10)], which is also what the verb [%d] of
    [fmt.Sprintf] writes. *)
Definition FormatInt (i : Z) : string :=
  if i =? 0 then "0"
  else if i <? 0 then
    String "-"%char (formatBits (S (Z.to_nat (Z.log2 (- i)))) (- i) EmptyString)
  else formatBits (S (Z.to_nat (Z.log2 i))) i EmptyString.

End strconv.

(** ** Package session (service), over the in-memory repository *)
Module sessionsvc.
Import memory_session.
Local Open Scope go_scope.

Record Service := {
  defaultTTL : time.Duration;
  cleanupPeriod : time.Duration;
}.

Definition log (l : Level) (msg : string) : M store unit :=
  modify (with_log (l, msg)).

(** [Get]; [now] is the reading of the clock in [IsExpired]. *)
Definition Get (now : time.Time) (id : string) : M store (result loc) :=
  r <- memory_session.Get id ;;
  match r with
  | Err err => ret (Err (Errorf_w "get session" err))
  | Ok sess =>
      expired <- gets (fun st => session.IsExpired now (objs st sess)) ;;
      if expired
      then log LevelWarn "attempted to access expired session" ;;;
           ret (Err (Errorf "session expired"))
      else ret (Ok sess)
  end.

(** [Update]; [now] is the clock reading of [Get] and [now'] that of
    [Touch].  The two assignments go through the pointer [Get] returned,
    that is, to the stored object. *)
Definition Update (now now' : time.Time) (id : string)
    (data : gmap string any) : M store (option error) :=
  r <- Get now id ;;
  match r with
  | Err err => ret (Some err)
  | Ok sess =>
      modify (fun st => with_obj sess (session.set_Data data (objs st sess)) st) ;;;
      modify (fun st => with_obj sess (session.Touch now' (objs st sess)) st) ;;;
      e <- memory_session.Update sess ;;
      match e with
      | Some err =>
          log LevelError "failed to update session" ;;;
          ret (Some (Errorf_w "update session" err))
      | None => ret None
      end
  end.

Definition Delete (id : string) : M store (option error) :=
  e <- memory_session.Delete id ;;
  match e with
  | Some err =>
      log LevelError "failed to delete session" ;;;
      ret (Some (Errorf_w "delete session" err))
  | None => log LevelInfo "session deleted" ;;; ret None
  end.

(** [generateSessionID]; [now] is the reading of [time.Now()]. *)
Definition generateSessionID (now : time.Time) : string :=
  ("sess_" ++ strconv.FormatInt (time.UnixNano now))%string.

(** [Create].  [now] is the clock reading of [Create] itself and [nowID]
    the later one of [generateSessionID]; [sess] is the address of the
    object the composite literal allocates, so no pointer to it exists
    before the call. *)
Definition Create (s : Service) (now nowID : time.Time) (sess : loc)
    (userID serviceID : string) (data : gmap string any) (ttl : time.Duration)
    : M store (result loc) :=
  let ttl := if ttl =? 0 then defaultTTL s else ttl in
  modify (with_obj sess
            {| session.ID := generateSessionID nowID;
               session.UserID := userID;
               session.ServiceID := serviceID;
               session.Data := data;
               session.CreatedAt := now;
               session.ExpiresAt := time.Add now ttl;
               session.UpdatedAt := now |}) ;;;
  e <- memory_session.Create sess ;;
  match e with
  | Some err =>
      log LevelError "failed to create session" ;;;
      ret (Err (Errorf_w "create session" err))
  | None => log LevelInfo "session created" ;;; ret (Ok sess)
  end.

(** One firing of the ticker in [StartCleanup]: the body of the
    [case <-ticker.C] branch.  Returns the count the repository
    reported. *)
Definition cleanup_tick (now : time.Time) : M store (Z * option error) :=
  r <- memory_session.DeleteExpired now ;;
  match r with
  | (_, Some err) =>
      log LevelError "failed to delete expired sessions" ;;; ret r
  | (deleted, None) =>
      if 0 <? deleted
      then log LevelInfo "cleaned up expired sessions" ;;; ret r
      else ret r
  end.

End sessionsvc.

(** ** Package service (domain) *)
Module service.

(** [type Status string]: any string can be stored as a status. *)
Definition status := string.

Definition StatusHealthy : status := "healthy".
Definition StatusUnhealthy : status := "unhealthy".
Definition StatusUnknown : status := "unknown".

Record Service := {
  ID : string;
  Name : string;
  Version : string;
  Endpoints : list string;
  Capabilities : list string;
  Metadata : gmap string string;
  Status : status;
  RegisteredAt : time.Time;
  LastHeartbeat : time.Time;
  HealthCheckURL : string;
}.

Definition set_Status (v : status) (s : Service) : Service :=
  {| ID := ID s; Name := Name s; Version := Version s;
     Endpoints := Endpoints s; Capabilities := Capabilities s;
     Metadata := Metadata s; Status := v; RegisteredAt := RegisteredAt s;
     LastHeartbeat := LastHeartbeat s; HealthCheckURL := HealthCheckURL s |}.

Definition set_LastHeartbeat (t : time.Time) (s : Service) : Service :=
  {| ID := ID s; Name := Name s; Version := Version s;
     Endpoints := Endpoints s; Capabilities := Capabilities s;
     Metadata := Metadata s; Status := Status s; RegisteredAt := RegisteredAt s;
     LastHeartbeat := t; HealthCheckURL := HealthCheckURL s |}.

Definition set_RegisteredAt (t : time.Time) (s : Service) : Service :=
  {| ID := ID s; Name := Name s; Version := Version s;
     Endpoints := Endpoints s; Capabilities := Capabilities s;
     Metadata := Metadata s; Status := Status s; RegisteredAt := t;
     LastHeartbeat := LastHeartbeat s; HealthCheckURL := HealthCheckURL s |}.

(** [IsHealthy(timeout)]; the clock is read (by [time.Since]) only when the
    status is not unhealthy, and [now] is that reading. *)
Definition IsHealthy (now : time.Time) (timeout : time.Duration) (s : Service) : bool :=
  if String.eqb (Status s) StatusUnhealthy then false
  else time.Since now (LastHeartbeat s) <? timeout.

Definition UpdateHeartbeat (now : time.Time) (s : Service) : Service :=
  set_Status StatusHealthy (set_LastHeartbeat now s).

Definition MarkUnhealthy (s : Service) : Service :=
  set_Status StatusUnhealthy s.

End service.

(** ** Package memory: the in-memory registry repository

    As for sessions, the table [services] holds addresses of service
    objects.  [updates] is a journal of the calls of [Update] (the address
    passed, newest first); the program does not read it. *)
Module memory_registry.

Record store := {
  objs : objects service.Service;
  services : gmap string loc;
  updates : list loc;
  logs : list entry;
}.

Definition with_services (m : gmap string loc) (st : store) : store :=
  {| objs := objs st; services := m; updates := updates st; logs := logs st |}.

Definition with_obj (p : loc) (s : service.Service) (st : store) : store :=
  {| objs := poke (objs st) p s; services := services st;
     updates := updates st; logs := logs st |}.

Definition with_update (p : loc) (st : store) : store :=
  {| objs := objs st; services := services st;
     updates := p :: updates st; logs := logs st |}.

Definition with_log (e : entry) (st : store) : store :=
  {| objs := objs st; services := services st;
     updates := updates st; logs := e :: logs st |}.

Definition NewRegistryRepository (h : objects service.Service) : store :=
  {| objs := h; services := ∅; updates := []; logs := [] |}.

Definition Register (svc : loc) : M store (option error) :=
  fun st =>
    (None, with_services (<[service.ID (objs st svc) := svc]> (services st)) st).

Definition Deregister (id : string) : M store (option error) :=
  fun st => (None, with_services (delete id (services st)) st).

Definition Get (id : string) : M store (result loc) :=
  fun st =>
    match services st !! id with
    | None => (Err (Errorf "service not found"), st)
    | Some svc => (Ok svc, st)
    end.

(** [List]: the values of the table, in the order the table is ranged
    over. *)
Definition List : M store (result (list loc)) :=
  fun st => (Ok (map snd (map_to_list (services st))), st).

Definition Update (svc : loc) : M store (option error) :=
  fun st =>
    let st := with_update svc st in
    let id := service.ID (objs st svc) in
    match services st !! id with
    | None => (Some (Errorf "service not found"), st)
    | Some _ => (None, with_services (<[id := svc]> (services st)) st)
    end.

End memory_registry.

(** ** Package registry (service), over the in-memory repository *)
Module registry.
Import memory_registry.
Local Open Scope go_scope.

Record Service := {
  healthCheckInterval : time.Duration;
  healthCheckTimeout : time.Duration;
}.

Definition log (l : Level) (msg : string) : M store unit :=
  modify (with_log (l, msg)).

(** A method call or field assignment through the pointer [svc]. *)
Definition through (svc : loc) (f : service.Service -> service.Service) : M store unit :=
  modify (fun st => with_obj svc (f (objs st svc)) st).

Definition Register (now : time.Time) (svc : loc) : M store (option error) :=
  through svc (service.set_RegisteredAt now) ;;;
  through svc (service.set_LastHeartbeat now) ;;;
  through svc (service.set_Status service.StatusHealthy) ;;;
  e <- memory_registry.Register svc ;;
  match e with
  | Some err =>
      log LevelError "failed to register service" ;;;
      ret (Some (Errorf_w "register service" err))
  | None => log LevelInfo "service registered" ;;; ret None
  end.

Definition Deregister (id : string) : M store (option error) :=
  e <- memory_registry.Deregister id ;;
  match e with
  | Some err =>
      log LevelError "failed to deregister service" ;;;
      ret (Some (Errorf_w "deregister service" err))
  | None => log LevelInfo "service deregistered" ;;; ret None
  end.

Definition List : M store (result (list loc)) :=
  r <- memory_registry.List ;;
  match r with
  | Err err => ret (Err (Errorf_w "list services" err))
  | Ok services => ret (Ok services)
  end.

Fixpoint has (capability : string) (caps : list string) : bool :=
  match caps with
  | [] => false
  | cap :: rest => if String.eqb cap capability then true else has capability rest
  end.

Definition hasCapability (svc : service.Service) (capability : string) : bool :=
  if String.eqb capability "" then true
  else has capability (service.Capabilities svc).

(** The loop of [Discover]: [matched] collects, in order, the listed
    services that pass the test. *)
Fixpoint discoverLoop (h : objects service.Service) (capability : string)
    (services matched : list loc) : list loc :=
  match services with
  | [] => matched
  | svc :: rest =>
      if String.eqb (service.Status (h svc)) service.StatusHealthy
         && hasCapability (h svc) capability
      then discoverLoop h capability rest (matched ++ [svc])
      else discoverLoop h capability rest matched
  end.

Definition Discover (capability : string) : M store (result (list loc)) :=
  r <- List ;;
  match r with
  | Err err => ret (Err err)
  | Ok services =>
      matched <- gets (fun st => discoverLoop (objs st) capability services []) ;;
      ret (Ok matched)
  end.

Definition Heartbeat (now : time.Time) (id : string) : M store (option error) :=
  r <- memory_registry.Get id ;;
  match r with
  | Err err => ret (Some (Errorf_w "get service" err))
  | Ok svc =>
      through svc (service.UpdateHeartbeat now) ;;;
      e <- memory_registry.Update svc ;;
      match e with
      | Some err =>
          log LevelError "failed to update heartbeat" ;;;
          ret (Some (Errorf_w "update heartbeat" err))
      | None => ret None
      end
  end.

(** The body of the loop of [performHealthChecks] for a service without a
    health-check URL; [now] is the clock reading of [IsHealthy]. *)
Definition heartbeatCheck (s : Service) (now : time.Time) (svc : loc) : M store unit :=
  healthy <- gets (fun st =>
    service.IsHealthy now (time.mul (healthCheckInterval s) 2) (objs st svc)) ;;
  if negb healthy
  then through svc service.MarkUnhealthy ;;;
       _ <- memory_registry.Update svc ;;
       log LevelWarn "service marked unhealthy (heartbeat timeout)"
  else ret tt.

(** The loop of [performHealthChecks] over the listed services.  [clock i]
    is the clock reading available to the [i]-th iteration.  For a service
    with a health-check URL the loop only starts [checkServiceHealth] in a
    goroutine of its own; the result lists those services, in order. *)
Fixpoint healthCheckLoop (s : Service) (clock : nat -> time.Time) (i : nat)
    (services : list loc) : M store (list loc) :=
  match services with
  | [] => ret []
  | svc :: rest =>
      url <- gets (fun st => service.HealthCheckURL (objs st svc)) ;;
      if String.eqb url ""
      then heartbeatCheck s (clock i) svc ;;;
           healthCheckLoop s clock (S i) rest
      else probes <- healthCheckLoop s clock (S i) rest ;;
           ret (svc :: probes)
  end.

Definition performHealthChecks (s : Service) (clock : nat -> time.Time)
    : M store (list loc) :=
  r <- memory_registry.List ;;
  match r with
  | Err err =>
      log LevelError "failed to list services for health check" ;;; ret []
  | Ok services => healthCheckLoop s clock 0 services
  end.

(** What a probe of a health-check URL came to. *)
Inductive probe :=
| RequestError                   (* the request could not be built *)
| TransportError                 (* [httpClient.Do] returned an error *)
| Response (StatusCode : Z).

Definition StatusOK : Z := 200.

Definition checkServiceHealth (outcome : probe) (svc : loc) : M store unit :=
  match outcome with
  | RequestError => log LevelError "failed to create health check request"
  | TransportError =>
      through svc service.MarkUnhealthy ;;;
      _ <- memory_registry.Update svc ;;
      log LevelWarn "service health check failed"
  | Response code =>
      if negb (code =? StatusOK)
      then through svc service.MarkUnhealthy ;;;
           _ <- memory_registry.Update svc ;;
           log LevelWarn "service health check failed"
      else
        st <- gets (fun st => service.Status (objs st svc)) ;;
        if negb (String.eqb st service.StatusHealthy)
        then through svc (service.set_Status service.StatusHealthy) ;;;
             _ <- memory_registry.Update svc ;;
             log LevelInfo "service recovered"
        else ret tt
  end.

End registry.

(** ** The standard library, as far as the token authority uses it

    Go strings are byte strings: [string], one [ascii] per byte. *)

(** *** Package strings *)
Module strings.

(** [strings.Split(s, sep)] for a separator [sep] of one byte: the
    substrings between the separators, [1 + count] of them. *)
Fixpoint Split (s : string) (sep : ascii) : list string :=
  match s with
  | EmptyString => [EmptyString]
  | String c rest =>
      if Ascii.eqb c sep then EmptyString :: Split rest sep
      else match Split rest sep with
           | part :: parts => String c part :: parts
           | [] => [String c EmptyString]
           end
  end.

(** [strings.Contains(s, sep)] for a separator of one byte. *)
Fixpoint ContainsByte (s : string) (sep : ascii) : bool :=
  match s with
  | EmptyString => false
  | String c rest => Ascii.eqb c sep || ContainsByte rest sep
  end.

(** [strings.Join(elems, sep)]. *)
Fixpoint Join (elems : list string) (sep : string) : string :=
  match elems with
  | [] => EmptyString
  | [x] => x
  | x :: rest => (x ++ sep ++ Join rest sep)%string
  end.

End strings.

(** *** Package encoding/base64: [RawURLEncoding] *)
Module base64.

(** The URL-safe alphabet. *)
Definition encodeURL : string :=
  "ABCDEFGHIJKLMNOPQRSTUVWXYZabcdefghijklmnopqrstuvwxyz0123456789-_".

(** Six bits, the most significant first. *)
Definition sextet : Type := bool * bool * bool * bool * bool * bool.

Definition index (x : sextet) : nat :=
  let '(b5, b4, b3, b2, b1, b0) := x in
  (32 * Nat.b2n b5 + 16 * Nat.b2n b4 + 8 * Nat.b2n b3
   + 4 * Nat.b2n b2 + 2 * Nat.b2n b1 + Nat.b2n b0)%nat.

(** [enc.encode[x]]. *)
Definition encode (x : sextet) : ascii :=
  match String.get (index x) encodeURL with
  | Some c => c
  | None => "A"%char
  end.

Definition sextets : list sextet :=
  b5 ← [false; true]; b4 ← [false; true]; b3 ← [false; true];
  b2 ← [false; true]; b1 ← [false; true]; b0 ← [false; true];
  [(b5, b4, b3, b2, b1, b0)].

(** [enc.decodeMap[c]]; [None] is the entry [0xFF]. *)
Definition decodeMap (c : ascii) : option sextet :=
  List.find (fun x => Ascii.eqb (encode x) c) sextets.

(** The bytes of the source cut into groups of six bits; the last group is
    filled up with zero bits. *)
Fixpoint split6 (src : list ascii) : list sextet :=
  match src with
  | Ascii a0 a1 a2 a3 a4 a5 a6 a7 :: Ascii b0 b1 b2 b3 b4 b5 b6 b7
      :: Ascii c0 c1 c2 c3 c4 c5 c6 c7 :: rest =>
      (a7, a6, a5, a4, a3, a2) :: (a1, a0, b7, b6, b5, b4)
      :: (b3, b2, b1, b0, c7, c6) :: (c5, c4, c3, c2, c1, c0) :: split6 rest
  | [Ascii a0 a1 a2 a3 a4 a5 a6 a7; Ascii b0 b1 b2 b3 b4 b5 b6 b7] =>
      [(a7, a6, a5, a4, a3, a2); (a1, a0, b7, b6, b5, b4);
       (b3, b2, b1, b0, false, false)]
  | [Ascii a0 a1 a2 a3 a4 a5 a6 a7] =>
      [(a7, a6, a5, a4, a3, a2); (a1, a0, false, false, false, false)]
  | [] => []
  end.

(** [EncodeToString], without padding. *)
Definition EncodeToString (src : string) : string :=
  string_of_list_ascii (map encode (split6 (list_ascii_of_string src))).

(** Groups of six bits put together into bytes.  A single left-over group
    is an error; the unused low bits of a final group of two or three are
    dropped (the encoding is not strict). *)
Fixpoint join8 (l : list sextet) : option (list ascii) :=
  match l with
  | (a7, a6, a5, a4, a3, a2) :: (a1, a0, b7, b6, b5, b4)
      :: (b3, b2, b1, b0, c7, c6) :: (c5, c4, c3, c2, c1, c0) :: rest =>
      match join8 rest with
      | Some out =>
          Some (Ascii a0 a1 a2 a3 a4 a5 a6 a7 :: Ascii b0 b1 b2 b3 b4 b5 b6 b7
                :: Ascii c0 c1 c2 c3 c4 c5 c6 c7 :: out)
      | None => None
      end
  | [(a7, a6, a5, a4, a3, a2); (a1, a0, b7, b6, b5, b4); (b3, b2, b1, b0, _, _)] =>
      Some [Ascii a0 a1 a2 a3 a4 a5 a6 a7; Ascii b0 b1 b2 b3 b4 b5 b6 b7]
  | [(a7, a6, a5, a4, a3, a2); (a1, a0, _, _, _, _)] =>
      Some [Ascii a0 a1 a2 a3 a4 a5 a6 a7]
  | [_] => None
  | [] => Some []
  end.

(** Carriage returns and line feeds in the input are skipped. *)
Definition newline (c : ascii) : bool :=
  Ascii.eqb c "010"%char || Ascii.eqb c "013"%char.

Fixpoint decodeAll (l : list ascii) : option (list sextet) :=
  match l with
  | [] => Some []
  | c :: rest =>
      if newline c then decodeAll rest
      else match decodeMap c, decodeAll rest with
           | Some x, Some xs => Some (x :: xs)
           | _, _ => None
           end
  end.

(** [DecodeString]. *)
Definition DecodeString (s : string) : result string :=
  match decodeAll (list_ascii_of_string s) with
  | None => Err CorruptInputError
  | Some l =>
      match join8 l with
      | None => Err CorruptInputError
      | Some out => Ok (string_of_list_ascii out)
      end
  end.

End base64.

(** *** Package crypto/sha256 *)
Module sha256.

Definition byte (c : ascii) : Z := Z.of_N (N_of_ascii c).
Definition char (z : Z) : ascii := ascii_of_N (Z.to_N (z mod 256)).

Definition bytes (s : string) : list Z := map byte (list_ascii_of_string s).
Definition chars (l : list Z) : string := string_of_list_ascii (map char l).

(** Words of 32 bits. *)
Definition w32 (x : Z) : Z := Z.land x 4294967295.
Definition add (x y : Z) : Z := w32 (x + y).
Definition rotr (n x : Z) : Z := Z.lor (Z.shiftr x n) (w32 (Z.shiftl x (32 - n))).
Definition shr (n x : Z) : Z := Z.shiftr x n.
Definition not32 (x : Z) : Z := Z.lxor x 4294967295.

Definition Ch (x y z : Z) : Z := Z.lxor (Z.land x y) (Z.land (not32 x) z).
Definition Maj (x y z : Z) : Z :=
  Z.lxor (Z.lxor (Z.land x y) (Z.land x z)) (Z.land y z).
Definition Sum0 (x : Z) : Z := Z.lxor (Z.lxor (rotr 2 x) (rotr 13 x)) (rotr 22 x).
Definition Sum1 (x : Z) : Z := Z.lxor (Z.lxor (rotr 6 x) (rotr 11 x)) (rotr 25 x).
Definition sig0 (x : Z) : Z := Z.lxor (Z.lxor (rotr 7 x) (rotr 18 x)) (shr 3 x).
Definition sig1 (x : Z) : Z := Z.lxor (Z.lxor (rotr 17 x) (rotr 19 x)) (shr 10 x).

(** The round constants: the first 32 bits of the fractional parts of the
    cube roots of the first 64 primes. *)
Definition _K : list Z :=
  [1116352408; 1899447441; 3049323471; 3921009573; 961987163; 1508970993;
   2453635748; 2870763221; 3624381080; 310598401; 607225278; 1426881987;
   1925078388; 2162078206; 2614888103; 3248222580; 3835390401;
   4022224774; 264347078; 604807628; 770255983; 1249150122; 1555081692;
   1996064986; 2554220882; 2821834349; 2952996808; 3210313671;
   3336571891; 3584528711; 113926993; 338241895; 666307205; 773529912;
   1294757372; 1396182291; 1695183700; 1986661051; 2177026350;
   2456956037; 2730485921; 2820302411; 3259730800; 3345764771;
   3516065817; 3600352804; 4094571909; 275423344; 430227734; 506948616;
   659060556; 883997877; 958139571; 1322822218; 1537002063; 1747873779;
   1955562222; 2024104815; 2227730452; 2361852424; 2428436474;
   2756734187; 3204031479; 3329325298].

(** The initial hash value: from the square roots of the first 8 primes. *)
Definition init : list Z :=
  [1779033703; 3144134277; 1013904242; 2773480762; 1359893119;
   2600822924; 528734635; 1541459225].

(** Big-endian words from bytes, four at a time. *)
Fixpoint words (l : list Z) : list Z :=
  match l with
  | a :: b :: c :: d :: rest =>
      (a * 16777216 + b * 65536 + c * 256 + d) :: words rest
  | _ => []
  end.

Definition word_bytes (x : Z) : list Z :=
  [Z.shiftr x 24 mod 256; Z.shiftr x 16 mod 256; Z.shiftr x 8 mod 256; x mod 256].

(** The message followed by the bit 1, zero bits up to 56 modulo 64 bytes,
    and the length of the message in bits as 8 bytes. *)
Definition pad (msg : list Z) : list Z :=
  let n := Z.of_nat (length msg) in
  let zeros := Z.to_nat ((55 - n) mod 64) in
  (msg ++ [128] ++ repeat 0 zeros
   ++ word_bytes (Z.shiftr (8 * n) 32) ++ word_bytes (w32 (8 * n)))%list.

(** The message schedule, newest word first: [n] more words after those
    of [w]. *)
Fixpoint schedule (n : nat) (w : list Z) : list Z :=
  match n with
  | O => w
  | S n' =>
      schedule n'
        (add (add (sig1 (nth 1 w 0)) (nth 6 w 0))
             (add (sig0 (nth 14 w 0)) (nth 15 w 0)) :: w)
  end.

Definition state : Type := Z * Z * Z * Z * Z * Z * Z * Z.

Definition round (st : state) (kw : Z * Z) : state :=
  let '(a, b, c, d, e, f, g, h) := st in
  let t1 := add (add (add (add h (Sum1 e)) (Ch e f g)) kw.1) kw.2 in
  let t2 := add (Sum0 a) (Maj a b c) in
  (add t1 t2, a, b, c, add d t1, e, f, g).

(** One block of 16 words folded into the hash value. *)
Definition block (hv : state) (m : list Z) : state :=
  let w := rev (schedule 48 (rev m)) in
  let '(a, b, c, d, e, f, g, h) := fold_left round (combine _K w) hv in
  let '(a0, b0, c0, d0, e0, f0, g0, h0) := hv in
  (add a0 a, add b0 b, add c0 c, add d0 d, add e0 e, add f0 f, add g0 g, add h0 h).

Fixpoint blocks (n : nat) (hv : state) (ws : list Z) : state :=
  match n with
  | O => hv
  | S n' => blocks n' (block hv (firstn 16 ws)) (skipn 16 ws)
  end.

(** [sha256.Sum256]: the digest, 32 bytes. *)
Definition Sum256 (msg : string) : string :=
  let ws := words (pad (bytes msg)) in
  let '(a, b, c, d, e, f, g, h) :=
    blocks (length ws / 16)
      (1779033703, 3144134277, 1013904242, 2773480762,
       1359893119, 2600822924, 528734635, 1541459225) ws in
  chars (flat_map word_bytes [a; b; c; d; e; f; g; h]).

Definition BlockSize : nat := 64.

End sha256.

(** *** Package crypto/hmac, with SHA-256 *)
Module hmac.

Definition xor_with (k : Z) (s : string) : string :=
  sha256.chars (map (fun b => Z.lxor b k) (sha256.bytes s)).

(** The key brought to the block size: hashed if longer, then filled up
    with zero bytes. *)
Definition blockKey (key : string) : string :=
  let k := if Nat.ltb sha256.BlockSize (String.length key)
           then sha256.Sum256 key else key in
  k ++ sha256.chars (repeat 0 (sha256.BlockSize - String.length k)).

(** [hmac.New(sha256.New, key)], [Write(message)], [Sum(nil)]. *)
Definition Sum (key message : string) : string :=
  let k := blockKey key in
  sha256.Sum256 (xor_with 92 k ++ sha256.Sum256 (xor_with 54 k ++ message)).

(** [hmac.Equal]: equality of the two byte strings (compared in constant
    time, which is not represented). *)
Definition Equal (mac1 mac2 : string) : bool := String.eqb mac1 mac2.

End hmac.

(** *** Package unicode/utf8 *)
Module utf8.

Definition byte (c : ascii) : Z := Z.of_N (N_of_ascii c).
Definition char (z : Z) : ascii := ascii_of_N (Z.to_N z).

Definition RuneSelf : Z := 128.
Definition RuneError : Z := 65533.

(** A continuation byte. *)
Definition cont (c : ascii) : bool := (128 <=? byte c) && (byte c <=? 191).

Definition between (lo hi : Z) (c : ascii) : bool :=
  (lo <=? byte c) && (byte c <=? hi).

(** The length of the well-formed encoding of more than one byte that [s]
    starts with, if it starts with one. *)
Definition runeLen (s : string) : option nat :=
  match s with
  | String c0 (String c1 r1) =>
      let x := byte c0 in
      if x <? 194 then None
      else if x <=? 223 then (if cont c1 then Some 2%nat else None)
      else if x <=? 239 then
        match r1 with
        | String c2 _ =>
            if between (if x =? 224 then 160 else 128)
                       (if x =? 237 then 159 else 191) c1 && cont c2
            then Some 3%nat else None
        | EmptyString => None
        end
      else if x <=? 244 then
        match r1 with
        | String c2 (String c3 _) =>
            if between (if x =? 240 then 144 else 128)
                       (if x =? 244 then 143 else 191) c1 && cont c2 && cont c3
            then Some 4%nat else None
        | _ => None
        end
      else None
  | _ => None
  end.

(** [utf8.ValidString]; [skip] bytes of an encoding already examined are
    passed over. *)
Fixpoint validFrom (skip : nat) (s : string) : bool :=
  match s with
  | EmptyString => true
  | String c rest =>
      match skip with
      | S k => validFrom k rest
      | O =>
          if byte c <? RuneSelf then validFrom O rest
          else match runeLen s with
               | Some n => validFrom (n - 1) rest
               | None => false
               end
      end
  end.

Definition ValidString (s : string) : bool := validFrom 0 s.

(** [utf8.AppendRune]: the encoding of a rune; a surrogate or a value
    beyond U+10FFFF is encoded as [RuneError]. *)
Definition EncodeRune (r : Z) : string :=
  let r := if (r <? 0) || (1114111 <? r) || ((55296 <=? r) && (r <=? 57343))
           then RuneError else r in
  if r <? 128 then String (char r) EmptyString
  else if r <? 2048 then
    String (char (192 + r / 64)) (String (char (128 + r mod 64)) EmptyString)
  else if r <? 65536 then
    String (char (224 + r / 4096))
      (String (char (128 + r / 64 mod 64))
         (String (char (128 + r mod 64)) EmptyString))
  else
    String (char (240 + r / 262144))
      (String (char (128 + r / 4096 mod 64))
         (String (char (128 + r / 64 mod 64))
            (String (char (128 + r mod 64)) EmptyString))).

End utf8.

(** *** Package encoding/json *)
Module json.

Definition hex (d : Z) : ascii :=
  if d <? 10 then utf8.char (48 + d) else utf8.char (87 + d).

Definition hexVal (c : ascii) : option Z :=
  let n := utf8.byte c in
  if (48 <=? n) && (n <=? 57) then Some (n - 48)
  else if (97 <=? n) && (n <=? 102) then Some (n - 87)
  else if (65 <=? n) && (n <=? 70) then Some (n - 55)
  else None.

(** The escape of a code unit given by its four hexadecimal digits: a
    backslash, the letter u, the digits. *)
Definition escapeU (h3 h2 h1 h0 : ascii) : string :=
  String "\"%char (String "u"%char
    (String h3 (String h2 (String h1 (String h0 EmptyString))))).

(** The escape of a byte. *)
Definition escapeU00 (n : Z) : string :=
  escapeU "0" "0" (hex (n / 16)) (hex (n mod 16)).

(** The escapes of the replacement character U+FFFD and of the line and
    paragraph separators U+2028 and U+2029. *)
Definition escapeFFFD : string := escapeU "f" "f" "f" "d".
Definition escape2028 : string := escapeU "2" "0" "2" "8".
Definition escape2029 : string := escapeU "2" "0" "2" "9".

(** What the encoder writes for one byte below [utf8.RuneSelf]; the
    characters [<], [>] and [&] are escaped as well. *)
Definition escapeByte (c : ascii) : string :=
  let n := utf8.byte c in
  if (n =? 34) || (n =? 92) then String "\"%char (String c EmptyString)
  else if n =? 8 then "\b"
  else if n =? 12 then "\f"
  else if n =? 10 then "\n"
  else if n =? 13 then "\r"
  else if n =? 9 then "\t"
  else if (n <? 32) || (n =? 60) || (n =? 62) || (n =? 38) then escapeU00 n
  else String c EmptyString.

(** The line and paragraph separators U+2028 and U+2029, as encoded. *)
Definition isSeparator (s : string) : option string :=
  match s with
  | String c0 (String c1 (String c2 _)) =>
      if (utf8.byte c0 =? 226) && (utf8.byte c1 =? 128) then
        if utf8.byte c2 =? 168 then Some escape2028
        else if utf8.byte c2 =? 169 then Some escape2029
        else None
      else None
  | _ => None
  end.

(** The text of a string between the quotes ([appendString]).  A byte
    that does not start a well-formed encoding is written as the escape of U+FFFD;
    [copy] and [drop] count the bytes of an encoding already examined that
    are still to be copied or left out. *)
Fixpoint appendString (copy drop : nat) (src : string) : string :=
  match src with
  | EmptyString => EmptyString
  | String c rest =>
      match drop, copy with
      | S d, _ => appendString copy d rest
      | O, S k => String c (appendString k O rest)
      | O, O =>
          if utf8.byte c <? utf8.RuneSelf
          then (escapeByte c ++ appendString O O rest)%string
          else
            match utf8.runeLen src with
            | None => (escapeFFFD ++ appendString O O rest)%string
            | Some n =>
                match isSeparator src with
                | Some esc => (esc ++ appendString O 2 rest)%string
                | None => String c (appendString (n - 1) O rest)
                end
            end
      end
  end.

Definition quote (s : string) : string := appendString 0 0 s.

(** A JSON string literal for a Go string. *)
Definition encodeString (s : string) : string :=
  String dquote (quote s ++ String dquote EmptyString).

(** Four hexadecimal digits. *)
Definition getu4 (s : string) : option Z :=
  match s with
  | String h3 (String h2 (String h1 (String h0 _))) =>
      a ← hexVal h3; b ← hexVal h2; c ← hexVal h1; d ← hexVal h0;
      Some (a * 4096 + b * 256 + c * 16 + d)
  | _ => None
  end.

Definition isSurrogate (r : Z) : bool := (55296 <=? r) && (r <? 57344).

(** [utf16.DecodeRune]. *)
Definition decodePair (r1 r2 : Z) : Z :=
  if (55296 <=? r1) && (r1 <? 56320) && (56320 <=? r2) && (r2 <? 57344)
  then (r1 - 55296) * 1024 + (r2 - 56320) + 65536
  else utf8.RuneError.

(** The character a one-letter escape stands for. *)
Definition simpleEscape (c : ascii) : option ascii :=
  let n := utf8.byte c in
  if (n =? 34) || (n =? 92) || (n =? 47) || (n =? 39) then Some c
  else if n =? 98 then Some (utf8.char 8)
  else if n =? 102 then Some (utf8.char 12)
  else if n =? 110 then Some (utf8.char 10)
  else if n =? 114 then Some (utf8.char 13)
  else if n =? 116 then Some (utf8.char 9)
  else None.

(** The Go string a literal text stands for ([unquote]); [None] for text
    that is not the inside of a string literal. *)
Fixpoint unquoteFrom (copy drop : nat) (s : string) : option string :=
  match s with
  | EmptyString => Some EmptyString
  | String c rest =>
      match drop, copy with
      | S d, _ => unquoteFrom copy d rest
      | O, S k => String c <$> unquoteFrom k O rest
      | O, O =>
          let n := utf8.byte c in
          if n =? 92 then
            match rest with
            | String e after =>
                if utf8.byte e =? 117 then
                  match getu4 after with
                  | None => None
                  | Some rr =>
                      if isSurrogate rr then
                        match after with
                        | String _ (String _ (String _ (String _
                            (String b1 (String u1 more))))) =>
                            match (if (utf8.byte b1 =? 92) && (utf8.byte u1 =? 117)
                                   then getu4 more else None) with
                            | Some rr1 =>
                                if decodePair rr rr1 =? utf8.RuneError
                                then append (utf8.EncodeRune utf8.RuneError)
                                       <$> unquoteFrom O 5 rest
                                else append (utf8.EncodeRune (decodePair rr rr1))
                                       <$> unquoteFrom O 11 rest
                            | None =>
                                append (utf8.EncodeRune utf8.RuneError)
                                  <$> unquoteFrom O 5 rest
                            end
                        | _ =>
                            append (utf8.EncodeRune utf8.RuneError)
                              <$> unquoteFrom O 5 rest
                        end
                      else append (utf8.EncodeRune rr) <$> unquoteFrom O 5 rest
                  end
                else
                  match simpleEscape e with
                  | Some x => String x <$> unquoteFrom O 1 rest
                  | None => None
                  end
            | EmptyString => None
            end
          else if (n =? 34) || (n <? 32) then None
          else if n <? utf8.RuneSelf then String c <$> unquoteFrom O O rest
          else
            match utf8.runeLen s with
            | None => append (utf8.EncodeRune utf8.RuneError) <$> unquoteFrom O O rest
            | Some m => String c <$> unquoteFrom (m - 1) O rest
            end
      end
  end.

Definition unquote (raw : string) : option string := unquoteFrom 0 0 raw.

(** **** JSON text as a tree

    Numbers are kept as their literals and strings as the text between
    their quotes, escapes in place; member names likewise. *)
#[warnings="-register-all"] Inductive Value : Type :=
| JNull
| JBool (b : bool)
| JNumber (lit : string)
| JString (raw : string)
| JArray (l : list Value)
| JObject (m : list (string * Value)).

Definition isSpace (c : ascii) : bool :=
  let n := utf8.byte c in (n =? 32) || (n =? 9) || (n =? 13) || (n =? 10).

Fixpoint skipWS (s : string) : string :=
  match s with
  | String c rest => if isSpace c then skipWS rest else s
  | EmptyString => EmptyString
  end.

(** Where the scanner is inside a string literal. *)
Inductive inString :=
| InString                (* between characters *)
| InEsc                   (* after a backslash *)
| InHex (k : nat).        (* in [\u], this digit and [k] more to come *)

Definition isEscape (c : ascii) : bool :=
  let n := utf8.byte c in
  (n =? 98) || (n =? 102) || (n =? 110) || (n =? 114) || (n =? 116)
  || (n =? 92) || (n =? 47) || (n =? 34).

Definition consFst (c : ascii) (r : string * string) : string * string :=
  (String c r.1, r.2).

(** The text of a string literal up to its closing quote, and what
    follows the quote. *)
Fixpoint scanString (st : inString) (s : string) : option (string * string) :=
  match s with
  | EmptyString => None
  | String c rest =>
      match st with
      | InString =>
          let n := utf8.byte c in
          if n =? 34 then Some (EmptyString, rest)
          else if n =? 92 then consFst c <$> scanString InEsc rest
          else if n <? 32 then None
          else consFst c <$> scanString InString rest
      | InEsc =>
          if isEscape c then consFst c <$> scanString InString rest
          else if utf8.byte c =? 117 then consFst c <$> scanString (InHex 3) rest
          else None
      | InHex k =>
          match hexVal c with
          | None => None
          | Some _ =>
              consFst c <$> scanString (match k with O => InString | S k' => InHex k' end) rest
          end
      end
  end.

Definition isDigit (c : ascii) : bool :=
  let n := utf8.byte c in (48 <=? n) && (n <=? 57).

(** The longest run of digits at the start of [s]. *)
Fixpoint spanDigits (s : string) : string * string :=
  match s with
  | String c rest => if isDigit c then consFst c (spanDigits rest) else (EmptyString, s)
  | EmptyString => (EmptyString, EmptyString)
  end.

(** A number literal at the start of [s]: an optional minus sign, an
    integer part without a leading zero, an optional fraction, an
    optional exponent. *)
Definition scanNumber (s : string) : option (string * string) :=
  let '(sign, s) :=
    match s with
    | String c rest => if utf8.byte c =? 45 then ("-", rest) else ("", s)
    | EmptyString => ("", s)
    end in
  '(int, s) ← match s with
              | String c rest =>
                  if utf8.byte c =? 48 then Some ("0", rest)
                  else if isDigit c then Some (consFst c (spanDigits rest))
                  else None
              | EmptyString => None
              end;
  '(frac, s) ← match s with
               | String c rest =>
                   if utf8.byte c =? 46 then
                     let '(ds, rest') := spanDigits rest in
                     if String.eqb ds "" then None else Some (String c ds, rest')
                   else Some ("", s)
               | EmptyString => Some ("", s)
               end;
  '(exp, s) ← match s with
              | String c rest =>
                  if (utf8.byte c =? 101) || (utf8.byte c =? 69) then
                    let '(sg, rest) :=
                      match rest with
                      | String c' rest' =>
                          if (utf8.byte c' =? 43) || (utf8.byte c' =? 45)
                          then (String c' EmptyString, rest') else ("", rest)
                      | EmptyString => ("", rest)
                      end in
                    let '(ds, rest') := spanDigits rest in
                    if String.eqb ds "" then None
                    else Some (String c (sg ++ ds), rest')
                  else Some ("", s)
              | EmptyString => Some ("", s)
              end;
  Some (sign ++ int ++ frac ++ exp, s).

(** [s] starts with [lit]: what follows it. *)
Fixpoint after (lit s : string) : option string :=
  match lit, s with
  | EmptyString, _ => Some s
  | String a lit', String b s' => if Ascii.eqb a b then after lit' s' else None
  | String _ _, EmptyString => None
  end.

(** A JSON value at the start of [s] (after white space), and what
    follows it.  [fuel] bounds the nesting and the number of elements. *)
Fixpoint parseValue (fuel : nat) (s : string) : option (Value * string) :=
  match fuel with
  | O => None
  | S fuel' =>
      match skipWS s with
      | EmptyString => None
      | String c rest =>
          let n := utf8.byte c in
          if n =? 123 then
            match skipWS rest with
            | String c' rest' =>
                if utf8.byte c' =? 125 then Some (JObject [], rest')
                else '(m, r) ← parseMembers fuel' rest; Some (JObject m, r)
            | EmptyString => None
            end
          else if n =? 91 then
            match skipWS rest with
            | String c' rest' =>
                if utf8.byte c' =? 93 then Some (JArray [], rest')
                else '(l, r) ← parseElements fuel' rest; Some (JArray l, r)
            | EmptyString => None
            end
          else if n =? 34 then
            '(raw, r) ← scanString InString rest; Some (JString raw, r)
          else if n =? 116 then r ← after "rue" rest; Some (JBool true, r)
          else if n =? 102 then r ← after "alse" rest; Some (JBool false, r)
          else if n =? 110 then r ← after "ull" rest; Some (JNull, r)
          else
            '(lit, r) ← scanNumber (String c rest); Some (JNumber lit, r)
      end
  end
with parseElements (fuel : nat) (s : string) : option (list Value * string) :=
  match fuel with
  | O => None
  | S fuel' =>
      '(v, r) ← parseValue fuel' s;
      match skipWS r with
      | String c rest =>
          if utf8.byte c =? 44 then
            '(vs, r') ← parseElements fuel' rest; Some (v :: vs, r')
          else if utf8.byte c =? 93 then Some ([v], rest)
          else None
      | EmptyString => None
      end
  end
with parseMembers (fuel : nat) (s : string)
    : option (list (string * Value) * string) :=
  match fuel with
  | O => None
  | S fuel' =>
      match skipWS s with
      | String q rest =>
          if utf8.byte q =? 34 then
            '(k, r) ← scanString InString rest;
            match skipWS r with
            | String c r1 =>
                if utf8.byte c =? 58 then
                  '(v, r2) ← parseValue fuel' r1;
                  match skipWS r2 with
                  | String c' r3 =>
                      if utf8.byte c' =? 44 then
                        '(ms, r4) ← parseMembers fuel' r3; Some ((k, v) :: ms, r4)
                      else if utf8.byte c' =? 125 then Some ([(k, v)], r3)
                      else None
                  | EmptyString => None
                  end
                else None
            | EmptyString => None
            end
          else None
      | EmptyString => None
      end
  end.

(** The whole of [s] as one JSON value ([checkValid] and the scan). *)
Definition parse (s : string) : result Value :=
  match parseValue (S (String.length s)) s with
  | Some (v, rest) =>
      if String.eqb (skipWS rest) "" then Ok v else Err SyntaxError
  | None => Err SyntaxError
  end.

(** **** Maps in key order *)

(** [kv] put into a list kept in ascending order of keys; an entry with
    the same key is replaced. *)
Fixpoint insertKey {A} (k : string) (v : A) (l : list (string * A))
    : list (string * A) :=
  match l with
  | [] => [(k, v)]
  | (k', v') :: rest =>
      match String.compare k k' with
      | Lt => (k, v) :: l
      | Eq => (k, v) :: rest
      | Gt => (k', v') :: insertKey k v rest
      end
  end.

(** The entries of [l] added one by one to [acc]. *)
Definition insertAll {A} (acc l : list (string * A)) : list (string * A) :=
  fold_left (fun acc kv => insertKey kv.1 kv.2 acc) l acc.

(** Each key is below all later keys. *)
Fixpoint ascending (keys : list string) : bool :=
  match keys with
  | [] => true
  | k :: rest => forallb (fun k' => String.ltb k k') rest && ascending rest
  end.

(** **** Encoding *)

Fixpoint join (sep : string) (l : list string) : string :=
  match l with
  | [] => EmptyString
  | [x] => x
  | x :: rest => (x ++ sep ++ join sep rest)%string
  end.

(** The decimal digits of [n > 0] in front of [acc]. *)
Fixpoint posDigits (fuel : nat) (n : Z) (acc : string) : string :=
  match fuel with
  | O => acc
  | S fuel' =>
      if n <? 10 then String (time.digit n) acc
      else posDigits fuel' (n / 10) (String (time.digit (n mod 10)) acc)
  end.

(** A float64 that holds the integer [n], [|n| <= 2^53], as the encoder
    writes it: in plain decimal digits. *)
Definition formatInt (n : Z) : string :=
  if n =? 0 then "0"
  else if n <? 0 then
    String "-"%char (posDigits (S (Z.to_nat (Z.log2 (- n)))) (- n) EmptyString)
  else posDigits (S (Z.to_nat (Z.log2 n))) n EmptyString.

Definition member (kt : string * string) : string :=
  (encodeString kt.1 ++ ":" ++ kt.2)%string.

(** The encoding of an [any]; the members of a map come in key order. *)
Fixpoint encodeAny (v : any) : result string :=
  match v with
  | Nil => Ok "null"
  | Bool b => Ok (if b then "true" else "false")
  | Float64 n => Ok (formatInt n)
  | Str s => Ok (encodeString s)
  | Slice l =>
      ts ← (fix elems (l : list any) : result (list string) :=
              match l with
              | [] => Ok []
              | x :: rest => t ← encodeAny x; ts ← elems rest; Ok (t :: ts)
              end) l;
      Ok ("[" ++ join "," ts ++ "]")%string
  | Map m =>
      kts ← (fix members (m : list (string * any)) : result (list (string * string)) :=
               match m with
               | [] => Ok []
               | (k, x) :: rest => t ← encodeAny x; kts ← members rest; Ok ((k, t) :: kts)
               end) m;
      Ok ("{" ++ join "," (map member (insertAll [] kts)) ++ "}")%string
  | Chan => Err UnsupportedTypeError
  end.

(** The encoding of a [map[string]any]. *)
Definition encodeMap (m : list (string * any)) : result string := encodeAny (Map m).

(** The encoding of a non-empty [[]string]. *)
Definition encodeStrings (l : list string) : string :=
  ("[" ++ join "," (map encodeString l) ++ "]")%string.

(** The encoding of a [map[string]string]. *)
Definition encodeStringMap (m : list (string * string)) : string :=
  ("{" ++ join "," (map member (insertAll [] (map (fun kv => (kv.1, encodeString kv.2)) m)))
   ++ "}")%string.

(** **** Decoding into an [any] *)

Fixpoint allDigits (s : string) : bool :=
  match s with
  | EmptyString => true
  | String c rest => isDigit c && allDigits rest
  end.

Fixpoint digitsValue (acc : Z) (s : string) : Z :=
  match s with
  | EmptyString => acc
  | String c rest => digitsValue (10 * acc + (utf8.byte c - 48)) rest
  end.

(** The float64 a number literal stands for, where it is an integer of
    magnitude at most [2^53] written without fraction or exponent. *)
Definition convertNumber (lit : string) : result Z :=
  match lit with
  | String c rest =>
      if utf8.byte c =? 45 then
        if allDigits rest && negb (String.eqb rest "")
           && (0 <? digitsValue 0 rest) && (digitsValue 0 rest <=? 2 ^ 53)
        then Ok (- digitsValue 0 rest) else Err Unmodelled
      else if allDigits lit && (digitsValue 0 lit <=? 2 ^ 53)
      then Ok (digitsValue 0 lit) else Err Unmodelled
  | EmptyString => Err Unmodelled
  end.

Definition unquoted (raw : string) : result string :=
  match unquote raw with
  | Some s => Ok s
  | None => Err SyntaxError
  end.

(** What a JSON value decodes to in an [any]. *)
Fixpoint valueInterface (v : Value) : result any :=
  match v with
  | JNull => Ok Nil
  | JBool b => Ok (Bool b)
  | JNumber lit => n ← convertNumber lit; Ok (Float64 n)
  | JString raw => s ← unquoted raw; Ok (Str s)
  | JArray l =>
      xs ← (fix elems (l : list Value) : result (list any) :=
              match l with
              | [] => Ok []
              | v :: rest => x ← valueInterface v; xs ← elems rest; Ok (x :: xs)
              end) l;
      Ok (Slice xs)
  | JObject m =>
      kxs ← (fix members (m : list (string * Value)) : result (list (string * any)) :=
               match m with
               | [] => Ok []
               | (k, v) :: rest =>
                   key ← unquoted k; x ← valueInterface v;
                   kxs ← members rest; Ok ((key, x) :: kxs)
               end) m;
      Ok (Map (insertAll [] kxs))
  end.

End json.

(** ** Package token (domain) *)
Module token.

Definition TypeAccess : string := "access".
Definition TypeRefresh : string := "refresh".

(** [Token]; the fields [Type], [ExpiresAt], [IssuedAt] and [Claims] carry
    a prefix here, their names being taken. *)
Record Token := {
  Value : string;
  TokenType : string;
  TokenExpiresAt : time.Time;
  TokenIssuedAt : time.Time;
  TokenClaims : list (string * any);
}.

Record Claims := {
  Subject : string;                     (* json:"sub" *)
  Issuer : string;                      (* json:"iss" *)
  Audience : string;                    (* json:"aud,omitempty" *)
  ExpiresAt : time.Time;                (* json:"exp" *)
  IssuedAt : time.Time;                 (* json:"iat" *)
  NotBefore : time.Time;                (* json:"nbf,omitempty" *)
  TokenID : string;                     (* json:"jti,omitempty" *)
  Roles : list string;                  (* json:"roles,omitempty" *)
  Metadata : list (string * any);       (* json:"metadata,omitempty" *)
}.

Definition IsExpired (now : time.Time) (t : Token) : bool :=
  time.After now (TokenExpiresAt t).

Definition IsValid (now : time.Time) (t : Token) : bool :=
  negb (IsExpired now t) && negb (String.eqb (Value t) "").

(** The zero value of [Claims]. *)
Definition zeroClaims : Claims :=
  {| Subject := ""; Issuer := ""; Audience := ""; ExpiresAt := time.zero;
     IssuedAt := time.zero; NotBefore := time.zero; TokenID := "";
     Roles := []; Metadata := [] |}.

(** *** [json.Marshal] of a [Claims]

    The fields in their order of declaration; a field tagged [omitempty]
    is left out when it is an empty string, slice or map.  The tag has no
    effect on [nbf], a struct. *)

(** A member name with its colon. *)
Definition name (tag : string) : string :=
  (String dquote tag ++ String dquote ":")%string.

Definition MarshalClaims (c : Claims) : result string :=
  exp ← time.MarshalJSON (ExpiresAt c);
  iat ← time.MarshalJSON (IssuedAt c);
  nbf ← time.MarshalJSON (NotBefore c);
  meta ← match Metadata c with
          | [] => Ok ""
          | m => t ← json.encodeMap m; Ok ("," ++ name "metadata" ++ t)%string
          end;
  Ok ("{" ++ name "sub" ++ json.encodeString (Subject c)
      ++ "," ++ name "iss" ++ json.encodeString (Issuer c)
      ++ (if String.eqb (Audience c) "" then ""
          else "," ++ name "aud" ++ json.encodeString (Audience c))
      ++ "," ++ name "exp" ++ exp
      ++ "," ++ name "iat" ++ iat
      ++ "," ++ name "nbf" ++ nbf
      ++ (if String.eqb (TokenID c) "" then ""
          else "," ++ name "jti" ++ json.encodeString (TokenID c))
      ++ match Roles c with
         | [] => ""
         | roles => "," ++ name "roles" ++ json.encodeStrings roles
         end
      ++ meta ++ "}")%string.

(** *** [json.Unmarshal] into a [Claims] *)

Inductive field :=
| FSub | FIss | FAud | FExp | FIat | FNbf | FJti | FRoles | FMetadata.

Definition toLower (c : ascii) : ascii :=
  let n := utf8.byte c in
  if (65 <=? n) && (n <=? 90) then utf8.char (n + 32) else c.

Fixpoint lower (s : string) : string :=
  match s with
  | EmptyString => EmptyString
  | String c rest => String (toLower c) (lower rest)
  end.

(** The field a member name selects: the one whose tag equals the name,
    letters compared without regard to case. *)
Definition fieldOf (key : string) : option field :=
  let k := lower key in
  if String.eqb k "sub" then Some FSub
  else if String.eqb k "iss" then Some FIss
  else if String.eqb k "aud" then Some FAud
  else if String.eqb k "exp" then Some FExp
  else if String.eqb k "iat" then Some FIat
  else if String.eqb k "nbf" then Some FNbf
  else if String.eqb k "jti" then Some FJti
  else if String.eqb k "roles" then Some FRoles
  else if String.eqb k "metadata" then Some FMetadata
  else None.

(** The state of the decoder: the struct being filled, the first type
    mismatch met (decoding goes on after one), and whether a [roles]
    member has been decoded already. *)
Record decodeState := {
  claims : Claims;
  savedError : option error;
  rolesSeen : bool;
}.

Definition saveError (d : decodeState) : decodeState :=
  {| claims := claims d;
     savedError := match savedError d with
                   | Some e => Some e
                   | None => Some UnmarshalTypeError
                   end;
     rolesSeen := rolesSeen d |}.

Definition withClaims (c : Claims) (d : decodeState) : decodeState :=
  {| claims := c; savedError := savedError d; rolesSeen := rolesSeen d |}.

Definition setSubject (v : string) (c : Claims) : Claims :=
  {| Subject := v; Issuer := Issuer c; Audience := Audience c;
     ExpiresAt := ExpiresAt c; IssuedAt := IssuedAt c; NotBefore := NotBefore c;
     TokenID := TokenID c; Roles := Roles c; Metadata := Metadata c |}.
Definition setIssuer (v : string) (c : Claims) : Claims :=
  {| Subject := Subject c; Issuer := v; Audience := Audience c;
     ExpiresAt := ExpiresAt c; IssuedAt := IssuedAt c; NotBefore := NotBefore c;
     TokenID := TokenID c; Roles := Roles c; Metadata := Metadata c |}.
Definition setAudience (v : string) (c : Claims) : Claims :=
  {| Subject := Subject c; Issuer := Issuer c; Audience := v;
     ExpiresAt := ExpiresAt c; IssuedAt := IssuedAt c; NotBefore := NotBefore c;
     TokenID := TokenID c; Roles := Roles c; Metadata := Metadata c |}.
Definition setExpiresAt (v : time.Time) (c : Claims) : Claims :=
  {| Subject := Subject c; Issuer := Issuer c; Audience := Audience c;
     ExpiresAt := v; IssuedAt := IssuedAt c; NotBefore := NotBefore c;
     TokenID := TokenID c; Roles := Roles c; Metadata := Metadata c |}.
Definition setIssuedAt (v : time.Time) (c : Claims) : Claims :=
  {| Subject := Subject c; Issuer := Issuer c; Audience := Audience c;
     ExpiresAt := ExpiresAt c; IssuedAt := v; NotBefore := NotBefore c;
     TokenID := TokenID c; Roles := Roles c; Metadata := Metadata c |}.
Definition setNotBefore (v : time.Time) (c : Claims) : Claims :=
  {| Subject := Subject c; Issuer := Issuer c; Audience := Audience c;
     ExpiresAt := ExpiresAt c; IssuedAt := IssuedAt c; NotBefore := v;
     TokenID := TokenID c; Roles := Roles c; Metadata := Metadata c |}.
Definition setTokenID (v : string) (c : Claims) : Claims :=
  {| Subject := Subject c; Issuer := Issuer c; Audience := Audience c;
     ExpiresAt := ExpiresAt c; IssuedAt := IssuedAt c; NotBefore := NotBefore c;
     TokenID := v; Roles := Roles c; Metadata := Metadata c |}.
Definition setRoles (v : list string) (c : Claims) : Claims :=
  {| Subject := Subject c; Issuer := Issuer c; Audience := Audience c;
     ExpiresAt := ExpiresAt c; IssuedAt := IssuedAt c; NotBefore := NotBefore c;
     TokenID := TokenID c; Roles := v; Metadata := Metadata c |}.
Definition setMetadata (v : list (string * any)) (c : Claims) : Claims :=
  {| Subject := Subject c; Issuer := Issuer c; Audience := Audience c;
     ExpiresAt := ExpiresAt c; IssuedAt := IssuedAt c; NotBefore := NotBefore c;
     TokenID := TokenID c; Roles := Roles c; Metadata := v |}.

(** A value decoded into a string field: [null] leaves the field as it
    is, anything but a string is a type mismatch. *)
Definition decodeString (v : json.Value) (set : string -> Claims -> Claims)
    (d : decodeState) : result decodeState :=
  match v with
  | json.JNull => Ok d
  | json.JString raw => s ← json.unquoted raw; Ok (withClaims (set s (claims d)) d)
  | _ => Ok (saveError d)
  end.

(** A value decoded into a [time.Time] field, through its
    [UnmarshalJSON]; an error there ends the decoding. *)
Definition decodeTime (v : json.Value) (set : time.Time -> Claims -> Claims)
    (d : decodeState) : result decodeState :=
  match v with
  | json.JNull => Ok d
  | json.JString raw => t ← time.UnmarshalJSON raw; Ok (withClaims (set t (claims d)) d)
  | _ => Err TimeParseError
  end.

(** The elements of an array decoded into a [[]string]: the strings, and
    whether an element was of another kind.  A [null] element leaves the
    slot as it is: empty in a fresh slice; in a slice decoded before, the
    slot may hold an old element, which is not covered here. *)
Fixpoint decodeElements (seen : bool) (l : list json.Value)
    : result (list string * bool) :=
  match l with
  | [] => Ok ([], false)
  | v :: rest =>
      match decodeElements seen rest with
      | Err e => Err e
      | Ok (ss, bad) =>
          match v with
          | json.JString raw => s ← json.unquoted raw; Ok (s :: ss, bad)
          | json.JNull => if seen then Err Unmodelled else Ok ("" :: ss, bad)
          | _ => Ok ("" :: ss, true)
          end
      end
  end.

Definition decodeRoles (v : json.Value) (d : decodeState) : result decodeState :=
  match v with
  | json.JNull => Ok (withClaims (setRoles [] (claims d)) d)
  | json.JArray l =>
      match decodeElements (rolesSeen d) l with
      | Err e => Err e
      | Ok (ss, bad) =>
          let d' := {| claims := setRoles ss (claims d);
                       savedError := savedError d; rolesSeen := true |} in
          Ok (if bad then saveError d' else d')
      end
  | _ => Ok (saveError d)
  end.

(** The members of an object decoded into the map, in their order; a
    later member replaces an earlier one of the same name. *)
Fixpoint decodeEntries (m : list (string * json.Value))
    (acc : list (string * any)) : result (list (string * any)) :=
  match m with
  | [] => Ok acc
  | (k, v) :: rest =>
      key ← json.unquoted k;
      x ← json.valueInterface v;
      decodeEntries rest (json.insertKey key x acc)
  end.

Definition decodeMetadata (v : json.Value) (d : decodeState) : result decodeState :=
  match v with
  | json.JNull => Ok (withClaims (setMetadata [] (claims d)) d)
  | json.JObject m =>
      acc ← decodeEntries m (Metadata (claims d));
      Ok (withClaims (setMetadata acc (claims d)) d)
  | _ => Ok (saveError d)
  end.

Definition decodeMember (k : string) (v : json.Value) (d : decodeState)
    : result decodeState :=
  key ← json.unquoted k;
  match fieldOf key with
  | None => Ok d
  | Some FSub => decodeString v setSubject d
  | Some FIss => decodeString v setIssuer d
  | Some FAud => decodeString v setAudience d
  | Some FExp => decodeTime v setExpiresAt d
  | Some FIat => decodeTime v setIssuedAt d
  | Some FNbf => decodeTime v setNotBefore d
  | Some FJti => decodeString v setTokenID d
  | Some FRoles => decodeRoles v d
  | Some FMetadata => decodeMetadata v d
  end.

Fixpoint decodeMembers (m : list (string * json.Value)) (d : decodeState)
    : result decodeState :=
  match m with
  | [] => Ok d
  | (k, v) :: rest => d' ← decodeMember k v d; decodeMembers rest d'
  end.

(** [json.Unmarshal(data, &claims)] for [claims] the zero value. *)
Definition UnmarshalClaims (data : string) : result Claims :=
  v ← json.parse data;
  match v with
  | json.JNull => Ok zeroClaims
  | json.JObject m =>
      d ← decodeMembers m {| claims := zeroClaims; savedError := None;
                             rolesSeen := false |};
      match savedError d with
      | Some e => Err e
      | None => Ok (claims d)
      end
  | _ => Err UnmarshalTypeError
  end.

End token.

(** ** Package jwt: the token authority *)
Module jwt.

Record Config := {
  Secret : string;
  AccessTokenTTL : time.Duration;
  RefreshTokenTTL : time.Duration;
  Issuer : string;
}.

Record jwtService := { config : Config }.

Definition NewService (config : Config) : result jwtService :=
  if String.eqb (Secret config) ""
  then Err (Errorf "jwt secret is required")
  else Ok {| config := config |}.

(** [sign]: the HMAC of the message under the secret, in base64. *)
Definition sign (s : jwtService) (message : string) : string :=
  base64.EncodeToString (hmac.Sum (Secret (config s)) message).

(** The header map of [Generate]. *)
Definition header : list (string * string) := [("alg", "HS256"); ("typ", "JWT")].

(** [json.Marshal(header)]. *)
Definition MarshalHeader (h : list (string * string)) : result string :=
  Ok (json.encodeStringMap h).

(** [Generate]; [now] is the reading of [time.Now()]. *)
Definition Generate (s : jwtService) (now : time.Time) (claims : token.Claims)
    : result token.Token :=
  let expiresAt := time.Add now (AccessTokenTTL (config s)) in
  let claims := token.setIssuer (Issuer (config s)) claims in
  let claims := token.setIssuedAt now claims in
  let claims := token.setExpiresAt expiresAt claims in
  match MarshalHeader header with
  | Err err => Err (Errorf_w "marshal header" err)
  | Ok headerJSON =>
      match token.MarshalClaims claims with
      | Err err => Err (Errorf_w "marshal claims" err)
      | Ok claimsJSON =>
          let headerEncoded := base64.EncodeToString headerJSON in
          let claimsEncoded := base64.EncodeToString claimsJSON in
          let message := (headerEncoded ++ "." ++ claimsEncoded)%string in
          let signature := sign s message in
          let tokenString := (message ++ "." ++ signature)%string in
          Ok {| token.Value := tokenString;
                token.TokenType := token.TypeAccess;
                token.TokenExpiresAt := expiresAt;
                token.TokenIssuedAt := now;
                token.TokenClaims := [] |}
      end
  end.

(** [Validate]; [now] is the reading of [time.Now()]. *)
Definition Validate (s : jwtService) (now : time.Time) (tokenString : string)
    : result token.Claims :=
  match strings.Split tokenString "."%char with
  | [headerEncoded; claimsEncoded; signature] =>
      let message := (headerEncoded ++ "." ++ claimsEncoded)%string in
      let expectedSignature := sign s message in
      if negb (hmac.Equal signature expectedSignature)
      then Err (Errorf "invalid signature")
      else
        match base64.DecodeString claimsEncoded with
        | Err err => Err (Errorf_w "decode claims" err)
        | Ok claimsJSON =>
            match token.UnmarshalClaims claimsJSON with
            | Err err => Err (Errorf_w "unmarshal claims" err)
            | Ok claims =>
                if time.After now (token.ExpiresAt claims)
                then Err (Errorf "token expired")
                else Ok claims
            end
        end
  | _ => Err (Errorf "invalid token format")
  end.

End jwt.

(** ** Package auth (service)

    The state is the journal of the calls of the logger. *)
Module auth.
Local Open Scope go_scope.

Record Service := { jwtService : jwt.jwtService }.

(** A call of the logger. *)
Definition log (l : Level) (msg : string) : M (list entry) unit :=
  modify (cons (l, msg)).

(** [IssueToken]; [now] is the clock reading of [Generate]. *)
Definition IssueToken (s : Service) (now : time.Time) (claims : token.Claims)
    : M (list entry) (result token.Token) :=
  match jwt.Generate (jwtService s) now claims with
  | Err err =>
      log LevelError "failed to generate token" ;;;
      ret (Err (Errorf_w "generate token" err))
  | Ok tok => log LevelInfo "token issued" ;;; ret (Ok tok)
  end.

(** [ValidateToken]; [now] is the clock reading of [Validate]. *)
Definition ValidateToken (s : Service) (now : time.Time) (tokenString : string)
    : M (list entry) (result token.Claims) :=
  match jwt.Validate (jwtService s) now tokenString with
  | Err err =>
      log LevelWarn "token validation failed" ;;;
      ret (Err (Errorf_w "validate token" err))
  | Ok claims => ret (Ok claims)
  end.

(** [RefreshToken]; [now] is the clock reading of [Validate] and [now']
    that of [Generate]. *)
Definition RefreshToken (s : Service) (now now' : time.Time)
    (refreshToken : string) : M (list entry) (result token.Token) :=
  match jwt.Validate (jwtService s) now refreshToken with
  | Err err => ret (Err (Errorf_w "invalid refresh token" err))
  | Ok claims =>
      r <- IssueToken s now' claims ;;
      match r with
      | Err err => ret (Err (Errorf_w "issue new token" err))
      | Ok newToken => ret (Ok newToken)
      end
  end.

(** [RevokeToken]: nothing but the log entry. *)
Definition RevokeToken (s : Service) (tokenString : string)
    : M (list entry) (option error) :=
  log LevelInfo "token revoked" ;;; ret None.

End auth.

(** ** Package logger: which calls are written

    The state is the journal of the calls of the method [log], which
    formats and prints an entry; the newest comes first. *)
Module logger.
Local Open Scope go_scope.

(** The map [levels] of [shouldLog]. *)
Definition levels : gmap string Z :=
  {[ "debug" := 0; "info" := 1; "warn" := 2; "error" := 3 ]}.

(** The text of a level, [type Level string]. *)
Definition text (l : Level) : string :=
  match l with
  | LevelDebug => "debug"
  | LevelInfo => "info"
  | LevelWarn => "warn"
  | LevelError => "error"
  end.

(** [logger.level]: [Level(config.Level)], any string. *)
Record logger := { level : string }.

Definition New (configLevel : string) : logger := {| level := configLevel |}.

(** [shouldLog]; a key that is not in the map reads as zero. *)
Definition shouldLog (l : logger) (lv : Level) : bool :=
  default 0 (levels !! level l) <=? default 0 (levels !! text lv).

(** A call of [log]. *)
Definition log (lv : Level) (message : string) : M (list entry) unit :=
  modify (cons (lv, message)).

(** The four methods of the interface. *)
Definition Debug (l : logger) (message : string) : M (list entry) unit :=
  if negb (shouldLog l LevelDebug) then ret tt else log LevelDebug message.

Definition Info (l : logger) (message : string) : M (list entry) unit :=
  if negb (shouldLog l LevelInfo) then ret tt else log LevelInfo message.

Definition Warn (l : logger) (message : string) : M (list entry) unit :=
  if negb (shouldLog l LevelWarn) then ret tt else log LevelWarn message.

Definition Error (l : logger) (message : string) : M (list entry) unit :=
  if negb (shouldLog l LevelError) then ret tt else log LevelError message.

End logger.

(** ** HTTP responses *)
Module http.

Definition StatusNoContent : Z := 204.
Definition StatusBadRequest : Z := 400.
Definition StatusUnauthorized : Z := 401.
Definition StatusNotFound : Z := 404.
Definition StatusInternalServerError : Z := 500.
Definition MethodOptions : string := "OPTIONS".

(** What a handler wrote: the status code and the body. *)
Record response := { status : Z; body : string }.

(** [http.Error(w, msg, code)]: the message and a line feed. *)
Definition Error (msg : string) (code : Z) : response :=
  {| status := code; body := (msg ++ String (ascii_of_nat 10) "")%string |}.

(** [w.WriteHeader(code)] and nothing else. *)
Definition WriteHeader (code : Z) : response := {| status := code; body := "" |}.

End http.

(** ** Package middleware *)
Module middleware.
Local Open Scope go_scope.

(** What a middleware did with a request: answered it, or called the
    next handler with the claims in the context. *)
Inductive outcome :=
| Answered (r : http.response)
| Next (claims : token.Claims).

(** [Authenticate]; [authHeader] is [r.Header.Get("Authorization")], empty
    when the request has no such header, and [now] is the clock reading of
    [Validate]. *)
Definition Authenticate (authService : auth.Service) (now : time.Time)
    (authHeader : string) : M (list entry) outcome :=
  if String.eqb authHeader ""
  then ret (Answered (http.Error "missing authorization header" http.StatusUnauthorized))
  else
    match strings.Split authHeader " " with
    | [scheme; tok] =>
        if negb (String.eqb scheme "Bearer")
        then ret (Answered (http.Error "invalid authorization header format"
                              http.StatusUnauthorized))
        else
          r <- auth.ValidateToken authService now tok ;;
          match r with
          | Err _ => ret (Answered (http.Error "invalid token" http.StatusUnauthorized))
          | Ok claims => ret (Next claims)
          end
    | _ => ret (Answered (http.Error "invalid authorization header format"
                             http.StatusUnauthorized))
    end.

(** [isAllowedOrigin]. *)
Fixpoint isAllowedOrigin (origin : string) (allowed : list string) : bool :=
  match allowed with
  | [] => false
  | o :: rest =>
      if String.eqb o "*" || String.eqb o origin then true
      else isAllowedOrigin origin rest
  end.

Record CORSConfig := {
  Enabled : bool;
  AllowedOrigins : list string;
  AllowedMethods : list string;
  AllowedHeaders : list string;
}.

(** What [CORS] did: the response headers it set, in the order of the
    calls of [Set], and whether it answered the request itself (the status
    it wrote) or called the next handler. *)
Record corsOutcome := {
  headers : list (string * string);
  answered : option Z;
}.

(** [CORS]; [origin] is [r.Header.Get("Origin")]. *)
Definition CORS (cfg : CORSConfig) (method origin : string) : corsOutcome :=
  if negb (Enabled cfg) then {| headers := []; answered := None |}
  else
    let h1 :=
      if negb (String.eqb origin "") && isAllowedOrigin origin (AllowedOrigins cfg)
      then [("Access-Control-Allow-Origin", origin)] else [] in
    let h :=
      (h1 ++ [("Access-Control-Allow-Methods", strings.Join (AllowedMethods cfg) ", ");
              ("Access-Control-Allow-Headers", strings.Join (AllowedHeaders cfg) ", ");
              ("Access-Control-Max-Age", "86400")])%list in
    if String.eqb method http.MethodOptions
    then {| headers := h; answered := Some http.StatusNoContent |}
    else {| headers := h; answered := None |}.

End middleware.

(** ** Package session (handler)

    The handler and the service log to the same logger. *)
Module sessionhandler.
Local Open Scope go_scope.

(** [extractID]: the last of the parts [strings.Split] returns. *)
Definition extractID (path : string) : string :=
  match strings.Split path "/" with
  | [] => ""
  | parts => List.last parts ""
  end.

(** What [Get] wrote: an error, or the JSON encoding of the session at
    an address, which is not represented here. *)
Inductive answer :=
| Failed (r : http.response)
| Encoded (sess : loc).

(** [Get]; [path] is [r.URL.Path] and [now] the clock reading of
    [IsExpired]. *)
Definition Get (now : time.Time) (path : string) : M memory_session.store answer :=
  let id := extractID path in
  if String.eqb id ""
  then ret (Failed (http.Error "session id required" http.StatusBadRequest))
  else
    r <- sessionsvc.Get now id ;;
    match r with
    | Err _ => ret (Failed (http.Error "session not found" http.StatusNotFound))
    | Ok sess => ret (Encoded sess)
    end.

(** [Delete]; [path] is [r.URL.Path]. *)
Definition Delete (path : string) : M memory_session.store http.response :=
  let id := extractID path in
  if String.eqb id ""
  then ret (http.Error "session id required" http.StatusBadRequest)
  else
    e <- sessionsvc.Delete id ;;
    match e with
    | Some err =>
        sessionsvc.log LevelError "failed to delete session" ;;;
        ret (http.Error "failed to delete session" http.StatusInternalServerError)
    | None => ret (http.WriteHeader http.StatusNoContent)
    end.

End sessionhandler.

(** ** Package registry (handler) *)
Module registryhandler.
Local Open Scope go_scope.

(** [extractID], as in the handler of sessions. *)
Definition extractID (path : string) : string :=
  match strings.Split path "/" with
  | [] => ""
  | parts => List.last parts ""
  end.

(** [Deregister]; [path] is [r.URL.Path]. *)
Definition Deregister (path : string) : M memory_registry.store http.response :=
  let id := extractID path in
  if String.eqb id ""
  then ret (http.Error "service id required" http.StatusBadRequest)
  else
    e <- registry.Deregister id ;;
    match e with
    | Some err =>
        registry.log LevelError "failed to deregister service" ;;;
        ret (http.Error "failed to deregister service" http.StatusInternalServerError)
    | None => ret (http.WriteHeader http.StatusNoContent)
    end.

(** [Heartbeat]; [now] is the clock reading of [UpdateHeartbeat]. *)
Definition Heartbeat (now : time.Time) (path : string)
    : M memory_registry.store http.response :=
  let id := extractID path in
  if String.eqb id ""
  then ret (http.Error "service id required" http.StatusBadRequest)
  else
    e <- registry.Heartbeat now id ;;
    match e with
    | Some err =>
        ret (http.Error "failed to update heartbeat" http.StatusInternalServerError)
    | None => ret (http.WriteHeader http.StatusNoContent)
    end.

End registryhandler.

(** ** Package memory: the in-memory configuration repository

    [configs] maps a service to its versions and a version to its
    configuration.  The maps of versions are made by [Set] and never leave
    the repository, so they are held by value; a configuration, a map the
    caller keeps a reference to, is known by its address. *)
Module memory_config.

Record store := { configs : gmap string (gmap string loc) }.

Definition NewConfigRepository : store := {| configs := ∅ |}.

Definition Get (serviceID version : string) : M store (result loc) :=
  fun st =>
    match configs st !! serviceID with
    | None => (Err (Errorf "service not found"), st)
    | Some versions =>
        match versions !! version with
        | None => (Err (Errorf "version not found"), st)
        | Some config => (Ok config, st)
        end
    end.

Definition Set_ (serviceID version : string) (config : loc) : M store (option error) :=
  fun st =>
    let m := match configs st !! serviceID with
             | None => <[serviceID := ∅]> (configs st)
             | Some _ => configs st
             end in
    (None,
     {| configs := <[serviceID := <[version := config]> (default ∅ (m !! serviceID))]> m |}).

Definition Delete (serviceID version : string) : M store (option error) :=
  fun st =>
    match configs st !! serviceID with
    | Some versions =>
        let versions' := delete version versions in
        if (size versions' =? 0)%nat
        then (None, {| configs := delete serviceID (configs st) |})
        else (None, {| configs := <[serviceID := versions']> (configs st) |})
    | None => (None, st)
    end.

(** [List]: the versions, in the order the map is ranged over. *)
Definition List (serviceID : string) : M store (result (list string)) :=
  fun st =>
    match configs st !! serviceID with
    | None => (Ok [], st)
    | Some versions => (Ok (map fst (map_to_list versions)), st)
    end.

End memory_config.

(* ================================================================== *)
(** * Part II. The terms of the properties                              *)
(* ================================================================== *)

(** ** Session store *)

(** The entries of a table whose session (in [h]) expired before [now]. *)
Definition expired_entries (h : objects session.Session) (now : time.Time)
    (m : gmap string loc) : gmap string loc :=
  filter (fun kv => session.ExpiresAt (h kv.2) < now) m.

(** The entries of a table whose session did not expire before [now]. *)
Definition live_entries (h : objects session.Session) (now : time.Time)
    (m : gmap string loc) : gmap string loc :=
  filter (fun kv => ~ session.ExpiresAt (h kv.2) < now) m.

(** ** Registry: discovery *)

(** The test of the loop of [Discover], as a proposition. *)
Definition discoverable (h : objects service.Service) (capability : string)
    (svc : loc) : Prop :=
  service.Status (h svc) = service.StatusHealthy
  /\ (capability = "" \/ capability ∈ service.Capabilities (h svc)).

#[global] Instance discoverable_dec h capability svc :
  Decision (discoverable h capability svc).
Proof. unfold discoverable. apply _. Defined.

(** ** Registry: the health-monitor sweep *)
Section HealthMonitorTerms.

Variable s : registry.Service.
Variable clock : nat -> time.Time.

(** The timeout [performHealthChecks] passes to [IsHealthy]. *)
Definition heartbeatTimeout : time.Duration :=
  time.mul (registry.healthCheckInterval s) 2.

(** A record that [IsHealthy] rejects at clock reading [now]. *)
Definition stale (now : time.Time) (svc : service.Service) : Prop :=
  service.Status svc = service.StatusUnhealthy
  \/ heartbeatTimeout <= time.Since now (service.LastHeartbeat svc).

(** Some iteration of the loop, started at index [i0] over [l], finds the
    object at [p] without a health-check URL and stale. *)
Definition marked (h : objects service.Service) (i0 : nat) (l : list loc)
    (p : loc) : Prop :=
  exists j, l !! j = Some p
            /\ service.HealthCheckURL (h p) = ""
            /\ stale (clock (i0 + j)) (h p).

End HealthMonitorTerms.

(** ** Token authority *)

(** The claims as [Generate] stamps them. *)
Definition stamp (cfg : jwt.Config) (now : time.Time) (claims : token.Claims)
    : token.Claims :=
  token.setExpiresAt (time.Add now (jwt.AccessTokenTTL cfg))
    (token.setIssuedAt now (token.setIssuer (jwt.Issuer cfg) claims)).

(** The token of a message: the message, a period, its signature. *)
Definition signed (s : jwt.jwtService) (message : string) : string :=
  (message ++ "." ++ jwt.sign s message)%string.

(** Whether the third of three segments is the signature of the first
    two. *)
Definition signatureOK (s : jwt.jwtService) (tokenString : string) : bool :=
  match strings.Split tokenString "." with
  | [h; c; sig] => hmac.Equal sig (jwt.sign s (h ++ "." ++ c))
  | _ => false
  end.

(** The claims the second of three segments decodes to. *)
Definition claimsOf (tokenString : string) : option token.Claims :=
  match strings.Split tokenString "." with
  | [_; c; _] =>
      match base64.DecodeString c with
      | Ok js =>
          match token.UnmarshalClaims js with
          | Ok claims => Some claims
          | Err _ => None
          end
      | Err _ => None
      end
  | _ => None
  end.

(** [s] with its byte at index [i] replaced by [c]. *)
Fixpoint setByte (i : nat) (c : ascii) (s : string) : string :=
  match s, i with
  | EmptyString, _ => EmptyString
  | String _ rest, O => String c rest
  | String x rest, S i' => String x (setByte i' c rest)
  end.

(** The fields [Generate] does not stamp agree. *)
Definition sameUnstamped (c c' : token.Claims) : Prop :=
  token.Subject c' = token.Subject c
  /\ token.Audience c' = token.Audience c
  /\ token.NotBefore c' = token.NotBefore c
  /\ token.TokenID c' = token.TokenID c
  /\ token.Roles c' = token.Roles c
  /\ token.Metadata c' = token.Metadata c.

(** ** What can be encoded *)

(** No channel anywhere in the value. *)
Fixpoint chanFree (v : any) : bool :=
  match v with
  | Chan => false
  | Slice l => forallb chanFree l
  | Map m => forallb (fun '(_, x) => chanFree x) m
  | _ => true
  end.

(** A time [MarshalJSON] accepts. *)
Definition yearOK (t : time.Time) : bool :=
  (0 <=? time.Year t) && (time.Year t <=? 9999).

(** Claims [json.Marshal] accepts. *)
Definition encodable (c : token.Claims) : bool :=
  yearOK (token.ExpiresAt c) && yearOK (token.IssuedAt c)
  && yearOK (token.NotBefore c)
  && forallb (fun '(_, x) => chanFree x) (token.Metadata c).

(** A call that returned without an error. *)
Definition isOk {T} (r : result T) : bool :=
  match r with Ok _ => true | Err _ => false end.

(** ** The calendar, checked day by day *)

(** The computation of [time.civil] within one era of 400 years, checked
    against [time.daysSinceEpoch] and the lengths of the months. *)
Definition civilCheck (doe : Z) : bool :=
  let yoe := (doe - doe / 1460 + doe / 36524 - doe / 146096) / 365 in
  let doy := doe - (365 * yoe + yoe / 4 - yoe / 100) in
  let mp := (5 * doy + 2) / 153 in
  let day := doy - (153 * mp + 2) / 5 + 1 in
  let month := if mp <? 10 then mp + 3 else mp - 9 in
  let year := if month <=? 2 then yoe + 1 else yoe in
  (0 <=? yoe) && (yoe <=? 399)
  && (1 <=? month) && (month <=? 12)
  && (1 <=? day) && (day <=? time.daysIn month year)
  && ((153 * (if 2 <? month then month - 3 else month + 9) + 2) / 5 + day - 1 =? doy)
  && (yoe * 365 + yoe / 4 - yoe / 100 + doy =? doe).

(** [civilCheck] on the [n] days from [i] on. *)
Fixpoint checkFrom (n : nat) (i : Z) : bool :=
  match n with
  | O => true
  | S n' => civilCheck i && checkFrom n' (i + 1)
  end.

(** ** JSON text *)

(** A piece of literal text the scanner passes over as a whole. *)
Definition chunk (p : string) : Prop :=
  forall rest : string,
    json.scanString json.InString (p ++ rest)
    = (fun r => (p ++ r.1, r.2)%string) <$> json.scanString json.InString rest.

(** The first [k] bytes of [s] are above the ASCII range. *)
Fixpoint highPrefix (k : nat) (s : string) : bool :=
  match k, s with
  | S k', String c rest => (128 <=? utf8.byte c) && highPrefix k' rest
  | _, _ => true
  end.

(** A piece of literal text that stands for the bytes [out]. *)
Definition uchunk (p out : string) : Prop :=
  forall rest : string,
    json.unquoteFrom 0 0 (p ++ rest) = append out <$> json.unquoteFrom 0 0 rest.

(** [s] without its first [d] bytes. *)
Fixpoint dropStr (d : nat) (s : string) : string :=
  match d, s with
  | S d', String _ rest => dropStr d' rest
  | _, _ => s
  end.

(** What ends a number: the end of the text, or a byte that is no digit,
    period or exponent mark. *)
Definition delimited (rest : string) : bool :=
  match rest with
  | EmptyString => true
  | String c _ =>
      negb (json.isDigit c) && negb (utf8.byte c =? 46)
      && negb (utf8.byte c =? 101) && negb (utf8.byte c =? 69)
  end.

(** The compact text of a tree. *)
Fixpoint print (v : json.Value) : string :=
  match v with
  | json.JNull => "null"
  | json.JBool b => if b then "true" else "false"
  | json.JNumber lit => lit
  | json.JString raw => String dquote (raw ++ String dquote "")
  | json.JArray l => "[" ++ json.join "," (map print l) ++ "]"
  | json.JObject m =>
      "{" ++ json.join ","
               (map (fun kx => String dquote (kx.1 ++ String dquote ":") ++ print kx.2) m)
      ++ "}"
  end.

(** Text that is the inside of a string literal. *)
Definition literalText (raw : string) : Prop :=
  forall rest : string,
    json.scanString json.InString (raw ++ String dquote rest) = Some (raw, rest).

(** Text that is a number literal. *)
Definition numberText (lit : string) : Prop :=
  forall rest : string,
    delimited rest = true -> json.scanNumber (lit ++ rest) = Some (lit, rest).

(** Trees whose literals are literals. *)
#[warnings="-register-all"] Inductive wellFormed : json.Value -> Prop :=
| wf_null : wellFormed json.JNull
| wf_bool (b : bool) : wellFormed (json.JBool b)
| wf_number (lit : string) : numberText lit -> wellFormed (json.JNumber lit)
| wf_string (raw : string) : literalText raw -> wellFormed (json.JString raw)
| wf_array (l : list json.Value) : Forall wellFormed l -> wellFormed (json.JArray l)
| wf_object (m : list (string * json.Value)) :
    Forall (fun kx => literalText kx.1 /\ wellFormed kx.2) m ->
    wellFormed (json.JObject m).

(** The fuel [parseValue] needs. *)
Fixpoint weight (v : json.Value) : nat :=
  match v with
  | json.JArray l => S (list_sum (map (fun x => S (weight x)) l))
  | json.JObject m => S (list_sum (map (fun kx => S (weight kx.2)) m))
  | _ => 1
  end.

(** The first byte of the text of a tree: no white space, and no closing
    bracket or brace. *)
Definition opens (s : string) : Prop :=
  exists c s', s = String c s' /\ json.isSpace c = false
               /\ utf8.byte c <> 93 /\ utf8.byte c <> 125.

(** Text a string literal holds as it stands: no control character, no
    quote, no backslash. *)
Fixpoint plain (s : string) : bool :=
  match s with
  | EmptyString => true
  | String c rest =>
      (32 <=? utf8.byte c) && negb (utf8.byte c =? 34) && negb (utf8.byte c =? 92)
      && plain rest
  end.

(** ** Values and claims that come back from their encoding *)

(** A value [encoding/json] encodes and decodes to itself: no channel,
    numbers of magnitude at most [2^53], strings and keys in well-formed
    UTF-8, the keys of each map in ascending order. *)
Fixpoint restorable (v : any) : bool :=
  match v with
  | Nil | Bool _ => true
  | Float64 n => (- 2 ^ 53 <=? n) && (n <=? 2 ^ 53)
  | Str s => utf8.ValidString s
  | Slice l => forallb restorable l
  | Map m =>
      json.ascending (map fst m)
      && forallb (fun kx => utf8.ValidString kx.1 && restorable kx.2) m
  | Chan => false
  end.

(** The tree the encoding of a value is the text of. *)
Fixpoint anyValue (v : any) : json.Value :=
  match v with
  | Nil => json.JNull
  | Bool b => json.JBool b
  | Float64 n => json.JNumber (json.formatInt n)
  | Str s => json.JString (json.quote s)
  | Slice l => json.JArray (map anyValue l)
  | Map m => json.JObject (map (fun kx => (json.quote kx.1, anyValue kx.2)) m)
  | Chan => json.JNull
  end.

(** Claims that [json.Marshal] encodes and [json.Unmarshal] decodes to
    themselves. *)
Definition restorableClaims (c : token.Claims) : bool :=
  utf8.ValidString (token.Subject c) && utf8.ValidString (token.Issuer c)
  && utf8.ValidString (token.Audience c) && utf8.ValidString (token.TokenID c)
  && forallb utf8.ValidString (token.Roles c)
  && yearOK (token.ExpiresAt c) && yearOK (token.IssuedAt c)
  && yearOK (token.NotBefore c)
  && restorable (Map (token.Metadata c)).

(** The members of the object [json.Marshal] writes for a [Claims]. *)
Definition claimsMembers (c : token.Claims) : list (string * json.Value) :=
  ([("sub", json.JString (json.quote (token.Subject c)));
    ("iss", json.JString (json.quote (token.Issuer c)))]
   ++ (if String.eqb (token.Audience c) "" then []
       else [("aud", json.JString (json.quote (token.Audience c)))])
   ++ [("exp", json.JString (time.Format (token.ExpiresAt c)));
       ("iat", json.JString (time.Format (token.IssuedAt c)));
       ("nbf", json.JString (time.Format (token.NotBefore c)))]
   ++ (if String.eqb (token.TokenID c) "" then []
       else [("jti", json.JString (json.quote (token.TokenID c)))])
   ++ match token.Roles c with
      | [] => []
      | roles => [("roles", json.JArray (map (fun r => json.JString (json.quote r)) roles))]
      end
   ++ match token.Metadata c with
      | [] => []
      | m => [("metadata", anyValue (Map m))]
      end)%list.

(** ** Session store: creation *)

(** The session [Create] builds. *)
Definition created (s : sessionsvc.Service) (now nowID : time.Time)
    (userID serviceID : string) (data : gmap string any) (ttl : time.Duration)
    : session.Session :=
  {| session.ID := sessionsvc.generateSessionID nowID;
     session.UserID := userID;
     session.ServiceID := serviceID;
     session.Data := data;
     session.CreatedAt := now;
     session.ExpiresAt := now + (if ttl =? 0 then sessionsvc.defaultTTL s else ttl);
     session.UpdatedAt := now |}.

(** No entry of the table holds the address [p]. *)
Definition unreferenced (p : loc) (st : memory_session.store) : Prop :=
  forall id q, memory_session.sessions st !! id = Some q -> q <> p.

(** ** Registry: registration and probes *)

(** A service as [Register] stamps it. *)
Definition registered (now : time.Time) (svc : service.Service) : service.Service :=
  service.set_Status service.StatusHealthy
    (service.set_LastHeartbeat now (service.set_RegisteredAt now svc)).

(** A probe that did not come back with the status 200. *)
Definition failed (outcome : registry.probe) : Prop :=
  match outcome with
  | registry.RequestError => False
  | registry.TransportError => True
  | registry.Response code => code <> registry.StatusOK
  end.

(** The listed services that have a health-check URL, in order. *)
Definition probed (h : objects service.Service) (l : list loc) : list loc :=
  List.filter (fun p => negb (String.eqb (service.HealthCheckURL (h p)) "")) l.

(** ** Token strings *)

(** How often the byte [sep] occurs in [s]. *)
Fixpoint countByte (s : string) (sep : ascii) : nat :=
  match s with
  | EmptyString => O
  | String c rest => ((if Ascii.eqb c sep then 1 else 0) + countByte rest sep)%nat
  end.

(** ** Logger *)

(** The rank of a level, from [debug] to [error]. *)
Definition severity (lv : Level) : Z :=
  match lv with
  | LevelDebug => 0
  | LevelInfo => 1
  | LevelWarn => 2
  | LevelError => 3
  end.

(** The method of the logger for a level. *)
Definition method (lv : Level) : logger.logger -> string -> M (list entry) unit :=
  match lv with
  | LevelDebug => logger.Debug
  | LevelInfo => logger.Info
  | LevelWarn => logger.Warn
  | LevelError => logger.Error
  end.

(** ** Configuration repository *)

(** No service is kept without a version. *)
Definition wellKept (st : memory_config.store) : Prop :=
  forall serviceID versions,
    memory_config.configs st !! serviceID = Some versions -> versions <> ∅.

(** ** Scenarios *)

(** A healthy service without a health-check URL, its last heartbeat at
    the epoch. *)
Definition svc1 : service.Service :=
  {| service.ID := "svc-1"; service.Name := "payments"; service.Version := "1.0";
     service.Endpoints := ["http://10.0.0.1:8080"];
     service.Capabilities := ["payment"]; service.Metadata := ∅;
     service.Status := service.StatusHealthy;
     service.RegisteredAt := 0; service.LastHeartbeat := 0;
     service.HealthCheckURL := "" |}.

(** A registry holding [svc1] (at address 1) under its identifier. *)
Definition registry0 : memory_registry.store :=
  {| memory_registry.objs := fun _ => svc1;
     memory_registry.services := {[ "svc-1" := 1%positive ]};
     memory_registry.updates := [];
     memory_registry.logs := [] |}.

(** A monitor interval of 30 seconds. *)
Definition monitor30 : registry.Service :=
  {| registry.healthCheckInterval := 30 * 1000000000;
     registry.healthCheckTimeout := 5 * 1000000000 |}.

(** An authority with an access lifetime of fifteen minutes. *)
Definition config0 : jwt.Config :=
  {| jwt.Secret := "test-secret";
     jwt.AccessTokenTTL := 15 * 60 * 1000000000;
     jwt.RefreshTokenTTL := 24 * 3600 * 1000000000;
     jwt.Issuer := "root-server" |}.

Definition authority0 : jwt.jwtService := {| jwt.config := config0 |}.

(** 2026-10-30 20:31:00 UTC. *)
Definition now0 : time.Time := 1793392260 * 1000000000.

Definition minute : time.Duration := 60 * 1000000000.

(** A session that expires an hour after the epoch. *)
Definition session1 : session.Session :=
  {| session.ID := "sess-1"; session.UserID := "user-1";
     session.ServiceID := "svc-1"; session.Data := {[ "theme" := Str "dark" ]};
     session.CreatedAt := 0; session.ExpiresAt := 60 * minute;
     session.UpdatedAt := 0 |}.

(** A store holding [session1] (at address 1) under its identifier. *)
Definition sessions0 : memory_session.store :=
  {| memory_session.objs := fun _ => session1;
     memory_session.sessions := {[ "sess-1" := 1%positive ]};
     memory_session.logs := [] |}.

(** Claims for the subject of the tests, not valid before an hour from
    [now0]. *)
Definition claims0 : token.Claims :=
  {| token.Subject := "user-123"; token.Issuer := ""; token.Audience := "";
     token.ExpiresAt := time.zero; token.IssuedAt := time.zero;
     token.NotBefore := now0 + 60 * minute; token.TokenID := "";
     token.Roles := ["admin"]; token.Metadata := [] |}.

(** The three segments of the token [Generate] issues for [claims0] at
    [now0], and the token. *)
Definition header0 : string := "eyJhbGciOiJIUzI1NiIsInR5cCI6IkpXVCJ9".

Definition payload0 : string :=
  "eyJzdWIiOiJ1c2VyLTEyMyIsImlzcyI6InJvb3Qtc2VydmVyIiwiZXhwIjoiMjAyNi0xMC0zMFQyMDo0NjowMFoiLCJpYXQiOiIyMDI2LTEwLTMwVDIwOjMxOjAwWiIsIm5iZiI6IjIwMjYtMTAtMzBUMjE6MzE6MDBaIiwicm9sZXMiOlsiYWRtaW4iXX0".

Definition signature0 : string := "nbpnzB8s9ZzqCmo3ms418kGPuLaRqifP-b-qHHq7oT8".

Definition token0 : string := ((header0 ++ "." ++ payload0) ++ "." ++ signature0)%string.

(** [token0] with another signature segment. *)
Definition forged0 : string := ((header0 ++ "." ++ payload0) ++ "." ++ "AAAA")%string.

(** Claims whose metadata holds a channel. *)
Definition claimsChan : token.Claims :=
  token.setMetadata [("conn", Chan)] claims0.

(** Claims whose subject is the single byte [0xFF], which is not UTF-8. *)
Definition claimsFF : token.Claims :=
  {| token.Subject := String (utf8.char 255) ""; token.Issuer := "";
     token.Audience := ""; token.ExpiresAt := time.zero;
     token.IssuedAt := time.zero; token.NotBefore := time.zero;
     token.TokenID := ""; token.Roles := []; token.Metadata := [] |}.

(** The replacement character U+FFFD in UTF-8. *)
Definition replacement : string :=
  String (utf8.char 239) (String (utf8.char 191) (String (utf8.char 189) "")).

(** A session service with a default lifetime of an hour. *)
Definition sessions60 : sessionsvc.Service :=
  {| sessionsvc.defaultTTL := 60 * minute; sessionsvc.cleanupPeriod := 5 * minute |}.

(** A store holding [session1] under the identifier of a session created
    at [now0]. *)
Definition sessionsAt0 : memory_session.store :=
  {| memory_session.objs := fun _ => session1;
     memory_session.sessions := {[ sessionsvc.generateSessionID now0 := 1%positive ]};
     memory_session.logs := [] |}.

(** The auth service over [authority0]. *)
Definition auth0 : auth.Service := {| auth.jwtService := authority0 |}.

(** The token [Generate] issues for [claims0] at [now0]. *)
Definition issued0 : token.Token :=
  {| token.Value := token0; token.TokenType := token.TypeAccess;
     token.TokenExpiresAt := now0 + 15 * minute;
     token.TokenIssuedAt := now0; token.TokenClaims := [] |}.

(** A repository holding one configuration (at address 1) of one service. *)
Definition configs0 : memory_config.store :=
  {| memory_config.configs := {[ "svc-1" := {[ "v1" := 1%positive ]} ]} |}.

(** ** The claims as worded *)

(** C1 as worded: for claims with a subject and with metadata that can be
    serialized, [Validate] on the token [Generate] returned gives the
    claims back, equal but for the stamped fields.  [now] and [now'] are
    the clock readings of the two calls. *)
Definition C1_as_stated (s : jwt.jwtService) (now now' : time.Time)
    (claims : token.Claims) : Prop :=
  token.Subject claims <> "" ->
  isOk (json.encodeMap (token.Metadata claims)) = true ->
  forall tok, jwt.Generate s now claims = Ok tok ->
    exists claims', jwt.Validate s now' (token.Value tok) = Ok claims'
                    /\ sameUnstamped claims claims'.

(** C2 as worded: a token whose expires-at is in the past is answered
    with "token expired". *)
Definition C2_as_stated (s : jwt.jwtService) (now : time.Time)
    (tokenString : string) : Prop :=
  forall claims, claimsOf tokenString = Some claims ->
    token.ExpiresAt claims < now ->
    jwt.Validate s now tokenString = Err (Errorf "token expired").

(** C3 as worded: any change of one byte of the signature segment of a
    generated token is answered with "invalid signature". *)
Definition C3_as_stated (s : jwt.jwtService) (now now' : time.Time)
    (claims : token.Claims) : Prop :=
  forall tok, jwt.Generate s now claims = Ok tok ->
    forall h c sig, strings.Split (token.Value tok) "." = [h; c; sig] ->
      forall (i : nat) (c' : ascii),
        (i < String.length sig)%nat ->
        String.get i sig <> Some c' ->
        jwt.Validate s now' ((h ++ "." ++ c) ++ "." ++ setByte i c' sig)
        = Err (Errorf "invalid signature").

(** C6 as the specification words it, for a sweep that reads the clock as
    [now] throughout: strictly older than [now - 2 * interval] means marked
    and written, anything else means untouched and not written. *)
Definition C6_as_stated (s : registry.Service) (now : time.Time)
    (st : memory_registry.store) : Prop :=
  let r := registry.performHealthChecks s (fun _ => now) st in
  forall svc : loc,
    svc ∈ map snd (map_to_list (memory_registry.services st)) ->
    service.HealthCheckURL (memory_registry.objs st svc) = "" ->
    (service.LastHeartbeat (memory_registry.objs st svc)
       < now - 2 * registry.healthCheckInterval s ->
     service.Status (memory_registry.objs r.2 svc) = service.StatusUnhealthy
     /\ svc ∈ memory_registry.updates r.2)
    /\ (~ service.LastHeartbeat (memory_registry.objs st svc)
            < now - 2 * registry.healthCheckInterval s ->
        memory_registry.objs r.2 svc = memory_registry.objs st svc
        /\ memory_registry.updates r.2 = memory_registry.updates st).

(** C8 as worded: on a constructed authority [Generate] succeeds, for
    all claims. *)
Definition C8_as_stated (cfg : jwt.Config) (now : time.Time)
    (claims : token.Claims) : Prop :=
  forall s, jwt.NewService cfg = Ok s -> isOk (jwt.Generate s now claims) = true.

(* ================================================================== *)
(** * Part III. Properties                                              *)
(* ================================================================== *)

(** ** The state monad *)

Lemma bind_run {S A B} (m : M S A) (k : A -> M S B) (s : S) :
  bind m k s = k (m s).1 (m s).2.
Proof. unfold bind. destruct (m s); reflexivity. Qed.

Lemma poke_eq {T} (h : objects T) p v : poke h p v p = v.
Proof. unfold poke. rewrite Pos.eqb_refl. reflexivity. Qed.

Lemma poke_ne {T} (h : objects T) p q v : q <> p -> poke h p v q = h q.
Proof. unfold poke. intros Hne. apply Pos.eqb_neq in Hne. rewrite Hne. reflexivity. Qed.

(** ** Session store *)
Section SessionStore.
Import memory_session.

(** The loop of [DeleteExpired], started from any table [m0] and count
    [c0]: it deletes from [m0] the keys of the expired entries of the table
    it ranges over, and adds their number to the count. *)
Lemma DeleteExpired_loop h now (m0 : gmap string loc) (c0 : Z) (m : gmap string loc) :
  map_fold
    (fun id sess '(m, count) =>
       if time.Before (session.ExpiresAt (h sess)) now
       then (delete id m, count + 1) else (m, count))
    (m0, c0) m
  = (m0 ∖ expired_entries h now m,
     c0 + Z.of_nat (size (expired_entries h now m))).
Proof.
  unfold expired_entries.
  apply (map_fold_weak_ind
    (fun (r : gmap string loc * Z) (m : gmap string loc) =>
       r = (m0 ∖ filter (fun kv => session.ExpiresAt (h kv.2) < now) m,
            c0 + Z.of_nat (size (filter (fun kv : string * loc => session.ExpiresAt (h kv.2) < now) m))))).
  - rewrite map_filter_empty, map_size_empty, map_difference_empty. f_equal. lia.
  - intros i x m' r Hi ->. unfold time.Before.
    destruct (Z.ltb_spec (session.ExpiresAt (h x)) now) as [Hlt|Hge].
    + rewrite map_filter_insert_True by exact Hlt.
      rewrite map_size_insert_None by (apply map_lookup_filter_None; left; exact Hi).
      f_equal; [|lia].
      apply map_eq. intros j. destruct (decide (i = j)) as [->|Hne].
      * rewrite lookup_delete_eq. symmetry. apply lookup_difference_None.
        right. rewrite lookup_insert_eq. eauto.
      * rewrite lookup_delete_ne by exact Hne.
        rewrite !lookup_difference, lookup_insert_ne by exact Hne. reflexivity.
    + rewrite map_filter_insert_False by (simpl; lia).
      rewrite delete_id by exact Hi. reflexivity.
Qed.

Lemma difference_expired_live h now (m : gmap string loc) :
  m ∖ expired_entries h now m = live_entries h now m.
Proof.
  apply map_eq. intros j. unfold expired_entries, live_entries.
  rewrite lookup_difference.
  destruct (m !! j) as [p|] eqn:Hj.
  - destruct (decide (session.ExpiresAt (h p) < now)) as [Hlt|Hge].
    + rewrite (map_lookup_filter_Some_2 _ m j p Hj Hlt).
      symmetry. apply map_lookup_filter_None. right. intros x Hx.
      simpl. rewrite Hj in Hx. inversion Hx; subst. intros Hn. exact (Hn Hlt).
    + assert (Hnone : filter (fun kv : string * loc => session.ExpiresAt (h kv.2) < now) m !! j = None).
      { apply map_lookup_filter_None. right. intros x Hx. rewrite Hj in Hx.
        inversion Hx; subst. exact Hge. }
      rewrite Hnone. symmetry. apply map_lookup_filter_Some_2; assumption.
  - assert (Hnone : filter (fun kv : string * loc => session.ExpiresAt (h kv.2) < now) m !! j = None).
    { apply map_lookup_filter_None. left. exact Hj. }
    rewrite Hnone. symmetry. apply map_lookup_filter_None. left. exact Hj.
Qed.

Lemma DeleteExpired_run now st :
  DeleteExpired now st
  = ((Z.of_nat (size (expired_entries (objs st) now (sessions st))), None),
     with_sessions (live_entries (objs st) now (sessions st)) st).
Proof.
  unfold DeleteExpired. rewrite DeleteExpired_loop.
  rewrite difference_expired_live. reflexivity.
Qed.

(** C5. One execution of the cleanup sweep ([DeleteExpired], and the ticker
    branch of [StartCleanup] that calls it) removes exactly the sessions
    whose expires-at is strictly before the sweep time and returns their
    count; every other entry is still in the table, pointing at the same,
    unmodified session object. *)
Theorem C5_cleanup_sweep_exact (now : time.Time) (st : store) :
  let gone := expired_entries (objs st) now (sessions st) in
  let r := DeleteExpired now st in
  r.1 = (Z.of_nat (size gone), None)
  /\ (forall id sess,
        sessions r.2 !! id = Some sess <->
        sessions st !! id = Some sess /\ ~ session.ExpiresAt (objs st sess) < now)
  /\ (forall id sess,
        gone !! id = Some sess <->
        sessions st !! id = Some sess /\ session.ExpiresAt (objs st sess) < now)
  /\ (size (sessions r.2) + size gone = size (sessions st))%nat
  /\ objs r.2 = objs st
  /\ (sessionsvc.cleanup_tick now st).1 = r.1
  /\ sessions (sessionsvc.cleanup_tick now st).2 = sessions r.2
  /\ objs (sessionsvc.cleanup_tick now st).2 = objs r.2.
Proof.
  cbv zeta. rewrite DeleteExpired_run. cbn [fst snd sessions objs with_sessions].
  split; [reflexivity|].
  split; [intros id sess; unfold live_entries; rewrite map_lookup_filter_Some; reflexivity|].
  split; [intros id sess; unfold expired_entries; rewrite map_lookup_filter_Some; reflexivity|].
  split.
  { pose proof (map_size_disj_union _ _
                  (map_disjoint_filter_complement
                     (fun kv : string * loc => session.ExpiresAt (objs st kv.2) < now)
                     (sessions st))) as Hsz.
    rewrite map_filter_union_complement in Hsz.
    unfold live_entries, expired_entries. lia. }
  split; [reflexivity|].
  unfold sessionsvc.cleanup_tick. rewrite bind_run, DeleteExpired_run.
  cbn [fst snd].
  destruct (0 <? Z.of_nat (size (expired_entries (objs st) now (sessions st)))); auto.
Qed.

(** [Get] on an identifier the table does not hold: the not-found error. *)
Lemma Get_not_found (now : time.Time) (id : string) (st : store) :
  sessions st !! id = None ->
  sessionsvc.Get now id st
  = (Err (Errorf_w "get session" (Errorf "session not found")), st).
Proof.
  intros Hid. unfold sessionsvc.Get. rewrite bind_run. unfold Get.
  rewrite Hid. reflexivity.
Qed.

(** [Get] on a stored session that has not expired returns its address. *)
Lemma Get_live (now : time.Time) (id : string) (st : store) (sess : loc) :
  sessions st !! id = Some sess ->
  ~ session.ExpiresAt (objs st sess) < now ->
  sessionsvc.Get now id st = (Ok sess, st).
Proof.
  intros Hid Hlive. unfold sessionsvc.Get. rewrite bind_run. unfold Get.
  rewrite Hid. cbn [fst snd]. rewrite bind_run. unfold gets. cbn [fst snd].
  unfold session.IsExpired, time.After.
  destruct (Z.ltb_spec (session.ExpiresAt (objs st sess)) now); [lia|reflexivity].
Qed.

(** C7. [Get] on an identifier whose record is stored but whose expires-at
    is in the past returns the error "session expired", which is not the
    error returned for an unknown identifier; the table and every session
    object are as they were (only a warning is logged). *)
Theorem C7_Get_expired_is_distinct_and_readonly
    (now : time.Time) (id : string) (st : store) (sess : loc) :
  sessions st !! id = Some sess ->
  session.ExpiresAt (objs st sess) < now ->
  let r := sessionsvc.Get now id st in
  r.1 = Err (Errorf "session expired")
  /\ (forall st0, sessions st0 !! id = None ->
        (sessionsvc.Get now id st0).1 <> r.1)
  /\ sessions r.2 = sessions st
  /\ objs r.2 = objs st
  /\ sessions r.2 !! id = Some sess.
Proof.
  intros Hid Hexp. cbv zeta.
  assert (Hrun : sessionsvc.Get now id st
                 = (Err (Errorf "session expired"),
                    with_log (LevelWarn, "attempted to access expired session") st)).
  { unfold sessionsvc.Get. rewrite bind_run. unfold Get. rewrite Hid.
    cbn [fst snd]. rewrite bind_run. unfold gets. cbn [fst snd].
    unfold session.IsExpired, time.After.
    destruct (Z.ltb_spec (session.ExpiresAt (objs st sess)) now); [|lia].
    reflexivity. }
  rewrite Hrun. cbn [fst snd sessions objs with_log].
  repeat split; try assumption.
  intros st0 Hnone. rewrite (Get_not_found now id st0 Hnone). cbn [fst].
  discriminate.
Qed.

(** What [Update] does once [Get] has returned the session at [sess]. *)
Lemma Update_run (now now' : time.Time) (id : string) (data : gmap string any)
    (st : store) (sess : loc) :
  sessions st !! id = Some sess ->
  ~ session.ExpiresAt (objs st sess) < now ->
  let s' := session.Touch now' (session.set_Data data (objs st sess)) in
  let st1 := with_obj sess s' (with_obj sess (session.set_Data data (objs st sess)) st) in
  sessionsvc.Update now now' id data st
  = match sessions st !! session.ID (objs st sess) with
    | None =>
        (Some (Errorf_w "update session" (Errorf "session not found")),
         with_log (LevelError, "failed to update session") st1)
    | Some _ =>
        (None, with_sessions (<[session.ID (objs st sess) := sess]> (sessions st)) st1)
    end.
Proof.
  intros Hid Hlive. cbv zeta. unfold sessionsvc.Update.
  rewrite bind_run, (Get_live now id st sess Hid Hlive). cbn [fst snd].
  rewrite !bind_run. unfold modify. cbn [fst snd].
  unfold Update. cbn [objs with_obj sessions].
  rewrite !poke_eq. cbn [session.ID session.Touch session.set_Data].
  destruct (sessions st !! session.ID (objs st sess)); reflexivity.
Qed.

(** C9. A successful [Update] of an unexpired session replaces the data
    payload by [data] as a whole and sets updated-at to the clock reading
    of [Touch]; the identifier, user id, service id, created-at and
    expires-at of the session are as before, and so is every other session
    object. *)
Theorem C9_Update_frame (now now' : time.Time) (id : string)
    (data : gmap string any) (st st' : store) (sess : loc) :
  sessions st !! id = Some sess ->
  ~ session.ExpiresAt (objs st sess) < now ->
  sessionsvc.Update now now' id data st = (None, st') ->
  let s := objs st sess in
  let s' := objs st' sess in
  session.Data s' = data
  /\ session.UpdatedAt s' = now'
  /\ session.ID s' = session.ID s
  /\ session.UserID s' = session.UserID s
  /\ session.ServiceID s' = session.ServiceID s
  /\ session.CreatedAt s' = session.CreatedAt s
  /\ session.ExpiresAt s' = session.ExpiresAt s
  /\ (forall q, q <> sess -> objs st' q = objs st q)
  /\ sessions st' = <[session.ID s := sess]> (sessions st).
Proof.
  intros Hid Hlive Hrun. cbv zeta.
  rewrite (Update_run now now' id data st sess Hid Hlive) in Hrun.
  destruct (sessions st !! session.ID (objs st sess)); [|discriminate].
  inversion Hrun; subst st'; clear Hrun.
  cbn [objs sessions with_sessions with_obj].
  rewrite poke_eq. cbn.
  repeat split.
  intros q Hq. rewrite !poke_ne by exact Hq. reflexivity.
Qed.

(** [Update] of an unexpired session stored under its own identifier
    succeeds and leaves the table as it was. *)
Lemma Update_succeeds (now now' : time.Time) (id : string)
    (data : gmap string any) (st : store) (sess : loc) :
  sessions st !! id = Some sess ->
  session.ID (objs st sess) = id ->
  ~ session.ExpiresAt (objs st sess) < now ->
  exists st', sessionsvc.Update now now' id data st = (None, st')
              /\ sessions st' = sessions st.
Proof.
  intros Hid Hself Hlive.
  rewrite (Update_run now now' id data st sess Hid Hlive), Hself, Hid.
  eexists. split; [reflexivity|].
  cbn [sessions with_sessions]. apply insert_id. exact Hid.
Qed.

End SessionStore.

(** ** Registry: discovery *)
Section Discovery.
Import memory_registry.

Lemma has_elem_of (capability : string) (caps : list string) :
  registry.has capability caps = true <-> capability ∈ caps.
Proof.
  induction caps as [|cap rest IH]; simpl.
  - split; [discriminate|]. intros H. inversion H.
  - destruct (String.eqb_spec cap capability) as [->|Hne].
    + split; [intros _; left|reflexivity].
    + rewrite IH. split; [intros H; right; exact H|].
      intros H. inversion H; subst; [congruence|assumption].
Qed.

Lemma hasCapability_spec (svc : service.Service) (capability : string) :
  registry.hasCapability svc capability = true
  <-> capability = "" \/ capability ∈ service.Capabilities svc.
Proof.
  unfold registry.hasCapability.
  destruct (String.eqb_spec capability "") as [->|Hne].
  - split; [intros _; left; reflexivity|reflexivity].
  - rewrite has_elem_of. split; [intros H; right; exact H|].
    intros [H|H]; [congruence|exact H].
Qed.

Lemma discover_test_spec h capability svc :
  String.eqb (service.Status (h svc)) service.StatusHealthy
    && registry.hasCapability (h svc) capability = true
  <-> discoverable h capability svc.
Proof.
  unfold discoverable.
  rewrite andb_true_iff, hasCapability_spec, String.eqb_eq. reflexivity.
Qed.

Lemma discoverLoop_filter h capability (services matched : list loc) :
  registry.discoverLoop h capability services matched
  = (matched ++ filter (discoverable h capability) services)%list.
Proof.
  revert matched. induction services as [|svc rest IH]; intros matched; simpl.
  - rewrite app_nil_r. reflexivity.
  - destruct (String.eqb (service.Status (h svc)) service.StatusHealthy
              && registry.hasCapability (h svc) capability) eqn:Htest.
    + apply discover_test_spec in Htest.
      rewrite IH, filter_cons_True by exact Htest.
      rewrite <- app_assoc. reflexivity.
    + assert (Hno : ~ discoverable h capability svc).
      { intros Hd. apply discover_test_spec in Hd. congruence. }
      rewrite IH, filter_cons_False by exact Hno. reflexivity.
Qed.

Lemma Discover_run (capability : string) (st : store) :
  registry.Discover capability st
  = (Ok (filter (discoverable (objs st) capability)
           (map snd (map_to_list (services st)))), st).
Proof.
  unfold registry.Discover, registry.List, List, bind, ret, gets.
  rewrite discoverLoop_filter. reflexivity.
Qed.

Lemma listed_registered (st : store) (svc : loc) :
  svc ∈ map snd (map_to_list (services st))
  <-> exists id, services st !! id = Some svc.
Proof.
  rewrite list_elem_of_In, in_map_iff. split.
  - intros [[id p] [Heq Hin]]. simpl in Heq. subst p. exists id.
    apply elem_of_map_to_list. apply list_elem_of_In. exact Hin.
  - intros [id Hid]. exists (id, svc). split; [reflexivity|].
    apply list_elem_of_In. apply elem_of_map_to_list. exact Hid.
Qed.

(** C4. [Discover(c)] returns exactly the registered records whose status
    is healthy and for which [c] is empty or among their capabilities, each
    as often as the table lists it; with [c] empty these are all healthy
    records; a record whose status is unknown or unhealthy is not
    returned. *)
Theorem C4_Discover_exact (capability : string) (st : store) :
  exists matched : list loc,
    registry.Discover capability st = (Ok matched, st)
    /\ matched = filter (discoverable (objs st) capability)
                   (map snd (map_to_list (services st)))
    /\ (forall svc,
          svc ∈ matched <->
          (exists id, services st !! id = Some svc)
          /\ service.Status (objs st svc) = service.StatusHealthy
          /\ (capability = "" \/ capability ∈ service.Capabilities (objs st svc)))
    /\ (capability = "" ->
        forall svc,
          svc ∈ matched <->
          (exists id, services st !! id = Some svc)
          /\ service.Status (objs st svc) = service.StatusHealthy)
    /\ (forall svc,
          svc ∈ matched ->
          service.Status (objs st svc) <> service.StatusUnknown
          /\ service.Status (objs st svc) <> service.StatusUnhealthy).
Proof.
  eexists. split; [apply Discover_run|]. split; [reflexivity|].
  assert (Hmem : forall svc,
    svc ∈ filter (discoverable (objs st) capability)
            (map snd (map_to_list (services st))) <->
    (exists id, services st !! id = Some svc)
    /\ service.Status (objs st svc) = service.StatusHealthy
    /\ (capability = "" \/ capability ∈ service.Capabilities (objs st svc))).
  { intros svc. rewrite list_elem_of_filter, listed_registered.
    unfold discoverable. tauto. }
  split; [exact Hmem|]. split.
  - intros -> svc. rewrite Hmem. intuition.
  - intros svc Hin. apply Hmem in Hin. destruct Hin as (_ & Hst & _).
    rewrite Hst. split; discriminate.
Qed.

End Discovery.

(** ** Registry: the health-monitor sweep *)
Section HealthMonitor.
Import memory_registry.

Variable s : registry.Service.
Variable clock : nat -> time.Time.

Lemma IsHealthy_false now svc :
  service.IsHealthy now (heartbeatTimeout s) svc = false <-> stale s now svc.
Proof.
  unfold service.IsHealthy, stale.
  destruct (String.eqb_spec (service.Status svc) service.StatusUnhealthy) as [He|Hne].
  - split; [intros _; left; exact He|reflexivity].
  - rewrite Z.ltb_ge. split; [intros H; right; exact H|].
    intros [H|H]; [contradiction|exact H].
Qed.

Lemma IsHealthy_true now svc :
  service.IsHealthy now (heartbeatTimeout s) svc = true <-> ~ stale s now svc.
Proof.
  rewrite <- IsHealthy_false. destruct (service.IsHealthy _ _ _); split; congruence.
Qed.

Lemma stale_MarkUnhealthy now svc : stale s now (service.MarkUnhealthy svc).
Proof. left. reflexivity. Qed.

Lemma MarkUnhealthy_idem svc :
  service.MarkUnhealthy (service.MarkUnhealthy svc) = service.MarkUnhealthy svc.
Proof. reflexivity. Qed.

Lemma heartbeatCheck_fresh now svc st :
  ~ stale s now (objs st svc) ->
  registry.heartbeatCheck s now svc st = (tt, st).
Proof.
  intros Hf. apply IsHealthy_true in Hf.
  unfold registry.heartbeatCheck, bind, gets. fold (heartbeatTimeout s).
  rewrite Hf. reflexivity.
Qed.

Lemma heartbeatCheck_stale now svc st :
  stale s now (objs st svc) ->
  exists st1,
    registry.heartbeatCheck s now svc st = (tt, st1)
    /\ objs st1 = poke (objs st) svc (service.MarkUnhealthy (objs st svc))
    /\ updates st1 = svc :: updates st
    /\ (forall id, is_Some (services st1 !! id) <-> is_Some (services st !! id)).
Proof.
  intros Hs. apply IsHealthy_false in Hs.
  unfold registry.heartbeatCheck, bind, gets. fold (heartbeatTimeout s).
  rewrite Hs. cbn [negb].
  unfold registry.through, modify, Update, registry.log.
  cbn [objs services with_obj with_update].
  destruct (services st !! service.ID (poke (objs st) svc (service.MarkUnhealthy (objs st svc)) svc))
    as [q|] eqn:Hq.
  - eexists. split; [reflexivity|]. cbn. repeat split; try reflexivity.
    + intros Hi. destruct (decide (service.ID (poke (objs st) svc (service.MarkUnhealthy (objs st svc)) svc) = id)) as [<-|Hne].
      * eauto.
      * rewrite lookup_insert_ne in Hi by exact Hne. exact Hi.
    + intros Hi. destruct (decide (service.ID (poke (objs st) svc (service.MarkUnhealthy (objs st svc)) svc) = id)) as [<-|Hne].
      * rewrite lookup_insert_eq. eauto.
      * rewrite lookup_insert_ne by exact Hne. exact Hi.
  - eexists. split; [reflexivity|]. cbn. repeat split; auto.
Qed.

Lemma healthCheckLoop_cons_probe i0 q rest st :
  service.HealthCheckURL (objs st q) <> "" ->
  registry.healthCheckLoop s clock i0 (q :: rest) st
  = (q :: (registry.healthCheckLoop s clock (S i0) rest st).1,
     (registry.healthCheckLoop s clock (S i0) rest st).2).
Proof.
  intros Hurl. cbn [registry.healthCheckLoop]. unfold bind at 1, gets at 1.
  destruct (String.eqb_spec (service.HealthCheckURL (objs st q)) ""); [contradiction|].
  rewrite bind_run. reflexivity.
Qed.

Lemma healthCheckLoop_cons_heartbeat i0 q rest st :
  service.HealthCheckURL (objs st q) = "" ->
  registry.healthCheckLoop s clock i0 (q :: rest) st
  = registry.healthCheckLoop s clock (S i0) rest
      (registry.heartbeatCheck s (clock i0) q st).2.
Proof.
  intros Hurl. cbn [registry.healthCheckLoop]. unfold bind at 1, gets at 1.
  rewrite Hurl. cbn [String.eqb]. rewrite bind_run. reflexivity.
Qed.

(** What the loop of the sweep does to the objects and to the journal. *)
Lemma healthCheckLoop_spec (l : list loc) :
  forall (i0 : nat) (st : store),
    let r := registry.healthCheckLoop s clock i0 l st in
    (forall p, objs r.2 p = objs st p
               \/ objs r.2 p = service.MarkUnhealthy (objs st p))
    /\ (forall p, marked s clock (objs st) i0 l p ->
                  objs r.2 p = service.MarkUnhealthy (objs st p))
    /\ (forall p, ~ marked s clock (objs st) i0 l p -> objs r.2 p = objs st p)
    /\ (exists new, updates r.2 = (new ++ updates st)%list
                    /\ forall p, p ∈ new <-> marked s clock (objs st) i0 l p)
    /\ (forall id, is_Some (services r.2 !! id) <-> is_Some (services st !! id)).
Proof.
  induction l as [|q rest IH]; intros i0 st; cbv zeta.
  - cbn [registry.healthCheckLoop ret fst snd].
    assert (Hno : forall p, ~ marked s clock (objs st) i0 [] p).
    { intros p (j & Hj & _). rewrite lookup_nil in Hj. discriminate. }
    split; [intros p; left; reflexivity|].
    split; [intros p Hm; destruct (Hno p Hm)|].
    split; [reflexivity|].
    split; [|reflexivity].
    exists []. split; [reflexivity|]. intros p. split.
    + intros Hin. inversion Hin.
    + intros Hm. destruct (Hno p Hm).
  - (* each later iteration sees the index shifted by one *)
    assert (Hshift : forall h p,
      marked s clock h i0 (q :: rest) p <->
      (p = q /\ service.HealthCheckURL (h q) = "" /\ stale s (clock i0) (h q))
      \/ marked s clock h (S i0) rest p).
    { intros h p. unfold marked. split.
      - intros ([|j] & Hj & Hurl & Hst).
        + simpl in Hj. inversion Hj; subst. left.
          rewrite Nat.add_0_r in Hst. auto.
        + right. exists j. simpl in Hj.
          replace (S i0 + j)%nat with (i0 + S j)%nat by lia. auto.
      - intros [(-> & Hurl & Hst)|(j & Hj & Hurl & Hst)].
        + exists 0%nat. rewrite Nat.add_0_r. auto.
        + exists (S j). replace (i0 + S j)%nat with (S i0 + j)%nat by lia. auto. }
    destruct (String.eqb_spec (service.HealthCheckURL (objs st q)) "") as [Hurl|Hurl].
    + (* heartbeat-only service *)
      rewrite (healthCheckLoop_cons_heartbeat _ _ _ _ Hurl).
      destruct (decide (service.Status (objs st q) = service.StatusUnhealthy)) as [Hun|Hun];
        [assert (Hst : stale s (clock i0) (objs st q)) by (left; exact Hun)|
         destruct (Z.le_gt_cases (heartbeatTimeout s)
                     (time.Since (clock i0) (service.LastHeartbeat (objs st q))))
           as [Hle|Hgt];
         [assert (Hst : stale s (clock i0) (objs st q)) by (right; exact Hle)|]].
      3: { (* fresh: nothing happens at this iteration *)
        assert (Hfresh : ~ stale s (clock i0) (objs st q)).
        { intros [H|H]; [contradiction|lia]. }
        rewrite (heartbeatCheck_fresh _ _ _ Hfresh). cbn [fst snd].
        destruct (IH (S i0) st) as (H1 & H2 & H3 & (new & Hnew & Hin) & H5).
        assert (Heqv : forall p, marked s clock (objs st) i0 (q :: rest) p
                                 <-> marked s clock (objs st) (S i0) rest p).
        { intros p. rewrite Hshift. split; [|auto].
          intros [(_ & _ & Hs)|Hm]; [contradiction|exact Hm]. }
        split; [exact H1|].
        split; [intros p Hm; apply H2, Heqv, Hm|].
        split; [intros p Hm; apply H3; rewrite <- Heqv; exact Hm|].
        split; [|exact H5].
        exists new. split; [exact Hnew|]. intros p. rewrite Hin, Heqv. reflexivity. }
      all: destruct (heartbeatCheck_stale _ _ _ Hst) as (st1 & Hrun & Hobjs & Hupd & Hdom);
        rewrite Hrun; cbn [fst snd];
        destruct (IH (S i0) st1) as (H1 & H2 & H3 & (new & Hnew & Hin) & H5);
        assert (Hother : forall p, p <> q -> objs st1 p = objs st p)
          by (intros p Hp; rewrite Hobjs; apply poke_ne; exact Hp);
        assert (Hq : objs st1 q = service.MarkUnhealthy (objs st q))
          by (rewrite Hobjs; apply poke_eq);
        assert (Hfinal_q : objs (registry.healthCheckLoop s clock (S i0) rest st1).2 q
                           = service.MarkUnhealthy (objs st q))
          by (destruct (H1 q) as [E|E]; rewrite E, Hq; reflexivity);
        assert (Heqv : forall p, p <> q ->
                  (marked s clock (objs st) i0 (q :: rest) p
                   <-> marked s clock (objs st1) (S i0) rest p))
          by (intros p Hp; rewrite Hshift; unfold marked; rewrite (Hother p Hp);
              split; [intros [(E & _)|Hm]; [contradiction|exact Hm]|auto]);
        assert (Hmq : marked s clock (objs st) i0 (q :: rest) q)
          by (apply Hshift; left; auto);
        (split;
         [ intros p; destruct (decide (p = q)) as [->|Hp];
           [right; exact Hfinal_q|rewrite <- (Hother p Hp); apply H1] |];
         split;
         [ intros p Hm; destruct (decide (p = q)) as [->|Hp];
           [exact Hfinal_q
           |rewrite <- (Hother p Hp); apply H2, (Heqv p Hp), Hm] |];
         split;
         [ intros p Hm; destruct (decide (p = q)) as [->|Hp];
           [contradiction
           |rewrite <- (Hother p Hp); apply H3; rewrite <- (Heqv p Hp); exact Hm] |];
         split;
         [ exists (new ++ [q])%list; split;
           [rewrite Hnew, Hupd, <- app_assoc; reflexivity|];
           intros p; rewrite elem_of_app, list_elem_of_singleton, Hin;
           destruct (decide (p = q)) as [->|Hp];
           [split; [intros _; exact Hmq|intros _; right; reflexivity]
           |rewrite <- (Heqv p Hp); split; [intros [Hm|E]; [exact Hm|contradiction]|auto]]
         | intros id; rewrite H5; apply Hdom ]).
    + (* a service with a health-check URL: only a probe is started *)
      rewrite (healthCheckLoop_cons_probe _ _ _ _ Hurl). cbn [fst snd].
      destruct (IH (S i0) st) as (H1 & H2 & H3 & (new & Hnew & Hin) & H5).
      assert (Heqv : forall p, marked s clock (objs st) i0 (q :: rest) p
                               <-> marked s clock (objs st) (S i0) rest p).
      { intros p. rewrite Hshift. split; [|auto].
        intros [(_ & Hu & _)|Hm]; [contradiction|exact Hm]. }
      split; [exact H1|].
      split; [intros p Hm; apply H2, Heqv, Hm|].
      split; [intros p Hm; apply H3; rewrite <- Heqv; exact Hm|].
      split; [|exact H5].
      exists new. split; [exact Hnew|]. intros p. rewrite Hin, Heqv. reflexivity.
Qed.

Lemma heartbeatTimeout_exact :
  - 2 ^ 62 <= registry.healthCheckInterval s < 2 ^ 62 ->
  heartbeatTimeout s = 2 * registry.healthCheckInterval s.
Proof.
  intros Hr. unfold heartbeatTimeout, time.mul, time.wrap64.
  rewrite Z.mod_small by lia. lia.
Qed.

Lemma performHealthChecks_run (st : store) :
  registry.performHealthChecks s clock st
  = registry.healthCheckLoop s clock 0 (map snd (map_to_list (services st))) st.
Proof. reflexivity. Qed.

(** C6 (as the code has it).  In one sweep, every listed record without a
    health-check URL that is stale at its iteration -- already unhealthy,
    or with a last heartbeat at least [2 * interval] old -- ends up
    unhealthy, all its other fields as before, and [Update] was called on
    it; a record without a health-check URL that is not unhealthy and
    whose last heartbeat is strictly less than [2 * interval] old at each
    of its iterations is the same object value as before, and [Update] was
    not called on it. *)
Theorem C6_heartbeat_sweep (st : store) :
  let listed := map snd (map_to_list (services st)) in
  let r := registry.performHealthChecks s clock st in
  exists new : list loc,
    updates r.2 = (new ++ updates st)%list
    /\ (forall (i : nat) (svc : loc),
          listed !! i = Some svc ->
          service.HealthCheckURL (objs st svc) = "" ->
          service.Status (objs st svc) = service.StatusUnhealthy
          \/ heartbeatTimeout s
             <= time.Since (clock i) (service.LastHeartbeat (objs st svc)) ->
          objs r.2 svc = service.MarkUnhealthy (objs st svc)
          /\ service.Status (objs r.2 svc) = service.StatusUnhealthy
          /\ svc ∈ new)
    /\ (forall svc : loc,
          service.HealthCheckURL (objs st svc) = "" ->
          service.Status (objs st svc) <> service.StatusUnhealthy ->
          (forall i, listed !! i = Some svc ->
             time.Since (clock i) (service.LastHeartbeat (objs st svc))
             < heartbeatTimeout s) ->
          objs r.2 svc = objs st svc /\ svc ∉ new)
    /\ (- 2 ^ 62 <= registry.healthCheckInterval s < 2 ^ 62 ->
        heartbeatTimeout s = 2 * registry.healthCheckInterval s).
Proof.
  cbv zeta. rewrite performHealthChecks_run.
  destruct (healthCheckLoop_spec (map snd (map_to_list (services st))) 0%nat st)
    as (_ & H2 & H3 & (new & Hnew & Hin) & _).
  exists new. split; [exact Hnew|].
  split; [|split; [|exact heartbeatTimeout_exact]].
  - intros i svc Hi Hurl Hst.
    assert (Hm : marked s clock (objs st) 0 (map snd (map_to_list (services st))) svc).
    { exists i. split; [exact Hi|]. split; [exact Hurl|]. exact Hst. }
    split; [apply H2, Hm|]. split; [rewrite (H2 _ Hm); reflexivity|].
    apply Hin, Hm.
  - intros svc Hurl Hst Hfresh.
    assert (Hm : ~ marked s clock (objs st) 0 (map snd (map_to_list (services st))) svc).
    { intros (j & Hj & _ & [Hs|Hs]); [contradiction|].
      specialize (Hfresh j Hj). simpl in Hs. lia. }
    split; [apply H3, Hm|]. rewrite Hin. exact Hm.
Qed.

End HealthMonitor.

(** ** Byte strings *)

Lemma append_cons (x : ascii) (a b : string) :
  (String x a ++ b = String x (a ++ b))%string.
Proof. reflexivity. Qed.

Lemma append_nil_l (a : string) : ("" ++ a = a)%string.
Proof. reflexivity. Qed.

Lemma append_assoc (a b c : string) : ((a ++ b) ++ c = a ++ (b ++ c))%string.
Proof.
  induction a as [|x a IH]; [reflexivity|].
  rewrite !append_cons, IH. reflexivity.
Qed.

Lemma append_nil_r (a : string) : (a ++ "" = a)%string.
Proof.
  induction a as [|x a IH]; [reflexivity|]. rewrite append_cons, IH. reflexivity.
Qed.

Lemma length_append (a b : string) :
  String.length (a ++ b) = (String.length a + String.length b)%nat.
Proof.
  induction a as [|x a IH]; [reflexivity|].
  rewrite append_cons. simpl. rewrite IH. reflexivity.
Qed.

Ltac divlia := Z.to_euclidean_division_equations; lia.
Ltac norm_append := repeat (rewrite append_cons || rewrite append_nil_l).

(** ** Strings and segments *)
Section Segments.

Lemma Split_nonempty (s : string) (sep : ascii) : strings.Split s sep <> [].
Proof.
  destruct s as [|c rest]; simpl; [discriminate|].
  destruct (Ascii.eqb c sep); [discriminate|].
  destruct (strings.Split rest sep); discriminate.
Qed.

Lemma Split_no_sep (s : string) (sep : ascii) :
  strings.ContainsByte s sep = false -> strings.Split s sep = [s].
Proof.
  induction s as [|c rest IH]; simpl; [reflexivity|].
  intros H. apply orb_false_iff in H. destruct H as [Hc Hrest].
  rewrite Hc, (IH Hrest). reflexivity.
Qed.

Lemma Split_app (a b : string) (sep : ascii) :
  strings.ContainsByte a sep = false ->
  strings.Split (a ++ String sep b) sep = a :: strings.Split b sep.
Proof.
  induction a as [|c rest IH].
  - intros _. rewrite append_nil_l. simpl. rewrite Ascii.eqb_refl. reflexivity.
  - rewrite append_cons. simpl.
    intros H. apply orb_false_iff in H. destruct H as [Hc Hrest].
    rewrite Hc, (IH Hrest). reflexivity.
Qed.

Lemma Split_sep (s : string) (sep : ascii) :
  strings.ContainsByte s sep = true ->
  exists a b rest, strings.Split s sep = a :: b :: rest.
Proof.
  induction s as [|c rest IH]; simpl; [discriminate|].
  destruct (Ascii.eqb c sep) eqn:Hc; simpl.
  - intros _. destruct (strings.Split rest sep) as [|x xs] eqn:Hs.
    + destruct (Split_nonempty _ _ Hs).
    + eauto.
  - intros H. destruct (IH H) as (a & b & r & ->). eauto.
Qed.

Lemma ContainsByte_app (a b : string) (sep : ascii) :
  strings.ContainsByte (a ++ b) sep
  = strings.ContainsByte a sep || strings.ContainsByte b sep.
Proof.
  induction a as [|c rest IH]; [reflexivity|].
  rewrite append_cons. simpl. rewrite IH, orb_assoc. reflexivity.
Qed.

(** A token of three segments without periods splits into them. *)
Lemma Split_three (h c sig : string) :
  strings.ContainsByte h "." = false ->
  strings.ContainsByte c "." = false ->
  strings.ContainsByte sig "." = false ->
  strings.Split ((h ++ "." ++ c) ++ "." ++ sig) "." = [h; c; sig].
Proof.
  intros Hh Hc Hs.
  change ("." ++ sig)%string with (String "."%char sig).
  change ("." ++ c)%string with (String "."%char c).
  rewrite append_assoc, append_cons.
  rewrite (Split_app h _ "." Hh), (Split_app c _ "." Hc), (Split_no_sep _ _ Hs).
  reflexivity.
Qed.

(** With a period in its third part it splits into more than three. *)
Lemma Split_more (h c sig : string) :
  strings.ContainsByte h "." = false ->
  strings.ContainsByte c "." = false ->
  strings.ContainsByte sig "." = true ->
  exists a b rest,
    strings.Split ((h ++ "." ++ c) ++ "." ++ sig) "." = h :: c :: a :: b :: rest.
Proof.
  intros Hh Hc Hs.
  change ("." ++ sig)%string with (String "."%char sig).
  change ("." ++ c)%string with (String "."%char c).
  rewrite append_assoc, append_cons.
  rewrite (Split_app h _ "." Hh), (Split_app c _ "." Hc).
  destruct (Split_sep _ _ Hs) as (a & b & rest & ->). eauto.
Qed.

(** No character of the base64 alphabet is a period. *)
Lemma encode_not_period :
  forallb (fun x => negb (Ascii.eqb (base64.encode x) ".")) base64.sextets = true.
Proof. vm_compute. reflexivity. Qed.

Lemma sextets_all (x : base64.sextet) : In x base64.sextets.
Proof.
  destruct x as [[[[[b5 b4] b3] b2] b1] b0].
  destruct b5, b4, b3, b2, b1, b0; vm_compute; tauto.
Qed.

Lemma encoded_no_period (l : list base64.sextet) :
  strings.ContainsByte (string_of_list_ascii (map base64.encode l)) "." = false.
Proof.
  induction l as [|x rest IH]; simpl; [reflexivity|].
  rewrite IH, orb_false_r.
  pose proof encode_not_period as H. rewrite forallb_forall in H.
  specialize (H x (sextets_all x)). apply negb_true_iff in H. exact H.
Qed.

Lemma EncodeToString_no_period (src : string) :
  strings.ContainsByte (base64.EncodeToString src) "." = false.
Proof. apply encoded_no_period. Qed.

End Segments.

(** ** Token authority: validation *)
Section TokenAuthority.

(** [Validate] on a token of three segments whose claims decode. *)
Lemma Validate_three (s : jwt.jwtService) (now : time.Time)
    (tokenString : string) (claims : token.Claims) :
  claimsOf tokenString = Some claims ->
  jwt.Validate s now tokenString
  = if signatureOK s tokenString
    then if time.After now (token.ExpiresAt claims)
         then Err (Errorf "token expired") else Ok claims
    else Err (Errorf "invalid signature").
Proof.
  unfold claimsOf, signatureOK, jwt.Validate.
  destruct (strings.Split tokenString ".") as [|h [|c [|sig [|x rest]]]];
    try discriminate.
  destruct (hmac.Equal sig (jwt.sign s (h ++ "." ++ c))); [|reflexivity].
  cbn [negb].
  destruct (base64.DecodeString c) as [js|]; [|discriminate].
  destruct (token.UnmarshalClaims js) as [cl|]; [|discriminate].
  intros H. inversion H; subst. reflexivity.
Qed.

(** C10. [Validate] does not look at the not-before claim: a token with a
    valid signature and decodable claims whose expires-at is not in the
    past is accepted and its claims are returned, whatever its not-before
    time is -- in particular when it lies in the future. *)
Theorem C10_Validate_ignores_not_before (s : jwt.jwtService) (now : time.Time)
    (tokenString : string) (claims : token.Claims) :
  signatureOK s tokenString = true ->
  claimsOf tokenString = Some claims ->
  now <= token.ExpiresAt claims ->
  jwt.Validate s now tokenString = Ok claims.
Proof.
  intros Hsig Hclaims Hexp.
  rewrite (Validate_three s now tokenString claims Hclaims), Hsig.
  unfold time.After.
  destruct (Z.ltb_spec (token.ExpiresAt claims) now); [lia|reflexivity].
Qed.

(** C2 (as the code has it).  For a token whose expires-at is in the
    past, [Validate] answers "token expired" when the signature segment is
    valid, and "invalid signature" when it is not: the signature is
    checked first. *)
Theorem C2_expired_after_signature (s : jwt.jwtService) (now : time.Time)
    (tokenString : string) (claims : token.Claims) :
  claimsOf tokenString = Some claims ->
  token.ExpiresAt claims < now ->
  jwt.Validate s now tokenString
  = if signatureOK s tokenString
    then Err (Errorf "token expired")
    else Err (Errorf "invalid signature").
Proof.
  intros Hclaims Hexp.
  rewrite (Validate_three s now tokenString claims Hclaims).
  unfold time.After.
  destruct (Z.ltb_spec (token.ExpiresAt claims) now); [reflexivity|lia].
Qed.

(** What [Generate] returns. *)
Lemma Generate_run (s : jwt.jwtService) (now : time.Time) (claims : token.Claims) :
  jwt.Generate s now claims
  = match token.MarshalClaims (stamp (jwt.config s) now claims) with
    | Err err => Err (Errorf_w "marshal claims" err)
    | Ok claimsJSON =>
        Ok {| token.Value :=
                signed s (base64.EncodeToString (json.encodeStringMap jwt.header)
                          ++ "." ++ base64.EncodeToString claimsJSON);
              token.TokenType := token.TypeAccess;
              token.TokenExpiresAt := time.Add now (jwt.AccessTokenTTL (jwt.config s));
              token.TokenIssuedAt := now;
              token.TokenClaims := [] |}
    end.
Proof. reflexivity. Qed.

Lemma setByte_length (i : nat) (c : ascii) (s : string) :
  String.length (setByte i c s) = String.length s.
Proof.
  revert i. induction s as [|x rest IH]; intros [|i]; simpl; auto.
Qed.

Lemma setByte_changes (i : nat) (c : ascii) (s : string) :
  (i < String.length s)%nat -> String.get i s <> Some c -> setByte i c s <> s.
Proof.
  revert i. induction s as [|x rest IH]; intros [|i]; simpl; try lia.
  - intros _ Hne Heq. inversion Heq; subst. congruence.
  - intros Hlt Hne Heq. inversion Heq as [Heq']. apply (IH i); [lia|exact Hne|exact Heq'].
Qed.

Lemma setByte_period (i : nat) (c : ascii) (s : string) :
  (i < String.length s)%nat ->
  strings.ContainsByte s "." = false ->
  strings.ContainsByte (setByte i c s) "." = Ascii.eqb c ".".
Proof.
  revert i. induction s as [|x rest IH]; intros [|i]; simpl; try lia.
  - intros _ H. apply orb_false_iff in H. destruct H as [_ ->].
    apply orb_false_r.
  - intros Hlt H. apply orb_false_iff in H. destruct H as [-> Hrest].
    rewrite (IH i) by (lia || assumption). reflexivity.
Qed.

(** [Validate] on the message of a generated token followed by anything
    but its signature. *)
Lemma Validate_other_signature (s : jwt.jwtService) (now : time.Time)
    (h c sig' : string) :
  strings.ContainsByte h "." = false ->
  strings.ContainsByte c "." = false ->
  sig' <> jwt.sign s (h ++ "." ++ c) ->
  jwt.Validate s now ((h ++ "." ++ c) ++ "." ++ sig')
  = if strings.ContainsByte sig' "."
    then Err (Errorf "invalid token format")
    else Err (Errorf "invalid signature").
Proof.
  intros Hh Hc Hne. unfold jwt.Validate.
  destruct (strings.ContainsByte sig' ".") eqn:Hdot.
  - destruct (Split_more h c sig' Hh Hc Hdot) as (a & b & rest & ->). reflexivity.
  - rewrite (Split_three h c sig' Hh Hc Hdot).
    unfold hmac.Equal. apply String.eqb_neq in Hne. rewrite Hne. reflexivity.
Qed.

(** C3 (as the code has it).  A generated token is a message followed by
    a period and the signature of the message.  With one byte of the
    signature changed, [Validate] answers "invalid signature" -- unless
    the byte becomes a period: the token then has four segments and the
    answer is "invalid token format". *)
Theorem C3_changed_signature_byte (s : jwt.jwtService) (now : time.Time)
    (claims : token.Claims) (tok : token.Token) :
  jwt.Generate s now claims = Ok tok ->
  exists message : string,
    token.Value tok = (message ++ "." ++ jwt.sign s message)%string
    /\ forall (i : nat) (c : ascii) (now' : time.Time),
         (i < String.length (jwt.sign s message))%nat ->
         String.get i (jwt.sign s message) <> Some c ->
         jwt.Validate s now' (message ++ "." ++ setByte i c (jwt.sign s message))
         = if Ascii.eqb c "."
           then Err (Errorf "invalid token format")
           else Err (Errorf "invalid signature").
Proof.
  rewrite Generate_run.
  destruct (token.MarshalClaims (stamp (jwt.config s) now claims)) as [js|];
    [|discriminate].
  intros H. inversion H; subst tok; clear H. cbn [token.Value]. unfold signed.
  eexists. split; [reflexivity|].
  intros i c now' Hi Hget.
  rewrite Validate_other_signature.
  - rewrite setByte_period; [reflexivity|exact Hi|].
    apply EncodeToString_no_period.
  - apply EncodeToString_no_period.
  - apply EncodeToString_no_period.
  - apply setByte_changes; assumption.
Qed.

End TokenAuthority.

(** ** Token authority: what can be encoded *)
Section Encodable.

(** Induction on an [any] that reaches the elements of slices and maps. *)
Lemma any_nested_ind (P : any -> Prop) :
  P Nil -> (forall b, P (Bool b)) -> (forall n, P (Float64 n)) ->
  (forall s, P (Str s)) ->
  (forall l, Forall P l -> P (Slice l)) ->
  (forall m, Forall (fun kv => P kv.2) m -> P (Map m)) ->
  P Chan ->
  forall v, P v.
Proof.
  intros HNil HBool HFloat HStr HSlice HMap HChan.
  fix IH 1. intros [| b | n | s | l | m |].
  - exact HNil.
  - apply HBool.
  - apply HFloat.
  - apply HStr.
  - apply HSlice. induction l as [|x l IHl]; constructor; [apply IH|exact IHl].
  - apply HMap. induction m as [|[k x] m IHm]; constructor; [apply IH|exact IHm].
  - exact HChan.
Qed.

Lemma MarshalJSON_isOk (t : time.Time) : isOk (time.MarshalJSON t) = yearOK t.
Proof.
  unfold time.MarshalJSON, yearOK.
  destruct (Z.ltb_spec (time.Year t) 0), (Z.ltb_spec 9999 (time.Year t)),
    (Z.leb_spec 0 (time.Year t)), (Z.leb_spec (time.Year t) 9999);
    simpl; try reflexivity; lia.
Qed.

Lemma encodeAny_isOk (v : any) : isOk (json.encodeAny v) = chanFree v.
Proof.
  induction v as [| b | n | s | l IH | m IH |] using any_nested_ind;
    try reflexivity.
  - cbn [json.encodeAny chanFree].
    match goal with
    | |- isOk (mbind _ (?F l)) = _ =>
        assert (HF : isOk (F l) = forallb chanFree l)
    end.
    { induction IH as [|x l Hx _ IHl]; [reflexivity|].
      cbn [forallb]. rewrite <- Hx, <- IHl.
      destruct (json.encodeAny x); [|reflexivity].
      cbn. match goal with |- isOk (mbind _ ?r) = _ => destruct r end; reflexivity. }
    rewrite <- HF.
    match goal with |- isOk (mbind _ ?r) = _ => destruct r end; reflexivity.
  - cbn [json.encodeAny chanFree].
    match goal with
    | |- isOk (mbind _ (?F m)) = _ =>
        assert (HF : isOk (F m) = forallb (fun '(_, x) => chanFree x) m)
    end.
    { induction IH as [|[k x] m Hx _ IHm]; [reflexivity|].
      cbn [forallb]. simpl in Hx. rewrite <- Hx, <- IHm.
      destruct (json.encodeAny x); [|reflexivity].
      cbn. match goal with |- isOk (mbind _ ?r) = _ => destruct r end; reflexivity. }
    rewrite <- HF.
    match goal with |- isOk (mbind _ ?r) = _ => destruct r end; reflexivity.
Qed.

Lemma MarshalClaims_isOk (c : token.Claims) :
  isOk (token.MarshalClaims c) = encodable c.
Proof.
  unfold token.MarshalClaims, encodable.
  rewrite <- !MarshalJSON_isOk.
  destruct (time.MarshalJSON (token.ExpiresAt c)); [|reflexivity].
  destruct (time.MarshalJSON (token.IssuedAt c)); [|reflexivity].
  destruct (time.MarshalJSON (token.NotBefore c)); [|reflexivity].
  cbn [mbind result_bind isOk andb].
  destruct (token.Metadata c) as [|kv m] eqn:Hm; [reflexivity|].
  change (forallb (fun '(_, x) => chanFree x) (kv :: m)) with (chanFree (Map (kv :: m))).
  rewrite <- encodeAny_isOk. unfold json.encodeMap.
  destruct (json.encodeAny (Map (kv :: m))); reflexivity.
Qed.

(** C8 (as the code has it).  [NewService] fails exactly for an empty
    secret.  [Generate] does not look at the secret: it succeeds exactly
    when the stamped claims can be encoded -- the expires-at, issued-at
    and not-before times in the years 0 to 9999 and no value without a
    JSON encoding in the metadata -- and fails with the error of
    [json.Marshal] otherwise. *)
Theorem C8_Generate_fails_iff_not_encodable :
  (forall cfg : jwt.Config,
     isOk (jwt.NewService cfg) = negb (String.eqb (jwt.Secret cfg) ""))
  /\ (forall (s : jwt.jwtService) (now : time.Time) (claims : token.Claims),
        isOk (jwt.Generate s now claims) = encodable (stamp (jwt.config s) now claims))
  /\ (forall (s : jwt.jwtService) (now : time.Time) (claims : token.Claims) (e : error),
        jwt.Generate s now claims = Err e ->
        exists e', e = Errorf_w "marshal claims" e'
                   /\ token.MarshalClaims (stamp (jwt.config s) now claims) = Err e').
Proof.
  split; [|split].
  - intros cfg. unfold jwt.NewService.
    destruct (String.eqb (jwt.Secret cfg) ""); reflexivity.
  - intros s now claims. rewrite Generate_run, <- MarshalClaims_isOk.
    destruct (token.MarshalClaims (stamp (jwt.config s) now claims)); reflexivity.
  - intros s now claims e. rewrite Generate_run.
    destruct (token.MarshalClaims (stamp (jwt.config s) now claims)) as [js|e'];
      [discriminate|].
    intros H. inversion H; subst. eauto.
Qed.

End Encodable.

(** ** Base64 round trip *)

Lemma join8_split6 (n : nat) :
  forall l : list ascii, (length l <= n)%nat -> base64.join8 (base64.split6 l) = Some l.
Proof.
  induction n as [n IH] using lt_wf_ind. intros l Hn.
  destruct l as [|[a0 a1 a2 a3 a4 a5 a6 a7] l]; [reflexivity|].
  destruct l as [|[b0 b1 b2 b3 b4 b5 b6 b7] l]; [reflexivity|].
  destruct l as [|[c0 c1 c2 c3 c4 c5 c6 c7] l]; [reflexivity|].
  cbn [base64.split6 base64.join8].
  rewrite (IH (length l)); [reflexivity| simpl in Hn; lia | lia].
Qed.

Lemma decodeMap_encode (x : base64.sextet) :
  base64.newline (base64.encode x) = false
  /\ base64.decodeMap (base64.encode x) = Some x.
Proof.
  destruct x as [[[[[b5 b4] b3] b2] b1] b0].
  destruct b5, b4, b3, b2, b1, b0; vm_compute; split; reflexivity.
Qed.

Lemma decodeAll_encode (l : list base64.sextet) :
  base64.decodeAll (map base64.encode l) = Some l.
Proof.
  induction l as [|x l IH]; [reflexivity|].
  cbn [map base64.decodeAll].
  destruct (decodeMap_encode x) as [-> ->]. rewrite IH. reflexivity.
Qed.

Lemma DecodeString_EncodeToString (src : string) :
  base64.DecodeString (base64.EncodeToString src) = Ok src.
Proof.
  unfold base64.DecodeString, base64.EncodeToString.
  rewrite list_ascii_of_string_of_list_ascii, decodeAll_encode.
  rewrite (join8_split6 _ _ (le_n _)), string_of_list_ascii_of_string.
  reflexivity.
Qed.

(** ** The calendar *)

Lemma checkFrom_era : checkFrom (Z.to_nat 146097) 0 = true.
Proof. vm_cast_no_check (eq_refl true). Qed.

Lemma checkFrom_spec (n : nat) :
  forall i, checkFrom n i = true ->
  forall j, i <= j < i + Z.of_nat n -> civilCheck j = true.
Proof.
  induction n as [|n IH]; intros i H j Hj; [lia|].
  simpl in H. apply andb_true_iff in H. destruct H as [Hi Hrest].
  destruct (Z.eq_dec j i) as [->|Hne]; [exact Hi|].
  apply (IH (i + 1)); [exact Hrest|lia].
Qed.

Lemma civilCheck_era (doe : Z) : 0 <= doe < 146097 -> civilCheck doe = true.
Proof.
  intros H. apply (checkFrom_spec _ 0 checkFrom_era). lia.
Qed.

Lemma isLeap_era (y k : Z) : time.isLeap (y + k * 400) = time.isLeap y.
Proof.
  unfold time.isLeap.
  replace ((y + k * 400) mod 4) with (y mod 4)
    by (replace (y + k * 400) with (y + (k * 100) * 4) by lia;
        symmetry; apply Z.mod_add; lia).
  replace ((y + k * 400) mod 100) with (y mod 100)
    by (replace (y + k * 400) with (y + (k * 4) * 100) by lia;
        symmetry; apply Z.mod_add; lia).
  replace ((y + k * 400) mod 400) with (y mod 400)
    by (symmetry; apply Z.mod_add; lia).
  reflexivity.
Qed.

Lemma daysIn_era (m y k : Z) : time.daysIn m (y + k * 400) = time.daysIn m y.
Proof. unfold time.daysIn. rewrite isLeap_era. reflexivity. Qed.

(** The date of a day is a date of the calendar, and the day is the day
    of that date. *)
Lemma civil_spec (z : Z) :
  let '(year, month, day) := time.civil z in
  1 <= month <= 12 /\ 1 <= day <= time.daysIn month year
  /\ time.daysSinceEpoch year month day = z.
Proof.
  unfold time.civil.
  set (era := (z + 719468) / 146097).
  set (doe := z + 719468 - era * 146097).
  assert (Hdoe : 0 <= doe < 146097).
  { subst doe era. pose proof (Z.mod_pos_bound (z + 719468) 146097 ltac:(lia)) as Hm.
    rewrite Z.mod_eq in Hm by lia. lia. }
  pose proof (civilCheck_era doe Hdoe) as Hc. unfold civilCheck in Hc.
  set (yoe := (doe - doe / 1460 + doe / 36524 - doe / 146096) / 365) in *.
  set (doy := doe - (365 * yoe + yoe / 4 - yoe / 100)) in *.
  set (mp := (5 * doy + 2) / 153) in *.
  set (day := doy - (153 * mp + 2) / 5 + 1) in *.
  set (month := if mp <? 10 then mp + 3 else mp - 9) in *.
  repeat (apply andb_true_iff in Hc; destruct Hc as [Hc ?]).
  repeat match goal with
         | H : (_ <=? _) = true |- _ => apply Z.leb_le in H
         | H : (_ =? _) = true |- _ => apply Z.eqb_eq in H
         end.
  assert (Hyear : (if month <=? 2 then yoe + era * 400 + 1 else yoe + era * 400)
                  = (if month <=? 2 then yoe + 1 else yoe) + era * 400)
    by (destruct (month <=? 2); lia).
  rewrite Hyear. clear Hyear.
  split; [lia|]. split; [rewrite daysIn_era; lia|].
  unfold time.daysSinceEpoch.
  assert (Hy : (if month <=? 2
                then (if month <=? 2 then yoe + 1 else yoe) + era * 400 - 1
                else (if month <=? 2 then yoe + 1 else yoe) + era * 400)
               = yoe + era * 400)
    by (destruct (month <=? 2); lia).
  rewrite Hy. clear Hy.
  assert (He : (yoe + era * 400) / 400 = era).
  { rewrite Z.div_add by lia. rewrite Z.div_small by lia. lia. }
  rewrite He.
  replace (yoe + era * 400 - era * 400) with yoe by lia.
  subst doe. lia.
Qed.

(** ** Time as text *)

Lemma digitVal_digit (d : Z) : 0 <= d <= 9 -> time.digitVal (time.digit d) = Some d.
Proof.
  intros H.
  assert (Hd : d = 0 \/ d = 1 \/ d = 2 \/ d = 3 \/ d = 4 \/ d = 5 \/ d = 6
               \/ d = 7 \/ d = 8 \/ d = 9) by lia.
  repeat destruct Hd as [-> | Hd]; try subst d; reflexivity.
Qed.

Lemma digits_pad2 (v acc : Z) (rest : string) :
  0 <= v <= 99 ->
  time.digits 2 acc (time.pad2 v ++ rest) = Some (100 * acc + v, rest).
Proof.
  intros H. unfold time.pad2. rewrite !append_cons, append_nil_l.
  cbn [time.digits].
  rewrite (digitVal_digit (v / 10)) by divlia.
  rewrite (digitVal_digit (v mod 10)) by divlia.
  f_equal. f_equal. divlia.
Qed.

Lemma digits_pad4 (v : Z) (rest : string) :
  0 <= v <= 9999 ->
  time.digits 4 0 (time.pad4 v ++ rest) = Some (v, rest).
Proof.
  intros H. unfold time.pad4, time.pad2.
  norm_append. cbn [time.digits].
  rewrite !digitVal_digit by divlia.
  f_equal. f_equal. divlia.
Qed.

Lemma expect_cons (c : ascii) (rest : string) :
  time.expect c (String c rest) = Some rest.
Proof. simpl. rewrite Ascii.eqb_refl. reflexivity. Qed.

(** The digits of a fraction are read back as its value. *)
Lemma fracValue_fracDigits (k : nat) :
  forall (v acc : Z) (rest : string),
    0 <= v < 10 ^ Z.of_nat k ->
    (forall c r, rest = String c r -> time.digitVal c = None) ->
    time.fracValue k acc (time.fracDigits k v ++ rest)
    = (acc * 10 ^ Z.of_nat k + v, rest).
Proof.
  induction k as [|k IH]; intros v acc rest Hv Hrest.
  - simpl in Hv. assert (v = 0) by lia. subst v.
    cbn [time.fracDigits]. rewrite append_nil_l.
    destruct rest as [|c r]; cbn [time.fracValue].
    + f_equal. simpl. lia.
    + rewrite (Hrest c r eq_refl). f_equal. simpl. lia.
  - cbn [time.fracDigits].
    destruct (Z.eqb_spec v 0) as [->|Hne].
    + rewrite append_nil_l.
      destruct rest as [|c r]; cbn [time.fracValue].
      * f_equal. lia.
      * rewrite (Hrest c r eq_refl). f_equal. lia.
    + rewrite append_cons. cbn [time.fracValue].
      assert (Hpow : 10 ^ Z.of_nat (S k) = 10 * 10 ^ Z.of_nat k)
        by (rewrite Nat2Z.inj_succ, Z.pow_succ_r; lia).
      assert (Hpos : 0 < 10 ^ Z.of_nat k) by (apply Z.pow_pos_nonneg; lia).
      assert (Hq : 0 <= v / 10 ^ Z.of_nat k <= 9).
      { split; [apply Z.div_pos; lia|].
        apply Z.lt_succ_r. apply Z.div_lt_upper_bound; lia. }
      rewrite (digitVal_digit _ Hq).
      rewrite IH; [|apply Z.mod_pos_bound; lia|exact Hrest].
      f_equal. rewrite Hpow.
      pose proof (Z.div_mod v (10 ^ Z.of_nat k) ltac:(lia)). lia.
Qed.

Lemma parseFraction_fraction (nsec : Z) :
  0 <= nsec < 1000000000 ->
  time.parseFraction (time.fraction nsec ++ "Z") = (nsec, "Z").
Proof.
  intros H. unfold time.fraction.
  destruct (Z.eqb_spec nsec 0) as [->|Hne]; [reflexivity|].
  rewrite append_cons.
  assert (Hz : forall c r, "Z" = String c r -> time.digitVal c = None)
    by (intros c r Heq; inversion Heq; reflexivity).
  pose proof (fracValue_fracDigits 9 nsec 0 "Z" ltac:(simpl; lia) Hz) as Hfv.
  replace (0 * 10 ^ Z.of_nat 9 + nsec) with nsec in Hfv by lia.
  revert Hfv. cbn [time.fracDigits].
  destruct (Z.eqb_spec nsec 0) as [|_]; [contradiction|].
  rewrite append_cons. intros Hfv.
  unfold time.parseFraction.
  rewrite digitVal_digit by (simpl; divlia).
  exact Hfv.
Qed.

Lemma parseZone_Z : time.parseZone "Z" = Some 0.
Proof. reflexivity. Qed.

(** A time of a year from 0 to 9999 is read back from its text. *)
Lemma parseRFC3339_Format (t : time.Time) :
  0 <= time.Year t <= 9999 -> time.parseRFC3339 (time.Format t) = Some t.
Proof.
  unfold time.Year, time.Format. intros Hyear.
  pose proof (civil_spec (t / 1000000000 / 86400)) as Hcivil.
  destruct (time.civil (t / 1000000000 / 86400)) as [[year month] day].
  cbn [fst] in Hyear. destruct Hcivil as (Hm & Hd & Hdays).
  assert (Hdim : time.daysIn month year <= 31).
  { unfold time.daysIn.
    destruct (month =? 2); [destruct (time.isLeap year); lia|].
    destruct ((month =? 4) || (month =? 6) || (month =? 9) || (month =? 11)); lia. }
  set (sod := (t / 1000000000) mod 86400) in *.
  assert (Hsod : 0 <= sod < 86400) by (apply Z.mod_pos_bound; lia).
  unfold time.parseRFC3339.
  rewrite digits_pad4 by lia. cbn [mbind option_bind].
  norm_append. rewrite expect_cons. cbn [mbind option_bind].
  rewrite digits_pad2 by lia. cbn [mbind option_bind].
  norm_append. rewrite expect_cons. cbn [mbind option_bind].
  rewrite digits_pad2 by lia. cbn [mbind option_bind].
  norm_append. rewrite expect_cons. cbn [mbind option_bind].
  rewrite digits_pad2 by divlia. cbn [mbind option_bind].
  norm_append. rewrite expect_cons. cbn [mbind option_bind].
  rewrite digits_pad2 by divlia. cbn [mbind option_bind].
  norm_append. rewrite expect_cons. cbn [mbind option_bind].
  rewrite digits_pad2 by divlia. cbn [mbind option_bind].
  replace (100 * 0 + month) with month by lia.
  replace (100 * 0 + day) with day by lia.
  replace (100 * 0 + sod / 3600) with (sod / 3600) by lia.
  replace (100 * 0 + sod mod 3600 / 60) with (sod mod 3600 / 60) by lia.
  replace (100 * 0 + sod mod 60) with (sod mod 60) by lia.
  assert (Hranges : (1 <=? month) && (month <=? 12) && (1 <=? day)
                    && (day <=? time.daysIn month year)
                    && (sod / 3600 <=? 23) && (sod mod 3600 / 60 <=? 59)
                    && (sod mod 60 <=? 59) = true).
  { repeat (apply andb_true_iff; split); apply Z.leb_le; try lia; divlia. }
  rewrite Hranges. cbn [negb].
  rewrite parseFraction_fraction by (apply Z.mod_pos_bound; lia).
  rewrite parseZone_Z. cbn [mbind option_bind].
  f_equal. unfold time.Date. rewrite Hdays.
  subst sod. divlia.
Qed.

(** ** Bytes *)

Lemma byte_range (c : ascii) : 0 <= utf8.byte c < 256.
Proof.
  unfold utf8.byte. pose proof (N_ascii_bounded c). lia.
Qed.

Lemma char_byte (c : ascii) : utf8.char (utf8.byte c) = c.
Proof.
  unfold utf8.char, utf8.byte. rewrite N2Z.id. apply ascii_N_embedding.
Qed.

Lemma byte_char (z : Z) : 0 <= z < 256 -> utf8.byte (utf8.char z) = z.
Proof.
  intros H. unfold utf8.char, utf8.byte.
  rewrite N_ascii_embedding by lia. lia.
Qed.

Lemma byte_inj (a b : ascii) : utf8.byte a = utf8.byte b -> a = b.
Proof. intros H. rewrite <- (char_byte a), <- (char_byte b), H. reflexivity. Qed.

Lemma hexVal_hex (d : Z) : 0 <= d < 16 -> json.hexVal (json.hex d) = Some d.
Proof.
  intros H.
  assert (Hd : d = 0 \/ d = 1 \/ d = 2 \/ d = 3 \/ d = 4 \/ d = 5 \/ d = 6
               \/ d = 7 \/ d = 8 \/ d = 9 \/ d = 10 \/ d = 11 \/ d = 12
               \/ d = 13 \/ d = 14 \/ d = 15) by lia.
  repeat destruct Hd as [-> | Hd]; try subst d; reflexivity.
Qed.

(** ** String literals are scanned back *)

Lemma chunk_plain (c : ascii) :
  32 <= utf8.byte c -> utf8.byte c <> 34 -> utf8.byte c <> 92 ->
  chunk (String c "").
Proof.
  intros H1 H2 H3 rest. norm_append. cbn [json.scanString].
  destruct (Z.eqb_spec (utf8.byte c) 34); [contradiction|].
  destruct (Z.eqb_spec (utf8.byte c) 92); [contradiction|].
  destruct (Z.ltb_spec (utf8.byte c) 32); [lia|].
  destruct (json.scanString json.InString rest) as [[raw r]|]; reflexivity.
Qed.

Lemma chunk_escape (e : ascii) :
  json.isEscape e = true -> chunk (String "\" (String e "")).
Proof.
  intros He rest. norm_append. cbn [json.scanString].
  change (utf8.byte "\" =? 34) with false. change (utf8.byte "\" =? 92) with true.
  cbv iota. rewrite He.
  destruct (json.scanString json.InString rest) as [[raw r]|]; reflexivity.
Qed.

Lemma chunk_u4 (h3 h2 h1 h0 : ascii) (a b c d : Z) :
  json.hexVal h3 = Some a -> json.hexVal h2 = Some b ->
  json.hexVal h1 = Some c -> json.hexVal h0 = Some d ->
  chunk (String "\" (String "u" (String h3 (String h2 (String h1 (String h0 "")))))).
Proof.
  intros H3 H2 H1 H0 rest. norm_append. cbn [json.scanString].
  change (utf8.byte "\" =? 34) with false. change (utf8.byte "\" =? 92) with true.
  change (json.isEscape "u") with false. change (utf8.byte "u" =? 117) with true.
  cbv iota. rewrite H3, H2, H1, H0.
  destruct (json.scanString json.InString rest) as [[raw r]|]; reflexivity.
Qed.

Lemma chunk_escapeByte (c : ascii) :
  utf8.byte c < 128 -> chunk (json.escapeByte c).
Proof.
  intros Hc. unfold json.escapeByte.
  pose proof (byte_range c) as Hr.
  destruct (Z.eqb_spec (utf8.byte c) 34) as [E|N34].
  { apply chunk_escape. unfold json.isEscape. rewrite E. reflexivity. }
  destruct (Z.eqb_spec (utf8.byte c) 92) as [E|N92].
  { apply chunk_escape. unfold json.isEscape. rewrite E. reflexivity. }
  cbn [orb].
  destruct (Z.eqb_spec (utf8.byte c) 8); [apply chunk_escape; reflexivity|].
  destruct (Z.eqb_spec (utf8.byte c) 12); [apply chunk_escape; reflexivity|].
  destruct (Z.eqb_spec (utf8.byte c) 10); [apply chunk_escape; reflexivity|].
  destruct (Z.eqb_spec (utf8.byte c) 13); [apply chunk_escape; reflexivity|].
  destruct (Z.eqb_spec (utf8.byte c) 9); [apply chunk_escape; reflexivity|].
  destruct ((utf8.byte c <? 32) || (utf8.byte c =? 60) || (utf8.byte c =? 62)
            || (utf8.byte c =? 38)) eqn:Hesc.
  - unfold json.escapeU00, json.escapeU.
    eapply (chunk_u4 _ _ _ _ 0 0); try reflexivity; apply hexVal_hex; divlia.
  - apply chunk_plain; try assumption.
    apply orb_false_iff in Hesc. destruct Hesc as [Hesc _].
    apply orb_false_iff in Hesc. destruct Hesc as [Hesc _].
    apply orb_false_iff in Hesc. destruct Hesc as [Hesc _].
    apply Z.ltb_ge in Hesc. exact Hesc.
Qed.

Lemma cont_high (c : ascii) : utf8.cont c = true -> 128 <= utf8.byte c.
Proof. unfold utf8.cont. intros H. apply andb_true_iff in H. destruct H as [H _]. lia. Qed.

Lemma between_high (lo hi : Z) (c : ascii) :
  128 <= lo -> utf8.between lo hi c = true -> 128 <= utf8.byte c.
Proof.
  unfold utf8.between. intros Hlo H. apply andb_true_iff in H. destruct H as [H _]. lia.
Qed.

(** A well-formed encoding of [n] bytes: [n] is 2, 3 or 4, its first
    byte starts no shorter one, and the bytes after the first are above
    the ASCII range. *)
Lemma runeLen_spec (c : ascii) (rest : string) (n : nat) :
  utf8.runeLen (String c rest) = Some n ->
  194 <= utf8.byte c
  /\ ((n = 2%nat /\ exists c1 r, rest = String c1 r /\ 128 <= utf8.byte c1)
      \/ (n = 3%nat /\ exists c1 c2 r, rest = String c1 (String c2 r)
                                      /\ 128 <= utf8.byte c1 /\ 128 <= utf8.byte c2)
      \/ (n = 4%nat /\ exists c1 c2 c3 r,
            rest = String c1 (String c2 (String c3 r))
            /\ 128 <= utf8.byte c1 /\ 128 <= utf8.byte c2 /\ 128 <= utf8.byte c3)).
Proof.
  unfold utf8.runeLen. destruct rest as [|c1 r1]; [discriminate|].
  destruct (Z.ltb_spec (utf8.byte c) 194); [discriminate|].
  destruct (Z.leb_spec (utf8.byte c) 223).
  { destruct (utf8.cont c1) eqn:H1; [|discriminate].
    intros Hn. inversion Hn; subst. split; [lia|]. left. split; [reflexivity|].
    exists c1, r1. split; [reflexivity|]. apply cont_high, H1. }
  destruct (Z.leb_spec (utf8.byte c) 239).
  { destruct r1 as [|c2 r2]; [discriminate|].
    match goal with |- (if ?b then _ else _) = _ -> _ => destruct b eqn:Hb end;
      [|discriminate].
    apply andb_true_iff in Hb. destruct Hb as [Hb1 Hb2].
    intros Hn. inversion Hn; subst. split; [lia|]. right. left. split; [reflexivity|].
    exists c1, c2, r2. split; [reflexivity|]. split; [|apply cont_high, Hb2].
    eapply between_high; [|exact Hb1]. destruct (utf8.byte c =? 224); lia. }
  destruct (Z.leb_spec (utf8.byte c) 244); [|discriminate].
  destruct r1 as [|c2 [|c3 r3]]; try discriminate.
  match goal with |- (if ?b then _ else _) = _ -> _ => destruct b eqn:Hb end;
    [|discriminate].
  apply andb_true_iff in Hb. destruct Hb as [Hb Hb3].
  apply andb_true_iff in Hb. destruct Hb as [Hb1 Hb2].
  intros Hn. inversion Hn; subst. split; [lia|]. right. right. split; [reflexivity|].
  exists c1, c2, c3, r3. split; [reflexivity|].
  split; [|split; apply cont_high; assumption].
  eapply between_high; [|exact Hb1]. destruct (utf8.byte c =? 240); lia.
Qed.

Lemma isSeparator_chunk (s esc : string) :
  json.isSeparator s = Some esc -> chunk esc.
Proof.
  unfold json.isSeparator. destruct s as [|c0 [|c1 [|c2 r]]]; try discriminate.
  destruct ((utf8.byte c0 =? 226) && (utf8.byte c1 =? 128)); [|discriminate].
  destruct (utf8.byte c2 =? 168).
  { intros H. inversion H; subst. eapply (chunk_u4 _ _ _ _ 2 0 2 8); reflexivity. }
  destruct (utf8.byte c2 =? 169); [|discriminate].
  intros H. inversion H; subst. eapply (chunk_u4 _ _ _ _ 2 0 2 9); reflexivity.
Qed.

(** The text the encoder writes for a string, followed by a quotation
    mark, is scanned as a string literal with that text. *)
Lemma scanString_appendString (src : string) :
  forall (copy drop : nat) (rest : string),
    (drop = 0%nat -> highPrefix copy src = true) ->
    (drop <> 0%nat -> copy = 0%nat) ->
    json.scanString json.InString (json.appendString copy drop src ++ String dquote rest)
    = Some (json.appendString copy drop src, rest).
Proof.
  induction src as [|c r IH]; intros copy drop rest Hhigh Hexcl.
  - cbn [json.appendString]. reflexivity.
  - cbn [json.appendString]. destruct drop as [|d].
    + destruct copy as [|k].
      * (* a fresh byte *)
        destruct (Z.ltb_spec (utf8.byte c) utf8.RuneSelf) as [Hlow|Hhi].
        { rewrite append_assoc, (chunk_escapeByte c Hlow), IH by (intros; auto; discriminate).
          cbn. rewrite append_nil_l || idtac. reflexivity. }
        unfold utf8.RuneSelf in Hhi.
        destruct (utf8.runeLen (String c r)) as [n|] eqn:Hlen.
        -- destruct (json.isSeparator (String c r)) as [esc|] eqn:Hsep.
           ++ rewrite append_assoc, (isSeparator_chunk _ _ Hsep), IH
                by (intros; auto; discriminate).
              reflexivity.
           ++ rewrite append_cons.
              pose proof (chunk_plain c ltac:(lia) ltac:(lia) ltac:(lia)) as Hc.
              specialize (Hc (json.appendString (n - 1) 0 r ++ String dquote rest)%string).
              rewrite append_cons, append_nil_l in Hc. rewrite Hc. clear Hc.
              rewrite IH; [reflexivity| |intros; congruence].
              intros _. apply runeLen_spec in Hlen.
              destruct Hlen as (_ & [(-> & c1 & r1 & -> & H1)
                                    |[(-> & c1 & c2 & r2 & -> & H1 & H2)
                                     |(-> & c1 & c2 & c3 & r3 & -> & H1 & H2 & H3)]]);
                cbn [highPrefix Nat.sub];
                repeat (apply andb_true_iff; split); try reflexivity;
                apply Z.leb_le; assumption.
        -- rewrite append_assoc.
           assert (Hch : chunk json.escapeFFFD) by (eapply (chunk_u4 _ _ _ _ 15 15 15 13); reflexivity).
           rewrite Hch, IH by (intros; auto; discriminate). reflexivity.
      * (* a byte of an encoding being copied *)
        specialize (Hhigh eq_refl). cbn [highPrefix] in Hhigh.
        apply andb_true_iff in Hhigh. destruct Hhigh as [Hc Hk].
        apply Z.leb_le in Hc.
        rewrite append_cons.
        pose proof (chunk_plain c ltac:(lia) ltac:(lia) ltac:(lia)) as Hch.
        specialize (Hch (json.appendString k 0 r ++ String dquote rest)%string).
        rewrite append_cons, append_nil_l in Hch. rewrite Hch. clear Hch.
        rewrite IH; [reflexivity|intros; assumption|intros; congruence].
    + (* a byte left out *)
      rewrite (Hexcl ltac:(discriminate)).
      apply IH; [intros; reflexivity|intros; reflexivity].
Qed.

Lemma scanString_quote (s rest : string) :
  json.scanString json.InString (json.quote s ++ String dquote rest)
  = Some (json.quote s, rest).
Proof.
  apply scanString_appendString; [intros; reflexivity|intros; reflexivity].
Qed.

(** ** Quoted strings are read back *)

Lemma fmap_String_append (c : ascii) (o : option string) :
  String c <$> o = append (String c "") <$> o.
Proof. destruct o; reflexivity. Qed.

Lemma uchunk_plain (c : ascii) :
  32 <= utf8.byte c < 128 -> utf8.byte c <> 34 -> utf8.byte c <> 92 ->
  uchunk (String c "") (String c "").
Proof.
  intros H1 H2 H3 rest. norm_append. cbn [json.unquoteFrom].
  destruct (Z.eqb_spec (utf8.byte c) 92); [contradiction|].
  destruct (Z.eqb_spec (utf8.byte c) 34); [contradiction|].
  destruct (Z.ltb_spec (utf8.byte c) 32); [lia|]. cbn [orb].
  destruct (Z.ltb_spec (utf8.byte c) utf8.RuneSelf) as [_|Hge];
    [|unfold utf8.RuneSelf in Hge; lia].
  apply fmap_String_append.
Qed.

Lemma uchunk_simple (e x : ascii) :
  utf8.byte e <> 117 -> json.simpleEscape e = Some x ->
  uchunk (String "\" (String e "")) (String x "").
Proof.
  intros He Hx rest. norm_append. cbn [json.unquoteFrom].
  change (utf8.byte "\" =? 92) with true. cbv iota.
  destruct (Z.eqb_spec (utf8.byte e) 117); [contradiction|].
  rewrite Hx. apply fmap_String_append.
Qed.

Lemma uchunk_u4 (h3 h2 h1 h0 : ascii) (a b c d : Z) :
  json.hexVal h3 = Some a -> json.hexVal h2 = Some b ->
  json.hexVal h1 = Some c -> json.hexVal h0 = Some d ->
  json.isSurrogate (a * 4096 + b * 256 + c * 16 + d) = false ->
  uchunk (json.escapeU h3 h2 h1 h0)
         (utf8.EncodeRune (a * 4096 + b * 256 + c * 16 + d)).
Proof.
  intros H3 H2 H1 H0 Hs rest. unfold json.escapeU. norm_append.
  cbn [json.unquoteFrom].
  change (utf8.byte "\" =? 92) with true. change (utf8.byte "u" =? 117) with true.
  cbv iota. unfold json.getu4. rewrite H3, H2, H1, H0.
  cbn [mbind option_bind]. rewrite Hs. reflexivity.
Qed.

Lemma uchunk_escapeByte (c : ascii) :
  utf8.byte c < 128 -> uchunk (json.escapeByte c) (String c "").
Proof.
  intros Hc. unfold json.escapeByte.
  pose proof (byte_range c) as Hr.
  destruct (Z.eqb_spec (utf8.byte c) 34) as [E|N34].
  { apply uchunk_simple; [lia|]. unfold json.simpleEscape. rewrite E. reflexivity. }
  destruct (Z.eqb_spec (utf8.byte c) 92) as [E|N92].
  { apply uchunk_simple; [lia|]. unfold json.simpleEscape. rewrite E. reflexivity. }
  cbn [orb].
  destruct (Z.eqb_spec (utf8.byte c) 8) as [E|].
  { rewrite <- (char_byte c), E. apply uchunk_simple; [discriminate|reflexivity]. }
  destruct (Z.eqb_spec (utf8.byte c) 12) as [E|].
  { rewrite <- (char_byte c), E. apply uchunk_simple; [discriminate|reflexivity]. }
  destruct (Z.eqb_spec (utf8.byte c) 10) as [E|].
  { rewrite <- (char_byte c), E. apply uchunk_simple; [discriminate|reflexivity]. }
  destruct (Z.eqb_spec (utf8.byte c) 13) as [E|].
  { rewrite <- (char_byte c), E. apply uchunk_simple; [discriminate|reflexivity]. }
  destruct (Z.eqb_spec (utf8.byte c) 9) as [E|].
  { rewrite <- (char_byte c), E. apply uchunk_simple; [discriminate|reflexivity]. }
  destruct ((utf8.byte c <? 32) || (utf8.byte c =? 60) || (utf8.byte c =? 62)
            || (utf8.byte c =? 38)) eqn:Hesc.
  - unfold json.escapeU00.
    pose proof (uchunk_u4 "0" "0" (json.hex (utf8.byte c / 16))
                  (json.hex (utf8.byte c mod 16)) 0 0
                  (utf8.byte c / 16) (utf8.byte c mod 16)
                  eq_refl eq_refl
                  (hexVal_hex (utf8.byte c / 16) ltac:(divlia))
                  (hexVal_hex (utf8.byte c mod 16) ltac:(divlia))) as Hu.
    replace (0 * 4096 + 0 * 256 + utf8.byte c / 16 * 16 + utf8.byte c mod 16)
      with (utf8.byte c) in Hu by divlia.
    assert (Hns : json.isSurrogate (utf8.byte c) = false).
    { unfold json.isSurrogate. destruct (Z.leb_spec 55296 (utf8.byte c)); [lia|reflexivity]. }
    specialize (Hu Hns).
    assert (Henc : utf8.EncodeRune (utf8.byte c) = String c "").
    { unfold utf8.EncodeRune.
      destruct (Z.ltb_spec (utf8.byte c) 0); [lia|].
      destruct (Z.ltb_spec 1114111 (utf8.byte c)); [lia|].
      destruct (Z.leb_spec 55296 (utf8.byte c)); [lia|]. cbn [orb andb].
      destruct (Z.ltb_spec (utf8.byte c) 128); [|lia].
      rewrite char_byte. reflexivity. }
    rewrite Henc in Hu. exact Hu.
  - apply uchunk_plain; try assumption.
    apply orb_false_iff in Hesc. destruct Hesc as [Hesc _].
    apply orb_false_iff in Hesc. destruct Hesc as [Hesc _].
    apply orb_false_iff in Hesc. destruct Hesc as [Hesc _].
    apply Z.ltb_ge in Hesc. lia.
Qed.

(** The encoding [s] starts with does not depend on what follows it. *)
Lemma runeLen_copied (c : ascii) (r : string) (n : nat) :
  utf8.runeLen (String c r) = Some n ->
  utf8.runeLen (String c (json.appendString (n - 1) 0 r)) = Some n.
Proof.
  unfold utf8.runeLen. destruct r as [|c1 r1]; [discriminate|].
  destruct (Z.ltb_spec (utf8.byte c) 194); [discriminate|].
  destruct (Z.leb_spec (utf8.byte c) 223).
  { destruct (utf8.cont c1) eqn:H1; [|discriminate].
    intros Hn. inversion Hn; subst. cbn [Nat.sub json.appendString].
    rewrite H1. reflexivity. }
  destruct (Z.leb_spec (utf8.byte c) 239).
  { destruct r1 as [|c2 r2]; [discriminate|].
    match goal with |- (if ?b then _ else _) = _ -> _ => destruct b eqn:Hb end;
      [|discriminate].
    intros Hn. inversion Hn; subst. cbn [Nat.sub json.appendString].
    rewrite Hb. reflexivity. }
  destruct (Z.leb_spec (utf8.byte c) 244); [|discriminate].
  destruct r1 as [|c2 [|c3 r3]]; try discriminate.
  match goal with |- (if ?b then _ else _) = _ -> _ => destruct b eqn:Hb end;
    [|discriminate].
  intros Hn. inversion Hn; subst. cbn [Nat.sub json.appendString].
  rewrite Hb. reflexivity.
Qed.

Lemma isSeparator_spec (s esc : string) :
  json.isSeparator s = Some esc ->
  exists r, utf8.runeLen s = Some 3%nat
            /\ ((s = String (utf8.char 226) (String (utf8.char 128) (String (utf8.char 168) r))
                 /\ esc = json.escape2028)
                \/ (s = String (utf8.char 226) (String (utf8.char 128) (String (utf8.char 169) r))
                    /\ esc = json.escape2029)).
Proof.
  unfold json.isSeparator. destruct s as [|c0 [|c1 [|c2 r]]]; try discriminate.
  destruct (Z.eqb_spec (utf8.byte c0) 226) as [E0|]; [|discriminate].
  destruct (Z.eqb_spec (utf8.byte c1) 128) as [E1|]; [|discriminate].
  cbn [andb].
  destruct (Z.eqb_spec (utf8.byte c2) 168) as [E2|].
  { intros H. inversion H; subst. exists r.
    rewrite <- (char_byte c0), <- (char_byte c1), <- (char_byte c2), E0, E1, E2.
    split; [reflexivity|]. left. split; reflexivity. }
  destruct (Z.eqb_spec (utf8.byte c2) 169) as [E2|]; [|discriminate].
  intros H. inversion H; subst. exists r.
  rewrite <- (char_byte c0), <- (char_byte c1), <- (char_byte c2), E0, E1, E2.
  split; [reflexivity|]. right. split; reflexivity.
Qed.

(** What the encoder writes for a well-formed string stands for that
    string. *)
Lemma unquoteFrom_appendString (src : string) :
  forall copy drop : nat,
    copy = 0%nat \/ drop = 0%nat ->
    utf8.validFrom (copy + drop) src = true ->
    json.unquoteFrom copy 0 (json.appendString copy drop src)
    = Some (dropStr drop src).
Proof.
  induction src as [|c r IH]; intros copy drop Hexcl Hvalid.
  - destruct drop; reflexivity.
  - destruct drop as [|d].
    + destruct copy as [|k].
      * (* a fresh byte *)
        cbn [json.appendString dropStr]. cbn [Nat.add utf8.validFrom] in Hvalid.
        destruct (Z.ltb_spec (utf8.byte c) utf8.RuneSelf) as [Hlow|Hhi].
        { rewrite (uchunk_escapeByte c Hlow), (IH 0%nat 0%nat) by auto. reflexivity. }
        unfold utf8.RuneSelf in Hhi.
        destruct (utf8.runeLen (String c r)) as [n|] eqn:Hlen; [|discriminate].
        destruct (json.isSeparator (String c r)) as [esc|] eqn:Hsep.
        -- destruct (isSeparator_spec _ _ Hsep) as (r' & Hthree & Hcases).
           rewrite Hthree in Hlen. inversion Hlen; subst n. clear Hlen.
           cbn [Nat.sub] in Hvalid.
           destruct Hcases as [[Hs ->]|[Hs ->]]; inversion Hs; subst.
           ++ rewrite (uchunk_u4 "2" "0" "2" "8" 2 0 2 8) by reflexivity.
              rewrite (IH 0%nat 2%nat) by auto. reflexivity.
           ++ rewrite (uchunk_u4 "2" "0" "2" "9" 2 0 2 9) by reflexivity.
              rewrite (IH 0%nat 2%nat) by auto. reflexivity.
        -- cbn [json.unquoteFrom].
           destruct (Z.eqb_spec (utf8.byte c) 92); [lia|].
           destruct (Z.eqb_spec (utf8.byte c) 34); [lia|].
           destruct (Z.ltb_spec (utf8.byte c) 32); [lia|]. cbn [orb].
           destruct (Z.ltb_spec (utf8.byte c) utf8.RuneSelf) as [Hlt|_];
             [unfold utf8.RuneSelf in Hlt; lia|].
           rewrite (runeLen_copied c r n Hlen).
           rewrite (IH (n - 1)%nat 0%nat);
             [reflexivity|right; reflexivity|rewrite Nat.add_0_r; exact Hvalid].
      * (* a byte of an encoding being copied *)
        cbn [json.appendString json.unquoteFrom dropStr].
        cbn [Nat.add utf8.validFrom] in Hvalid.
        rewrite (IH k 0%nat); [reflexivity|right; reflexivity|exact Hvalid].
    + (* a byte left out *)
      destruct Hexcl as [->|Hd]; [|discriminate].
      cbn [json.appendString dropStr]. cbn [Nat.add utf8.validFrom] in Hvalid.
      apply (IH 0%nat d); [left; reflexivity|exact Hvalid].
Qed.

Lemma unquote_quote (s : string) :
  utf8.ValidString s = true -> json.unquote (json.quote s) = Some s.
Proof.
  intros H. apply (unquoteFrom_appendString s 0 0); [left; reflexivity|exact H].
Qed.

(** ** Numbers *)

Lemma byte_digit (d : Z) : 0 <= d <= 9 -> utf8.byte (time.digit d) = 48 + d.
Proof.
  intros H. unfold utf8.byte, time.digit. rewrite N_ascii_embedding by lia. lia.
Qed.

Lemma isDigit_digit (d : Z) : 0 <= d <= 9 -> json.isDigit (time.digit d) = true.
Proof.
  intros H. unfold json.isDigit. rewrite byte_digit by exact H.
  apply andb_true_iff. split; apply Z.leb_le; lia.
Qed.

Lemma digitsValue_app (a b : string) (v : Z) :
  json.digitsValue v (a ++ b) = json.digitsValue (json.digitsValue v a) b.
Proof.
  revert v. induction a as [|c a IH]; intros v; [reflexivity|].
  rewrite append_cons. cbn [json.digitsValue]. apply IH.
Qed.

Lemma allDigits_app (a b : string) :
  json.allDigits (a ++ b) = json.allDigits a && json.allDigits b.
Proof.
  induction a as [|c a IH]; [reflexivity|].
  rewrite append_cons. cbn [json.allDigits]. rewrite IH, andb_assoc. reflexivity.
Qed.

(** The digits of a positive number: a first digit that is not zero, then
    digits, and their value is the number. *)
Lemma posDigits_spec (fuel : nat) :
  forall (n : Z) (acc : string),
    0 < n < 2 ^ Z.of_nat fuel ->
    exists c ds,
      json.posDigits fuel n acc = String c (ds ++ acc)
      /\ 49 <= utf8.byte c <= 57
      /\ json.allDigits ds = true
      /\ json.digitsValue 0 (String c ds) = n.
Proof.
  induction fuel as [|fuel IH]; intros n acc Hn; [simpl in Hn; lia|].
  cbn [json.posDigits].
  destruct (Z.ltb_spec n 10) as [Hlt|Hge].
  - exists (time.digit n), "". rewrite append_nil_l.
    split; [reflexivity|]. rewrite byte_digit by lia.
    split; [lia|]. split; [reflexivity|].
    cbn [json.digitsValue]. rewrite byte_digit by lia. lia.
  - assert (Hpow : 2 ^ Z.of_nat (S fuel) = 2 * 2 ^ Z.of_nat fuel)
      by (rewrite Nat2Z.inj_succ, Z.pow_succ_r; lia).
    destruct (IH (n / 10) (String (time.digit (n mod 10)) acc))
      as (c & ds & Heq & Hc & Hds & Hval); [divlia|].
    exists c, (ds ++ String (time.digit (n mod 10)) "")%string.
    rewrite Heq, append_assoc. split; [reflexivity|]. split; [exact Hc|].
    split.
    + rewrite allDigits_app, Hds. cbn [json.allDigits andb].
      rewrite isDigit_digit by divlia. reflexivity.
    + change (String c (ds ++ String (time.digit (n mod 10)) ""))
        with (String c ds ++ String (time.digit (n mod 10)) "")%string.
      rewrite digitsValue_app, Hval. cbn [json.digitsValue].
      rewrite byte_digit by divlia. divlia.
Qed.

Lemma spanDigits_app (ds rest : string) :
  json.allDigits ds = true ->
  (forall c r, rest = String c r -> json.isDigit c = false) ->
  json.spanDigits (ds ++ rest) = (ds, rest).
Proof.
  intros Hds Hrest. induction ds as [|c ds IH].
  - rewrite append_nil_l. destruct rest as [|c r]; [reflexivity|].
    cbn [json.spanDigits]. rewrite (Hrest c r eq_refl). reflexivity.
  - cbn [json.allDigits] in Hds. apply andb_true_iff in Hds. destruct Hds as [Hc Hds].
    rewrite append_cons. cbn [json.spanDigits]. rewrite Hc, (IH Hds). reflexivity.
Qed.

(** The shape of what [formatInt] writes. *)
Lemma formatInt_shape (n : Z) :
  n = 0 /\ json.formatInt n = "0"
  \/ exists c ds,
       49 <= utf8.byte c <= 57 /\ json.allDigits ds = true
       /\ ((0 < n /\ json.formatInt n = String c ds
            /\ json.digitsValue 0 (String c ds) = n)
           \/ (n < 0 /\ json.formatInt n = String "-" (String c ds)
               /\ json.digitsValue 0 (String c ds) = - n)).
Proof.
  unfold json.formatInt.
  destruct (Z.eqb_spec n 0) as [->|Hne]; [left; split; reflexivity|]. right.
  destruct (Z.ltb_spec n 0) as [Hneg|Hpos].
  - destruct (posDigits_spec (S (Z.to_nat (Z.log2 (- n)))) (- n) "")
      as (c & ds & Heq & Hc & Hds & Hval).
    { pose proof (Z.log2_spec (- n) ltac:(lia)) as Hl.
      pose proof (Z.log2_nonneg (- n)).
      rewrite Nat2Z.inj_succ, Z2Nat.id by lia. lia. }
    rewrite append_nil_r in Heq.
    exists c, ds. split; [exact Hc|]. split; [exact Hds|]. right.
    split; [exact Hneg|]. rewrite Heq. split; [reflexivity|exact Hval].
  - destruct (posDigits_spec (S (Z.to_nat (Z.log2 n))) n "")
      as (c & ds & Heq & Hc & Hds & Hval).
    { pose proof (Z.log2_spec n ltac:(lia)) as Hl.
      pose proof (Z.log2_nonneg n).
      rewrite Nat2Z.inj_succ, Z2Nat.id by lia. lia. }
    rewrite append_nil_r in Heq.
    exists c, ds. split; [exact Hc|]. split; [exact Hds|]. left.
    split; [lia|]. rewrite Heq. split; [reflexivity|exact Hval].
Qed.

Lemma delimited_not_digit (rest : string) :
  delimited rest = true ->
  forall c r, rest = String c r -> json.isDigit c = false.
Proof.
  intros H c r ->. cbn [delimited] in H.
  repeat (apply andb_true_iff in H; destruct H as [H _]).
  apply negb_true_iff in H. exact H.
Qed.

(** After the integer part, nothing more of a number is found before a
    delimiter. *)
Lemma scanNumber_tail (sign int rest : string) :
  delimited rest = true ->
  ('(frac, s) ← match rest with
                | String c rest0 =>
                    if utf8.byte c =? 46 then
                      let '(ds, rest') := json.spanDigits rest0 in
                      if String.eqb ds "" then None else Some (String c ds, rest')
                    else Some ("", rest)
                | EmptyString => Some ("", rest)
                end;
   '(exp, s) ← match s with
               | String c rest0 =>
                   if (utf8.byte c =? 101) || (utf8.byte c =? 69) then
                     let '(sg, rest1) :=
                       match rest0 with
                       | String c' rest' =>
                           if (utf8.byte c' =? 43) || (utf8.byte c' =? 45)
                           then (String c' EmptyString, rest') else ("", rest0)
                       | EmptyString => ("", rest0)
                       end in
                     let '(ds, rest') := json.spanDigits rest1 in
                     if String.eqb ds "" then None
                     else Some (String c (sg ++ ds), rest')
                   else Some ("", s)
               | EmptyString => Some ("", s)
               end;
   Some (sign ++ int ++ frac ++ exp, s))
  = Some (sign ++ int, rest)%string.
Proof.
  intros H. destruct rest as [|c r].
  - cbn. rewrite !append_nil_r. reflexivity.
  - cbn [delimited] in H.
    apply andb_true_iff in H. destruct H as [H H69].
    apply andb_true_iff in H. destruct H as [H H101].
    apply andb_true_iff in H. destruct H as [_ H46].
    apply negb_true_iff in H46, H101, H69.
    rewrite H46. cbn [mbind option_bind]. rewrite H101, H69. cbn.
    rewrite !append_nil_r. reflexivity.
Qed.

Lemma scanNumber_formatInt (n : Z) (rest : string) :
  delimited rest = true ->
  json.scanNumber (json.formatInt n ++ rest) = Some (json.formatInt n, rest).
Proof.
  intros Hrest. pose proof (delimited_not_digit rest Hrest) as Hnd.
  destruct (formatInt_shape n) as [[-> ->]|(c & ds & Hc & Hds & Hcases)].
  - unfold json.scanNumber. norm_append.
    change (utf8.byte "0" =? 45) with false. cbv iota.
    change (utf8.byte "0" =? 48) with true. cbv iota.
    cbn [mbind option_bind].
    apply (scanNumber_tail "" "0" rest Hrest).
  - assert (Hd : json.isDigit c = true)
      by (unfold json.isDigit; apply andb_true_iff; split; apply Z.leb_le; lia).
    destruct Hcases as [(_ & -> & _)|(_ & -> & _)].
    + unfold json.scanNumber. norm_append.
      destruct (Z.eqb_spec (utf8.byte c) 45); [lia|].
      destruct (Z.eqb_spec (utf8.byte c) 48); [lia|].
      rewrite Hd, (spanDigits_app ds rest Hds Hnd).
      cbn [mbind option_bind json.consFst fst snd].
      apply (scanNumber_tail "" (String c ds) rest Hrest).
    + unfold json.scanNumber. norm_append.
      change (utf8.byte "-" =? 45) with true. cbv iota.
      destruct (Z.eqb_spec (utf8.byte c) 48); [lia|].
      rewrite Hd, (spanDigits_app ds rest Hds Hnd).
      cbn [mbind option_bind json.consFst fst snd].
      apply (scanNumber_tail "-" (String c ds) rest Hrest).
Qed.

Lemma convertNumber_formatInt (n : Z) :
  - 2 ^ 53 <= n <= 2 ^ 53 -> json.convertNumber (json.formatInt n) = Ok n.
Proof.
  intros Hn.
  destruct (formatInt_shape n) as [[-> ->]|(c & ds & Hc & Hds & Hcases)];
    [reflexivity|].
  assert (Hd : json.isDigit c = true)
    by (unfold json.isDigit; apply andb_true_iff; split; apply Z.leb_le; lia).
  destruct Hcases as [(Hpos & -> & Hval)|(Hneg & -> & Hval)].
  - unfold json.convertNumber.
    destruct (Z.eqb_spec (utf8.byte c) 45); [lia|].
    cbn [json.allDigits]. rewrite Hd, Hds, Hval. cbn [andb].
    destruct (Z.leb_spec n (2 ^ 53)); [reflexivity|lia].
  - unfold json.convertNumber.
    change (utf8.byte "-" =? 45) with true. cbv iota.
    cbn [json.allDigits]. rewrite Hd, Hds, Hval. cbn [andb negb String.eqb].
    destruct (Z.ltb_spec 0 (- n)); [|lia].
    destruct (Z.leb_spec (- n) (2 ^ 53)); [|lia].
    cbn [andb]. f_equal. lia.
Qed.

(** The first byte of a number literal is a minus sign or a digit. *)
Lemma scanNumber_head (c : ascii) (s : string) :
  json.scanNumber (String c s) <> None ->
  utf8.byte c = 45 \/ 48 <= utf8.byte c <= 57.
Proof.
  unfold json.scanNumber.
  destruct (Z.eqb_spec (utf8.byte c) 45) as [E|N]; [intros _; left; exact E|].
  destruct (Z.eqb_spec (utf8.byte c) 48) as [E|N']; [intros _; right; lia|].
  destruct (json.isDigit c) eqn:Hd.
  - intros _. right. unfold json.isDigit in Hd.
    apply andb_true_iff in Hd. destruct Hd. lia.
  - cbn. intros H. contradiction.
Qed.

(** ** Maps in key order *)

Lemma insertKey_last {A} (k : string) (v : A) (acc : list (string * A)) :
  Forall (fun kv => String.ltb kv.1 k = true) acc ->
  json.insertKey k v acc = (acc ++ [(k, v)])%list.
Proof.
  induction 1 as [|[k' v'] acc Hk _ IH]; [reflexivity|].
  cbn [json.insertKey]. simpl in Hk. unfold String.ltb in Hk.
  rewrite String.compare_antisym.
  destruct (String.compare k' k); try discriminate.
  cbn [CompOpp]. rewrite IH. reflexivity.
Qed.

Lemma insertAll_ascending {A} (l : list (string * A)) :
  forall acc : list (string * A),
    Forall (fun kv => Forall (fun kv' => String.ltb kv.1 kv'.1 = true) l) acc ->
    json.ascending (map fst l) = true ->
    json.insertAll acc l = (acc ++ l)%list.
Proof.
  unfold json.insertAll.
  induction l as [|[k v] l IH]; intros acc Hacc Hasc.
  - rewrite app_nil_r. reflexivity.
  - cbn [fold_left fst snd]. cbn [map json.ascending fst] in Hasc.
    apply andb_true_iff in Hasc. destruct Hasc as [Hk Hasc].
    rewrite insertKey_last.
    + rewrite IH; [rewrite <- app_assoc; reflexivity| |exact Hasc].
      apply Forall_app. split.
      * eapply Forall_impl; [exact Hacc|]. intros kv H. inversion H; assumption.
      * constructor; [|constructor]. cbn [fst].
        rewrite forallb_forall in Hk. apply Forall_forall. intros [k' v'] Hin.
        apply Hk. apply list_elem_of_In in Hin. apply in_map_iff.
        exists (k', v'). split; [reflexivity|exact Hin].
    + eapply Forall_impl; [exact Hacc|]. intros kv H. inversion H; assumption.
Qed.

Lemma insertAll_nil_ascending {A} (l : list (string * A)) :
  json.ascending (map fst l) = true -> json.insertAll [] l = l.
Proof. intros H. apply (insertAll_ascending l []); [constructor|exact H]. Qed.

(** ** JSON text is parsed back *)

Lemma value_nested_ind (P : json.Value -> Prop) :
  P json.JNull -> (forall b, P (json.JBool b)) -> (forall lit, P (json.JNumber lit)) ->
  (forall raw, P (json.JString raw)) ->
  (forall l, Forall P l -> P (json.JArray l)) ->
  (forall m, Forall (fun kx => P kx.2) m -> P (json.JObject m)) ->
  forall v, P v.
Proof.
  intros HNull HBool HNum HStr HArr HObj.
  fix IH 1. intros [| b | lit | raw | l | m].
  - exact HNull.
  - apply HBool.
  - apply HNum.
  - apply HStr.
  - apply HArr. induction l as [|x l IHl]; constructor; [apply IH|exact IHl].
  - apply HObj. induction m as [|[k x] m IHm]; constructor; [apply IH|exact IHm].
Qed.

Lemma print_opens (v : json.Value) : wellFormed v -> opens (print v).
Proof.
  intros Hwf. destruct Hwf as [| b | lit Hlit | raw _ | l _ | m _].
  - exists "n"%char, "ull". repeat split; discriminate.
  - destruct b; [exists "t"%char, "rue"|exists "f"%char, "alse"];
      repeat split; discriminate.
  - cbn [print]. pose proof (Hlit "" eq_refl) as H. rewrite append_nil_r in H.
    destruct lit as [|c s]; [discriminate|].
    assert (Hh : json.scanNumber (String c s) <> None) by congruence.
    apply scanNumber_head in Hh. exists c, s. split; [reflexivity|].
    unfold json.isSpace.
    destruct Hh as [E|Hd].
    + rewrite E. repeat split; try reflexivity; lia.
    + split; [|lia].
      destruct (Z.eqb_spec (utf8.byte c) 32); [lia|].
      destruct (Z.eqb_spec (utf8.byte c) 9); [lia|].
      destruct (Z.eqb_spec (utf8.byte c) 13); [lia|].
      destruct (Z.eqb_spec (utf8.byte c) 10); [lia|]. reflexivity.
  - cbn [print]. eexists _, _. split; [reflexivity|]. repeat split; discriminate.
  - cbn [print]. exists "["%char. eexists. split; [reflexivity|].
    repeat split; discriminate.
  - cbn [print]. exists "{"%char. eexists. split; [reflexivity|].
    repeat split; discriminate.
Qed.

Lemma skipWS_opens (s rest : string) :
  opens s -> json.skipWS (s ++ rest) = (s ++ rest)%string.
Proof.
  intros (c & s' & -> & Hc & _). rewrite append_cons. cbn [json.skipWS].
  rewrite Hc. reflexivity.
Qed.

(** The elements of an array, after the opening bracket. *)
Lemma parseElements_print (l : list json.Value) :
  Forall (fun x => wellFormed x /\
            forall fuel rest, (weight x <= fuel)%nat -> delimited rest = true ->
              json.parseValue fuel (print x ++ rest) = Some (x, rest)) l ->
  l <> [] ->
  forall fuel rest,
    (list_sum (map (fun x => S (weight x)) l) <= fuel)%nat ->
    json.parseElements fuel (json.join "," (map print l) ++ String "]" rest)
    = Some (l, rest).
Proof.
  induction 1 as [|x l [Hwf Hx] Hl IH]; intros Hne fuel rest Hfuel; [contradiction|].
  change (S (weight x) + list_sum (map (fun x => S (weight x)) l) <= fuel)%nat in Hfuel.
  destruct fuel as [|fuel]; [lia|]. cbn [json.parseElements].
  destruct l as [|y l].
  - cbn [map json.join].
    rewrite (Hx fuel (String "]" rest)) by (reflexivity || lia).
    cbn [mbind option_bind]. reflexivity.
  - change (json.join "," (map print (x :: y :: l)))
      with (print x ++ "," ++ json.join "," (map print (y :: l)))%string.
    rewrite !append_assoc. norm_append.
    rewrite (Hx fuel) by (reflexivity || lia).
    cbn [mbind option_bind json.skipWS].
    change (json.isSpace ",") with false. cbv iota.
    change (utf8.byte "," =? 44) with true. cbv iota.
    rewrite IH by (discriminate || lia). reflexivity.
Qed.

(** The members of an object, after the opening brace. *)
Lemma parseMembers_print (m : list (string * json.Value)) :
  Forall (fun kx => (literalText kx.1 /\ wellFormed kx.2) /\
            forall fuel rest, (weight kx.2 <= fuel)%nat -> delimited rest = true ->
              json.parseValue fuel (print kx.2 ++ rest) = Some (kx.2, rest)) m ->
  m <> [] ->
  forall fuel rest,
    (list_sum (map (fun kx => S (weight kx.2)) m) <= fuel)%nat ->
    json.parseMembers fuel
      (json.join ","
         (map (fun kx => String dquote (kx.1 ++ String dquote ":") ++ print kx.2) m)
       ++ String "}" rest)
    = Some (m, rest).
Proof.
  induction 1 as [|[k x] m [[Hk Hwf] Hx] Hm IH]; intros Hne fuel rest Hfuel;
    [contradiction|].
  change (S (weight x) + list_sum (map (fun kx => S (weight kx.2)) m) <= fuel)%nat in Hfuel.
  cbn [fst snd] in *.
  destruct fuel as [|fuel]; [lia|]. cbn [json.parseMembers].
  destruct m as [|[k' y] m].
  - cbn [map json.join fst snd]. rewrite !append_assoc. norm_append.
    cbn [json.skipWS]. change (json.isSpace dquote) with false. cbv iota.
    change (utf8.byte dquote =? 34) with true. cbv iota.
    rewrite append_assoc. rewrite append_cons. rewrite (Hk _).
    cbn [mbind option_bind]. norm_append.
    cbn [json.skipWS]. change (json.isSpace ":") with false. cbv iota.
    change (utf8.byte ":" =? 58) with true. cbv iota.
    rewrite (Hx fuel (String "}" rest)) by (reflexivity || lia).
    cbn [mbind option_bind]. reflexivity.
  - change (json.join "," (map (fun kx => String dquote (kx.1 ++ String dquote ":") ++ print kx.2)
                             ((k, x) :: (k', y) :: m)))
      with ((String dquote (k ++ String dquote ":") ++ print x) ++ ","
            ++ json.join "," (map (fun kx => String dquote (kx.1 ++ String dquote ":") ++ print kx.2)
                                ((k', y) :: m)))%string.
    rewrite !append_assoc. norm_append.
    cbn [json.skipWS]. change (json.isSpace dquote) with false. cbv iota.
    change (utf8.byte dquote =? 34) with true. cbv iota.
    rewrite append_assoc. rewrite append_cons. rewrite (Hk _).
    cbn [mbind option_bind]. norm_append.
    cbn [json.skipWS]. change (json.isSpace ":") with false. cbv iota.
    change (utf8.byte ":" =? 58) with true. cbv iota.
    rewrite (Hx fuel) by (reflexivity || lia).
    cbn [mbind option_bind json.skipWS].
    change (json.isSpace ",") with false. cbv iota.
    change (utf8.byte "," =? 44) with true. cbv iota.
    rewrite IH by (discriminate || lia). reflexivity.
Qed.

Lemma delimited_closing (c : ascii) (rest : string) :
  utf8.byte c = 44 \/ utf8.byte c = 93 \/ utf8.byte c = 125 ->
  delimited (String c rest) = true.
Proof.
  intros H. cbn [delimited]. unfold json.isDigit.
  destruct H as [E|[E|E]]; rewrite E; reflexivity.
Qed.

(** The text of a well-formed tree, followed by the end of the text or by
    a comma, bracket or brace, is parsed as the tree. *)
Lemma parseValue_print (v : json.Value) :
  wellFormed v ->
  forall fuel rest,
    (weight v <= fuel)%nat -> delimited rest = true ->
    json.parseValue fuel (print v ++ rest) = Some (v, rest).
Proof.
  induction v as [| b | lit | raw | l IH | m IH] using value_nested_ind;
    intros Hwf fuel rest Hfuel Hrest;
    (destruct fuel as [|fuel]; [cbn [weight] in Hfuel; lia|]).
  - reflexivity.
  - destruct b; reflexivity.
  - inversion Hwf as [| | lit' Hlit | | |]; subst.
    destruct (print_opens _ Hwf) as (c & s & Heq & Hsp & _).
    cbn [print] in *. subst lit.
    pose proof (Hlit "" eq_refl) as Hh. rewrite append_nil_r in Hh.
    assert (Hhd : json.scanNumber (String c s) <> None) by congruence.
    apply scanNumber_head in Hhd.
    cbn [json.parseValue]. rewrite append_cons. cbn [json.skipWS]. rewrite Hsp.
    rewrite <- append_cons, (Hlit rest Hrest).
    destruct (Z.eqb_spec (utf8.byte c) 123); [lia|].
    destruct (Z.eqb_spec (utf8.byte c) 91); [lia|].
    destruct (Z.eqb_spec (utf8.byte c) 34); [lia|].
    destruct (Z.eqb_spec (utf8.byte c) 116); [lia|].
    destruct (Z.eqb_spec (utf8.byte c) 102); [lia|].
    destruct (Z.eqb_spec (utf8.byte c) 110); [lia|].
    reflexivity.
  - inversion Hwf as [| | | raw' Hraw | |]; subst.
    cbn [print json.parseValue]. norm_append. cbn [json.skipWS].
    change (json.isSpace dquote) with false. cbv iota.
    change (utf8.byte dquote =? 123) with false.
    change (utf8.byte dquote =? 91) with false.
    change (utf8.byte dquote =? 34) with true. cbv iota.
    rewrite append_assoc, append_cons, append_nil_l, (Hraw rest). reflexivity.
  - inversion Hwf as [| | | | l' Hl |]; subst.
    cbn [print json.parseValue]. rewrite !append_assoc. norm_append.
    cbn [json.skipWS]. change (json.isSpace "[") with false. cbv iota.
    change (utf8.byte "[" =? 123) with false.
    change (utf8.byte "[" =? 91) with true. cbv iota.
    destruct l as [|x l]; [reflexivity|].
    assert (Hall : Forall (fun x => wellFormed x /\
              forall fuel rest, (weight x <= fuel)%nat -> delimited rest = true ->
                json.parseValue fuel (print x ++ rest) = Some (x, rest)) (x :: l)).
    { apply Forall_forall. intros y Hy.
      rewrite Forall_forall in IH, Hl. split; [apply Hl, Hy|].
      intros f r. apply IH; [exact Hy|apply Hl, Hy]. }
    destruct (print_opens x ltac:(inversion Hl; assumption)) as (c & s & Heq & Hsp & H93 & _).
    assert (Hjoin : exists s', json.join "," (map print (x :: l)) = String c s').
    { cbn [map json.join]. rewrite Heq. destruct (map print l); eexists; reflexivity. }
    destruct Hjoin as (s' & Hjoin).
    rewrite (parseElements_print (x :: l) Hall ltac:(discriminate) fuel rest)
      by (cbn [weight] in Hfuel; lia).
    rewrite Hjoin, append_cons. cbn [json.skipWS]. rewrite Hsp.
    destruct (Z.eqb_spec (utf8.byte c) 93); [contradiction|]. reflexivity.
  - inversion Hwf as [| | | | | m' Hm]; subst.
    cbn [print json.parseValue]. rewrite !append_assoc. norm_append.
    cbn [json.skipWS]. change (json.isSpace "{") with false. cbv iota.
    change (utf8.byte "{" =? 123) with true. cbv iota.
    destruct m as [|[k x] m]; [reflexivity|].
    assert (Hall : Forall (fun kx => (literalText kx.1 /\ wellFormed kx.2) /\
              forall fuel rest, (weight kx.2 <= fuel)%nat -> delimited rest = true ->
                json.parseValue fuel (print kx.2 ++ rest) = Some (kx.2, rest)) ((k, x) :: m)).
    { apply Forall_forall. intros y Hy.
      rewrite Forall_forall in IH, Hm. split; [apply Hm, Hy|].
      intros f r. apply IH; [exact Hy|apply Hm, Hy]. }
    rewrite (parseMembers_print ((k, x) :: m) Hall ltac:(discriminate) fuel rest)
      by (cbn [weight] in Hfuel; lia).
    assert (Hjoin : exists s',
      json.join "," (map (fun kx => String dquote (kx.1 ++ String dquote ":") ++ print kx.2)
                       ((k, x) :: m)) = String dquote s').
    { cbn [map json.join fst snd]. norm_append.
      destruct (map _ m); eexists; norm_append; reflexivity. }
    destruct Hjoin as (s' & Hjoin).
    rewrite Hjoin, append_cons. cbn [json.skipWS].
    change (json.isSpace dquote) with false. cbv iota.
    change (utf8.byte dquote =? 125) with false. cbv iota. reflexivity.
Qed.

Lemma length_append' (a b : string) :
  String.length (a ++ b) = (String.length a + String.length b)%nat.
Proof.
  induction a as [|x a IH]; [reflexivity|].
  rewrite append_cons. simpl. rewrite IH. reflexivity.
Qed.

Lemma length_join (l : list string) :
  (list_sum (map (fun x => S (String.length x)) l)
   <= S (String.length (json.join "," l)))%nat.
Proof.
  induction l as [|x l IH]; [simpl; lia|].
  change (list_sum (map (fun x => S (String.length x)) (x :: l)))
    with (S (String.length x) + list_sum (map (fun x => S (String.length x)) l))%nat.
  destruct l as [|y l].
  - simpl. lia.
  - change (json.join "," (x :: y :: l)) with (x ++ "," ++ json.join "," (y :: l))%string.
    rewrite !length_append'. change (String.length ",") with 1%nat. lia.
Qed.

Lemma list_sum_le {A} (f g : A -> nat) (l : list A) :
  Forall (fun x => (f x <= g x)%nat) l ->
  (list_sum (map f l) <= list_sum (map g l))%nat.
Proof.
  induction 1 as [|x l Hx _ IH]; [reflexivity|].
  change (f x + list_sum (map f l) <= g x + list_sum (map g l))%nat. lia.
Qed.

(** The text of a tree is at least as long as the fuel it needs. *)
Lemma weight_length (v : json.Value) :
  wellFormed v -> (weight v <= String.length (print v))%nat.
Proof.
  induction v as [| b | lit | raw | l IH | m IH] using value_nested_ind; intros Hwf.
  - simpl. lia.
  - destruct b; simpl; lia.
  - destruct (print_opens _ Hwf) as (c & s & Heq & _). rewrite Heq. simpl. lia.
  - simpl. lia.
  - inversion Hwf as [| | | | l' Hl |]; subst.
    cbn [print weight]. rewrite !length_append'.
    pose proof (length_join (map print l)) as Hj. rewrite map_map in Hj.
    assert (Hle : (list_sum (map (fun x => S (weight x)) l)
                   <= list_sum (map (fun x => S (String.length (print x))) l))%nat).
    { apply list_sum_le. apply Forall_forall. intros x Hx.
      rewrite Forall_forall in IH, Hl. specialize (IH x Hx (Hl x Hx)). lia. }
    change (String.length "[") with 1%nat. change (String.length "]") with 1%nat. lia.
  - inversion Hwf as [| | | | | m' Hm]; subst.
    cbn [print weight]. rewrite !length_append'.
    pose proof (length_join (map (fun kx => String dquote (kx.1 ++ String dquote ":") ++ print kx.2) m)) as Hj.
    rewrite map_map in Hj.
    assert (Hle : (list_sum (map (fun kx => S (weight kx.2)) m)
                   <= list_sum (map (fun kx => S (String.length
                          (String dquote (kx.1 ++ String dquote ":") ++ print kx.2))) m))%nat).
    { apply list_sum_le. apply Forall_forall. intros [k x] Hx.
      rewrite Forall_forall in IH, Hm.
      pose proof (IH _ Hx (proj2 (Hm _ Hx))) as Hw. cbn [fst snd] in *.
      rewrite length_append'. lia. }
    change (String.length "{") with 1%nat. change (String.length "}") with 1%nat. lia.
Qed.

(** The text of a well-formed tree parses to the tree. *)
Lemma parse_print (v : json.Value) : wellFormed v -> json.parse (print v) = Ok v.
Proof.
  intros Hwf. unfold json.parse.
  pose proof (parseValue_print v Hwf (S (String.length (print v))) ""
                ltac:(pose proof (weight_length v Hwf); lia) eq_refl) as Hp.
  rewrite append_nil_r in Hp. rewrite Hp. reflexivity.
Qed.

(** ** Values that come back from their encoding *)

Lemma member_text (k t : string) :
  json.member (k, t) = (String dquote (json.quote k ++ String dquote ":") ++ t)%string.
Proof.
  unfold json.member, json.encodeString. cbn [fst snd].
  rewrite !append_cons, !append_assoc. norm_append. reflexivity.
Qed.

Lemma encodeAny_print (v : any) :
  restorable v = true -> json.encodeAny v = Ok (print (anyValue v)).
Proof.
  induction v as [| b | n | s | l IH | m IH |] using any_nested_ind;
    intros Hs; try reflexivity; try discriminate.
  - cbn [restorable] in Hs. cbn [json.encodeAny anyValue print].
    match goal with
    | |- mbind _ (?F l) = _ => assert (HF : F l = Ok (map print (map anyValue l)))
    end.
    { induction IH as [|x l Hx _ IHl]; [reflexivity|].
      cbn [forallb] in Hs. apply andb_true_iff in Hs. destruct Hs as [Hsx Hsl].
      rewrite (Hx Hsx). cbn [mbind result_bind]. rewrite (IHl Hsl). reflexivity. }
    rewrite HF. reflexivity.
  - cbn [restorable] in Hs. apply andb_true_iff in Hs. destruct Hs as [Hasc Hs].
    cbn [json.encodeAny anyValue print].
    match goal with
    | |- mbind _ (?F m) = _ =>
        assert (HF : F m = Ok (map (fun kx => (kx.1, print (anyValue kx.2))) m))
    end.
    { clear Hasc. induction IH as [|[k x] m Hx _ IHm]; [reflexivity|].
      cbn [forallb fst snd] in Hs. apply andb_true_iff in Hs. destruct Hs as [Hsx Hsm].
      apply andb_true_iff in Hsx. destruct Hsx as [_ Hsx]. cbn [snd] in Hx.
      rewrite (Hx Hsx). cbn [mbind result_bind]. rewrite (IHm Hsm). reflexivity. }
    rewrite HF. cbn [mbind result_bind].
    rewrite insertAll_nil_ascending by (rewrite map_map; exact Hasc).
    rewrite !map_map.
    rewrite (map_ext _ _ (fun kx : string * any =>
                            member_text kx.1 (print (anyValue kx.2)))).
    reflexivity.
Qed.

Lemma literalText_quote (s : string) : literalText (json.quote s).
Proof. intros rest. apply scanString_quote. Qed.

Lemma numberText_formatInt (n : Z) : numberText (json.formatInt n).
Proof. intros rest. apply scanNumber_formatInt. Qed.

Lemma anyValue_wellFormed (v : any) : wellFormed (anyValue v).
Proof.
  induction v as [| b | n | s | l IH | m IH |] using any_nested_ind;
    cbn [anyValue]; try constructor.
  - apply numberText_formatInt.
  - apply literalText_quote.
  - apply Forall_forall. intros y Hy. apply list_elem_of_In, in_map_iff in Hy.
    destruct Hy as (x & <- & Hx). rewrite Forall_forall in IH.
    apply IH. apply list_elem_of_In. exact Hx.
  - apply Forall_forall. intros y Hy. apply list_elem_of_In, in_map_iff in Hy.
    destruct Hy as ([k x] & <- & Hx). rewrite Forall_forall in IH.
    split; [apply literalText_quote|].
    apply (IH (k, x)). apply list_elem_of_In. exact Hx.
Qed.

Lemma unquoted_quote (s : string) :
  utf8.ValidString s = true -> json.unquoted (json.quote s) = Ok s.
Proof. intros H. unfold json.unquoted. rewrite (unquote_quote s H). reflexivity. Qed.

Lemma valueInterface_anyValue (v : any) :
  restorable v = true -> json.valueInterface (anyValue v) = Ok v.
Proof.
  induction v as [| b | n | s | l IH | m IH |] using any_nested_ind;
    intros Hs; try reflexivity; try discriminate.
  - cbn [restorable] in Hs. apply andb_true_iff in Hs. destruct Hs as [H1 H2].
    cbn [anyValue json.valueInterface].
    rewrite convertNumber_formatInt by lia. reflexivity.
  - cbn [restorable] in Hs. cbn [anyValue json.valueInterface].
    rewrite (unquoted_quote s Hs). reflexivity.
  - cbn [restorable] in Hs. cbn [anyValue json.valueInterface].
    match goal with
    | |- mbind _ (?F (map anyValue l)) = _ => assert (HF : F (map anyValue l) = Ok l)
    end.
    { induction IH as [|x l Hx _ IHl]; [reflexivity|].
      cbn [forallb] in Hs. apply andb_true_iff in Hs. destruct Hs as [Hsx Hsl].
      cbn [map]. rewrite (Hx Hsx). cbn [mbind result_bind]. rewrite (IHl Hsl). reflexivity. }
    rewrite HF. reflexivity.
  - cbn [restorable] in Hs. apply andb_true_iff in Hs. destruct Hs as [Hasc Hs].
    cbn [anyValue json.valueInterface].
    match goal with
    | |- mbind _ (?F ?mm) = _ => assert (HF : F mm = Ok m)
    end.
    { clear Hasc. induction IH as [|[k x] m Hx _ IHm]; [reflexivity|].
      cbn [forallb fst snd] in Hs. apply andb_true_iff in Hs. destruct Hs as [Hsx Hsm].
      apply andb_true_iff in Hsx. destruct Hsx as [Hk Hsx]. cbn [snd] in Hx.
      cbn [map fst snd]. rewrite (unquoted_quote k Hk). cbn [mbind result_bind].
      rewrite (Hx Hsx). cbn [mbind result_bind]. rewrite (IHm Hsm). reflexivity. }
    rewrite HF. cbn [mbind result_bind].
    rewrite insertAll_nil_ascending by exact Hasc. reflexivity.
Qed.

(** ** Claims come back from their encoding *)

Lemma plain_literalText (s : string) : plain s = true -> literalText s.
Proof.
  induction s as [|c s IH]; intros H rest.
  - reflexivity.
  - cbn [plain] in H. rewrite !andb_true_iff, !negb_true_iff in H.
    destruct H as [[[H1 H2] H3] H4].
    rewrite append_cons. cbn [json.scanString]. rewrite H2, H3.
    apply Z.leb_le in H1.
    destruct (Z.ltb_spec (utf8.byte c) 32); [lia|].
    rewrite (IH H4 rest). reflexivity.
Qed.

Lemma plain_app (a b : string) : plain (a ++ b) = plain a && plain b.
Proof.
  induction a as [|c a IH]; [reflexivity|].
  rewrite append_cons. cbn [plain]. rewrite IH, !andb_assoc. reflexivity.
Qed.

Lemma plain_digit (d : Z) (rest : string) :
  0 <= d <= 9 -> plain (String (time.digit d) rest) = plain rest.
Proof.
  intros H. cbn [plain]. rewrite (byte_digit d H).
  destruct (Z.leb_spec 32 (48 + d)); [|lia].
  destruct (Z.eqb_spec (48 + d) 34); [lia|].
  destruct (Z.eqb_spec (48 + d) 92); [lia|]. reflexivity.
Qed.

Lemma plain_pad2 (v : Z) : 0 <= v <= 99 -> plain (time.pad2 v) = true.
Proof.
  intros H. unfold time.pad2.
  rewrite !plain_digit by divlia. reflexivity.
Qed.

Lemma plain_pad4 (v : Z) : 0 <= v <= 9999 -> plain (time.pad4 v) = true.
Proof.
  intros H. unfold time.pad4.
  rewrite plain_app, !plain_pad2 by divlia. reflexivity.
Qed.

Lemma plain_fracDigits (k : nat) :
  forall v : Z, 0 <= v < 10 ^ Z.of_nat k -> plain (time.fracDigits k v) = true.
Proof.
  induction k as [|k IH]; intros v Hv; [reflexivity|].
  cbn [time.fracDigits]. destruct (v =? 0); [reflexivity|].
  rewrite Nat2Z.inj_succ, Z.pow_succ_r in Hv by lia.
  assert (Hp : 0 < 10 ^ Z.of_nat k) by (apply Z.pow_pos_nonneg; lia).
  rewrite plain_digit.
  - apply IH. apply Z.mod_pos_bound. exact Hp.
  - split; [apply Z.div_pos; lia|].
    assert (v / 10 ^ Z.of_nat k < 10); [|lia].
    apply Z.div_lt_upper_bound; lia.
Qed.

Lemma plain_fraction (nsec : Z) :
  0 <= nsec < 1000000000 -> plain (time.fraction nsec) = true.
Proof.
  intros H. unfold time.fraction. destruct (nsec =? 0); [reflexivity|].
  change (plain (String "." (time.fracDigits 9 nsec)))
    with (plain (time.fracDigits 9 nsec)).
  apply plain_fracDigits. exact H.
Qed.

Lemma plain_Format (t : time.Time) : yearOK t = true -> plain (time.Format t) = true.
Proof.
  unfold yearOK, time.Year, time.Format. intros Hyear.
  apply andb_true_iff in Hyear. destruct Hyear as [Hy1 Hy2].
  apply Z.leb_le in Hy1, Hy2.
  pose proof (civil_spec (t / 1000000000 / 86400)) as Hcivil.
  destruct (time.civil (t / 1000000000 / 86400)) as [[year month] day].
  cbn [fst] in Hy1, Hy2. destruct Hcivil as (Hm & Hd & _).
  assert (Hdim : time.daysIn month year <= 31).
  { unfold time.daysIn.
    destruct (month =? 2); [destruct (time.isLeap year); lia|].
    destruct ((month =? 4) || (month =? 6) || (month =? 9) || (month =? 11)); lia. }
  set (sod := (t / 1000000000) mod 86400) in *.
  assert (Hsod : 0 <= sod < 86400) by (apply Z.mod_pos_bound; lia).
  rewrite !plain_app.
  rewrite plain_pad4 by lia.
  rewrite !plain_pad2 by (try lia; divlia).
  rewrite plain_fraction by (apply Z.mod_pos_bound; lia).
  reflexivity.
Qed.

Lemma MarshalJSON_Ok (t : time.Time) :
  yearOK t = true ->
  time.MarshalJSON t = Ok (print (json.JString (time.Format t))).
Proof.
  unfold yearOK, time.MarshalJSON. intros H.
  apply andb_true_iff in H. destruct H as [H1 H2]. apply Z.leb_le in H1, H2.
  destruct (Z.ltb_spec (time.Year t) 0); [lia|].
  destruct (Z.ltb_spec 9999 (time.Year t)); [lia|]. reflexivity.
Qed.

Lemma UnmarshalJSON_Format (t : time.Time) :
  yearOK t = true -> time.UnmarshalJSON (time.Format t) = Ok t.
Proof.
  unfold yearOK, time.UnmarshalJSON. intros H.
  apply andb_true_iff in H. destruct H as [H1 H2]. apply Z.leb_le in H1, H2.
  rewrite parseRFC3339_Format by lia. reflexivity.
Qed.

Lemma print_object (m : list (string * json.Value)) :
  print (json.JObject m)
  = ("{" ++ json.join ","
       (map (fun kx => String dquote (kx.1 ++ String dquote ":") ++ print kx.2) m)
     ++ "}")%string.
Proof. reflexivity. Qed.

Lemma encodeString_print (s : string) :
  json.encodeString s = print (json.JString (json.quote s)).
Proof. reflexivity. Qed.

Lemma encodeStrings_print (l : list string) :
  json.encodeStrings l
  = print (json.JArray (map (fun r => json.JString (json.quote r)) l)).
Proof.
  unfold json.encodeStrings. cbn [print]. rewrite map_map. reflexivity.
Qed.

Lemma MarshalClaims_print (c : token.Claims) :
  restorableClaims c = true ->
  token.MarshalClaims c = Ok (print (json.JObject (claimsMembers c))).
Proof.
  unfold restorableClaims. rewrite !andb_true_iff.
  intros [[[[[[[[_ _] _] _] _] Hexp] Hiat] Hnbf] Hmd].
  unfold token.MarshalClaims, claimsMembers.
  rewrite (MarshalJSON_Ok _ Hexp), (MarshalJSON_Ok _ Hiat), (MarshalJSON_Ok _ Hnbf).
  cbn [mbind result_bind].
  rewrite !encodeString_print.
  assert (Hmeta :
    match token.Metadata c with
    | [] => Ok ""
    | m => json.encodeMap m ≫= fun t => Ok ("," ++ token.name "metadata" ++ t)
    end
    = Ok (match token.Metadata c with
          | [] => ""
          | m => "," ++ token.name "metadata" ++ print (anyValue (Map m))
          end)).
  { destruct (token.Metadata c) as [|kv m]; [reflexivity|].
    unfold json.encodeMap. rewrite (encodeAny_print _ Hmd). reflexivity. }
  rewrite Hmeta. cbn [mbind result_bind]. f_equal.
  assert (Hroles :
    match token.Roles c with
    | [] => ""
    | roles => "," ++ token.name "roles" ++ json.encodeStrings roles
    end
    = match token.Roles c with
      | [] => ""
      | roles => "," ++ token.name "roles"
                 ++ print (json.JArray (map (fun r => json.JString (json.quote r)) roles))
      end).
  { destruct (token.Roles c); [reflexivity|]. rewrite encodeStrings_print. reflexivity. }
  rewrite Hroles. clear Hroles Hmeta.
  rewrite print_object. unfold token.name.
  destruct (String.eqb (token.Audience c) ""), (String.eqb (token.TokenID c) "");
    destruct (token.Roles c) as [|r roles];
    destruct (token.Metadata c) as [|kv m];
    cbn [app map json.join fst snd].
  all: repeat match goal with
              | |- context [print ?x] => generalize (print x); intro
              end.
  all: repeat rewrite append_assoc; norm_append; reflexivity.
Qed.

Lemma claimsMembers_wellFormed (c : token.Claims) :
  restorableClaims c = true -> wellFormed (json.JObject (claimsMembers c)).
Proof.
  unfold restorableClaims. rewrite !andb_true_iff.
  intros [[[[[[[[_ _] _] _] _] Hexp] Hiat] Hnbf] _].
  constructor. unfold claimsMembers.
  repeat (apply Forall_app; split).
  - repeat constructor; cbn [fst]; try (apply plain_literalText; reflexivity);
      apply literalText_quote.
  - destruct (String.eqb (token.Audience c) ""); repeat constructor; cbn [fst];
      try (apply plain_literalText; reflexivity); apply literalText_quote.
  - repeat constructor; cbn [fst]; try (apply plain_literalText; reflexivity);
      apply plain_literalText, plain_Format; assumption.
  - destruct (String.eqb (token.TokenID c) ""); repeat constructor; cbn [fst];
      try (apply plain_literalText; reflexivity); apply literalText_quote.
  - destruct (token.Roles c) as [|r roles]; [constructor|].
    constructor; [|constructor]. split; cbn [fst snd].
    + apply plain_literalText; reflexivity.
    + constructor. apply Forall_forall. intros y Hy.
      apply list_elem_of_In, in_map_iff in Hy.
      destruct Hy as (x & <- & _). constructor. apply literalText_quote.
  - destruct (token.Metadata c) as [|kv m]; [constructor|].
    constructor; [|constructor]. split; cbn [fst snd].
    + apply plain_literalText; reflexivity.
    + apply anyValue_wellFormed.
Qed.

Lemma decodeString_quote (s : string) (set : string -> token.Claims -> token.Claims)
    (d : token.decodeState) :
  utf8.ValidString s = true ->
  token.decodeString (json.JString (json.quote s)) set d
  = Ok (token.withClaims (set s (token.claims d)) d).
Proof.
  intros H. unfold token.decodeString. rewrite (unquoted_quote s H). reflexivity.
Qed.

Lemma decodeTime_Format (t : time.Time)
    (set : time.Time -> token.Claims -> token.Claims) (d : token.decodeState) :
  yearOK t = true ->
  token.decodeTime (json.JString (time.Format t)) set d
  = Ok (token.withClaims (set t (token.claims d)) d).
Proof.
  intros H. unfold token.decodeTime. rewrite (UnmarshalJSON_Format t H). reflexivity.
Qed.

Lemma decodeElements_quote (seen : bool) (l : list string) :
  forallb utf8.ValidString l = true ->
  token.decodeElements seen (map (fun r => json.JString (json.quote r)) l)
  = Ok (l, false).
Proof.
  induction l as [|r l IH]; intros H; [reflexivity|].
  cbn [forallb] in H. apply andb_true_iff in H. destruct H as [Hr Hl].
  cbn [map token.decodeElements]. rewrite (IH Hl), (unquoted_quote r Hr).
  reflexivity.
Qed.

Lemma decodeRoles_quote (l : list string) (d : token.decodeState) :
  forallb utf8.ValidString l = true ->
  token.decodeRoles (json.JArray (map (fun r => json.JString (json.quote r)) l)) d
  = Ok {| token.claims := token.setRoles l (token.claims d);
          token.savedError := token.savedError d; token.rolesSeen := true |}.
Proof.
  intros H. unfold token.decodeRoles. rewrite (decodeElements_quote _ l H).
  reflexivity.
Qed.

Lemma decodeEntries_anyValue (m : list (string * any)) :
  forall acc : list (string * any),
    forallb (fun kx => utf8.ValidString kx.1 && restorable kx.2) m = true ->
    token.decodeEntries (map (fun kx => (json.quote kx.1, anyValue kx.2)) m) acc
    = Ok (json.insertAll acc m).
Proof.
  induction m as [|[k x] m IH]; intros acc H; [reflexivity|].
  cbn [forallb fst snd] in H. rewrite !andb_true_iff in H.
  destruct H as [[Hk Hx] Hm].
  cbn [map token.decodeEntries fst snd].
  rewrite (unquoted_quote k Hk). cbn [mbind result_bind].
  rewrite (valueInterface_anyValue x Hx). cbn [mbind result_bind].
  rewrite (IH _ Hm). reflexivity.
Qed.

Lemma decodeMetadata_anyValue (m : list (string * any)) (d : token.decodeState) :
  restorable (Map m) = true ->
  token.Metadata (token.claims d) = [] ->
  token.decodeMetadata (anyValue (Map m)) d
  = Ok (token.withClaims (token.setMetadata m (token.claims d)) d).
Proof.
  intros H Hd. cbn [restorable] in H. apply andb_true_iff in H.
  destruct H as [Hasc Hm].
  cbn [anyValue]. unfold token.decodeMetadata.
  rewrite (decodeEntries_anyValue m _ Hm), Hd. cbn [mbind result_bind].
  rewrite (insertAll_nil_ascending m Hasc). reflexivity.
Qed.

Lemma decodeMembers_app (a b : list (string * json.Value)) :
  forall d : token.decodeState,
    token.decodeMembers (a ++ b) d
    = token.decodeMembers a d ≫= token.decodeMembers b.
Proof.
  induction a as [|[k v] a IH]; intros d.
  - cbn [app token.decodeMembers mbind result_bind]. reflexivity.
  - cbn [app token.decodeMembers].
    destruct (token.decodeMember k v d) as [d'|e]; [|reflexivity].
    cbn [mbind result_bind]. apply IH.
Qed.

Lemma decode_claimsMembers (c : token.Claims) :
  restorableClaims c = true ->
  token.decodeMembers (claimsMembers c)
    {| token.claims := token.zeroClaims; token.savedError := None;
       token.rolesSeen := false |}
  = Ok {| token.claims := c; token.savedError := None;
          token.rolesSeen := match token.Roles c with [] => false | _ => true end |}.
Proof.
  unfold restorableClaims. rewrite !andb_true_iff.
  intros [[[[[[[[Hsub Hiss] Haud] Hjti] Hroles] Hexp] Hiat] Hnbf] Hmd].
  destruct c as [sub iss aud exp iat nbf jti roles md].
  unfold claimsMembers. cbn [token.Subject token.Issuer token.Audience
    token.ExpiresAt token.IssuedAt token.NotBefore token.TokenID token.Roles
    token.Metadata] in *.
  assert (Hsub' := decodeString_quote sub token.setSubject).
  assert (Hiss' := decodeString_quote iss token.setIssuer).
  assert (Haud' := decodeString_quote aud token.setAudience).
  assert (Hjti' := decodeString_quote jti token.setTokenID).
  assert (Hexp' := decodeTime_Format exp token.setExpiresAt).
  assert (Hiat' := decodeTime_Format iat token.setIssuedAt).
  assert (Hnbf' := decodeTime_Format nbf token.setNotBefore).
  assert (Hroles' := decodeRoles_quote roles).
  assert (Hmd' := decodeMetadata_anyValue md).
  destruct (String.eqb_spec aud ""), (String.eqb_spec jti "");
    destruct roles as [|r roles]; destruct md as [|kv md]; subst;
    cbn [app token.decodeMembers];
    repeat
      (match goal with
       | |- context [token.decodeMember ?k ?v ?d] =>
           first
             [ change (token.decodeMember k v d) with (token.decodeString v token.setSubject d);
               rewrite Hsub' by assumption
             | change (token.decodeMember k v d) with (token.decodeString v token.setIssuer d);
               rewrite Hiss' by assumption
             | change (token.decodeMember k v d) with (token.decodeString v token.setAudience d);
               rewrite Haud' by assumption
             | change (token.decodeMember k v d) with (token.decodeString v token.setTokenID d);
               rewrite Hjti' by assumption
             | change (token.decodeMember k v d) with (token.decodeTime v token.setExpiresAt d);
               rewrite Hexp' by assumption
             | change (token.decodeMember k v d) with (token.decodeTime v token.setIssuedAt d);
               rewrite Hiat' by assumption
             | change (token.decodeMember k v d) with (token.decodeTime v token.setNotBefore d);
               rewrite Hnbf' by assumption
             | change (token.decodeMember k v d) with (token.decodeRoles v d);
               rewrite Hroles' by assumption
             | change (token.decodeMember k v d) with (token.decodeMetadata v d);
               rewrite Hmd' by (try assumption; reflexivity) ]
       end;
       cbn [mbind result_bind token.decodeMembers]);
    reflexivity.
Qed.

Theorem UnmarshalClaims_MarshalClaims (c : token.Claims) :
  restorableClaims c = true ->
  exists js, token.MarshalClaims c = Ok js /\ token.UnmarshalClaims js = Ok c.
Proof.
  intros H. exists (print (json.JObject (claimsMembers c))).
  split; [apply MarshalClaims_print; exact H|].
  unfold token.UnmarshalClaims.
  rewrite (parse_print _ (claimsMembers_wellFormed c H)).
  cbn [mbind result_bind].
  rewrite (decode_claimsMembers c H). reflexivity.
Qed.

(** ** Token authority: the round trip *)


(** ** Session store: creation, deletion, and what a sweep leaves *)
Section SessionLifecycle.
Import memory_session.

Lemma Get_expired (now : time.Time) (id : string) (st : store) (sess : loc) :
  sessions st !! id = Some sess ->
  session.ExpiresAt (objs st sess) < now ->
  sessionsvc.Get now id st
  = (Err (Errorf "session expired"),
     with_log (LevelWarn, "attempted to access expired session") st).
Proof.
  intros Hid Hexp. unfold sessionsvc.Get. rewrite bind_run. unfold Get.
  rewrite Hid. cbn [fst snd]. rewrite bind_run. unfold gets. cbn [fst snd].
  unfold session.IsExpired, time.After.
  destruct (Z.ltb_spec (session.ExpiresAt (objs st sess)) now); [reflexivity|lia].
Qed.

Lemma Create_run (s : sessionsvc.Service) (now nowID : time.Time) (p : loc)
    (userID serviceID : string) (data : gmap string any) (ttl : time.Duration)
    (st : store) :
  let st1 := with_obj p (created s now nowID userID serviceID data ttl) st in
  sessionsvc.Create s now nowID p userID serviceID data ttl st
  = match sessions st !! sessionsvc.generateSessionID nowID with
    | Some _ =>
        (Err (Errorf_w "create session" (Errorf "session already exists")),
         with_log (LevelError, "failed to create session") st1)
    | None =>
        (Ok p,
         with_log (LevelInfo, "session created")
           (with_sessions (<[sessionsvc.generateSessionID nowID := p]> (sessions st)) st1))
    end.
Proof.
  unfold sessionsvc.Create, created, time.Add. cbv zeta.
  rewrite bind_run. unfold modify. cbn [fst snd].
  rewrite bind_run. unfold Create. cbn [objs with_obj sessions].
  rewrite poke_eq. cbn [session.ID].
  destruct (sessions st !! sessionsvc.generateSessionID nowID); reflexivity.
Qed.

(** X1.  [Create] under an identifier that is not stored yet returns the new
    session, with the identifier of the clock reading, the default lifetime
    in place of a lifetime of zero, and created-at and updated-at at the
    clock reading; it is stored under its identifier, the sessions stored
    before read as before, and [Get] serves it up to and including its
    expires-at and answers "session expired" after. *)
Theorem Create_then_Get (s : sessionsvc.Service) (now nowID now' : time.Time)
    (p : loc) (userID serviceID : string) (data : gmap string any)
    (ttl : time.Duration) (st : store) :
  sessions st !! sessionsvc.generateSessionID nowID = None ->
  unreferenced p st ->
  let id := sessionsvc.generateSessionID nowID in
  let lifetime := if ttl =? 0 then sessionsvc.defaultTTL s else ttl in
  let r := sessionsvc.Create s now nowID p userID serviceID data ttl st in
  r.1 = Ok p
  /\ objs r.2 p
     = {| session.ID := id; session.UserID := userID;
          session.ServiceID := serviceID; session.Data := data;
          session.CreatedAt := now; session.ExpiresAt := now + lifetime;
          session.UpdatedAt := now |}
  /\ sessions r.2 = <[id := p]> (sessions st)
  /\ (forall id' q, sessions st !! id' = Some q -> objs r.2 q = objs st q)
  /\ (now' <= now + lifetime -> (sessionsvc.Get now' id r.2).1 = Ok p)
  /\ (now + lifetime < now' ->
      (sessionsvc.Get now' id r.2).1 = Err (Errorf "session expired")).
Proof.
  intros Hnone Hfresh id lifetime r. subst r.
  rewrite Create_run, Hnone. cbn [fst snd objs sessions with_log with_sessions with_obj].
  rewrite poke_eq.
  split; [reflexivity|]. split; [reflexivity|]. split; [reflexivity|].
  split; [|split].
  - intros id' q Hq. apply poke_ne. exact (Hfresh id' q Hq).
  - intros Hle. erewrite Get_live; [reflexivity| |].
    + cbn [sessions]. apply lookup_insert_eq.
    + cbn [objs with_log with_sessions with_obj]. rewrite poke_eq.
      unfold created. cbn [session.ExpiresAt].
      subst lifetime. destruct (ttl =? 0); lia.
  - intros Hlt. erewrite Get_expired; [reflexivity| |].
    + cbn [sessions]. apply lookup_insert_eq.
    + cbn [objs with_log with_sessions with_obj]. rewrite poke_eq.
      unfold created. cbn [session.ExpiresAt].
      subst lifetime. destruct (ttl =? 0); lia.
Qed.

(** X2.  [Create] fails with "create session: session already exists" when a
    session is stored under the identifier of the clock reading -- another
    one created in the same nanosecond, say -- and then leaves the table
    and the stored sessions as they were, and logs the failure. *)
Theorem Create_existing_identifier (s : sessionsvc.Service) (now nowID : time.Time)
    (p q : loc) (userID serviceID : string) (data : gmap string any)
    (ttl : time.Duration) (st : store) :
  sessions st !! sessionsvc.generateSessionID nowID = Some q ->
  unreferenced p st ->
  let r := sessionsvc.Create s now nowID p userID serviceID data ttl st in
  r.1 = Err (Errorf_w "create session" (Errorf "session already exists"))
  /\ sessions r.2 = sessions st
  /\ (forall id' q', sessions st !! id' = Some q' -> objs r.2 q' = objs st q')
  /\ logs r.2 = (LevelError, "failed to create session") :: logs st.
Proof.
  intros Hsome Hfresh r. subst r.
  rewrite Create_run, Hsome. cbn [fst snd objs sessions logs with_log with_obj].
  split; [reflexivity|]. split; [reflexivity|]. split; [|reflexivity].
  intros id' q' Hq. apply poke_ne. exact (Hfresh id' q' Hq).
Qed.

(** X4.  [Delete] never fails, whether or not the identifier is stored; it
    removes that entry only and touches no session object; [Get] then
    answers "get session: session not found" for the identifier and as
    before for every other one. *)
Theorem Delete_then_Get (now : time.Time) (id : string) (st : store) :
  let r := sessionsvc.Delete id st in
  r.1 = None
  /\ sessions r.2 = delete id (sessions st)
  /\ objs r.2 = objs st
  /\ (sessionsvc.Get now id r.2).1
     = Err (Errorf_w "get session" (Errorf "session not found"))
  /\ (forall id', id' <> id ->
        (sessionsvc.Get now id' r.2).1 = (sessionsvc.Get now id' st).1).
Proof.
  cbv zeta. unfold sessionsvc.Delete. rewrite bind_run.
  unfold Delete. cbn [fst snd]. rewrite bind_run.
  unfold sessionsvc.log, modify, ret. cbn [fst snd sessions objs with_log with_sessions].
  split; [reflexivity|]. split; [reflexivity|]. split; [reflexivity|]. split.
  - rewrite Get_not_found; [reflexivity|]. cbn [sessions]. apply lookup_delete_eq.
  - intros id' Hne.
    set (st' := with_log _ _).
    assert (Hl : sessions st' !! id' = sessions st !! id')
      by (subst st'; cbn [sessions with_log with_sessions];
          apply lookup_delete_ne; congruence).
    assert (Ho : objs st' = objs st) by reflexivity.
    destruct (sessions st !! id') as [q|] eqn:Hq.
    + destruct (Z.lt_ge_cases (session.ExpiresAt (objs st q)) now) as [Hlt|Hge].
      * rewrite (Get_expired now id' st' q Hl) by (rewrite Ho; exact Hlt).
        rewrite (Get_expired now id' st q Hq Hlt). reflexivity.
      * rewrite (Get_live now id' st' q Hl) by (rewrite Ho; lia).
        rewrite (Get_live now id' st q Hq) by lia. reflexivity.
    + rewrite (Get_not_found now id' st' Hl), (Get_not_found now id' st Hq).
      reflexivity.
Qed.

Lemma cleanup_tick_state (now : time.Time) (st : store) :
  let r := sessionsvc.cleanup_tick now st in
  r.1 = (Z.of_nat (size (expired_entries (objs st) now (sessions st))), None)
  /\ sessions r.2 = live_entries (objs st) now (sessions st)
  /\ objs r.2 = objs st.
Proof.
  cbv zeta. unfold sessionsvc.cleanup_tick. rewrite bind_run, DeleteExpired_run.
  cbn [fst snd].
  destruct (0 <? Z.of_nat (size (expired_entries (objs st) now (sessions st))));
    split; try split; reflexivity.
Qed.

(** X5.  After a sweep, [Get] at the clock reading of the sweep serves
    exactly the sessions it served before the sweep, and answers "get
    session: session not found" for every other identifier: it has no
    expired session left to report. *)
Theorem sweep_then_Get (now : time.Time) (id : string) (st : store) :
  let st' := (sessionsvc.cleanup_tick now st).2 in
  (sessionsvc.Get now id st').1
  = match (sessionsvc.Get now id st).1 with
    | Ok sess => Ok sess
    | Err _ => Err (Errorf_w "get session" (Errorf "session not found"))
    end.
Proof.
  cbv zeta.
  destruct (cleanup_tick_state now st) as (_ & Hs & Ho).
  set (st' := (sessionsvc.cleanup_tick now st).2) in *.
  destruct (sessions st !! id) as [q|] eqn:Hq.
  - destruct (Z.lt_ge_cases (session.ExpiresAt (objs st q)) now) as [Hlt|Hge].
    + rewrite (Get_expired now id st q Hq Hlt). cbn [fst].
      rewrite Get_not_found; [reflexivity|].
      rewrite Hs. unfold live_entries. apply map_lookup_filter_None.
      right. intros x Hx. rewrite Hq in Hx. injection Hx as <-. cbn. lia.
    + rewrite (Get_live now id st q Hq) by lia. cbn [fst].
      rewrite (Get_live now id st' q); [reflexivity| |rewrite Ho; lia].
      rewrite Hs. unfold live_entries. apply map_lookup_filter_Some.
      split; [exact Hq|cbn; lia].
  - rewrite (Get_not_found now id st Hq). cbn [fst].
    rewrite Get_not_found; [reflexivity|].
    rewrite Hs. unfold live_entries. apply map_lookup_filter_None.
    left. exact Hq.
Qed.

(** X6.  A sweep followed by a later one leaves the store a single sweep at
    the later clock reading leaves, and their counts add up to its count. *)
Theorem sweeps_compose (now1 now2 : time.Time) (st : store) :
  now1 <= now2 ->
  let r1 := sessionsvc.cleanup_tick now1 st in
  let r2 := sessionsvc.cleanup_tick now2 r1.2 in
  let r := sessionsvc.cleanup_tick now2 st in
  sessions r2.2 = sessions r.2
  /\ objs r2.2 = objs r.2
  /\ r1.1.1 + r2.1.1 = r.1.1.
Proof.
  intros Hle. cbv zeta.
  destruct (cleanup_tick_state now1 st) as (Hc1 & Hs1 & Ho1).
  destruct (cleanup_tick_state now2 (sessionsvc.cleanup_tick now1 st).2)
    as (Hc2 & Hs2 & Ho2).
  destruct (cleanup_tick_state now2 st) as (Hc & Hs & Ho).
  rewrite Hc1, Hc2, Hc, Hs2, Hs, Ho2, Ho, Hs1, Ho1. cbn [fst].
  set (h := objs st). set (m := sessions st).
  assert (Hlive : live_entries h now2 (live_entries h now1 m) = live_entries h now2 m).
  { unfold live_entries. apply map_eq. intros i. apply option_eq. intros x.
    rewrite !map_lookup_filter_Some. cbn. split; [tauto|].
    intros [Hi Hx]. split; [split; [exact Hi|lia]|exact Hx]. }
  split; [exact Hlive|]. split; [reflexivity|].
  assert (Hexp : expired_entries h now2 m
                 = expired_entries h now1 m ∪ expired_entries h now2 (live_entries h now1 m)).
  { unfold expired_entries, live_entries. apply map_eq. intros i. apply option_eq.
    intros x. rewrite lookup_union_Some_raw, !map_lookup_filter_Some,
      map_lookup_filter_None. cbn. split.
    - intros [Hi Hx].
      destruct (Z.lt_ge_cases (session.ExpiresAt (h x)) now1) as [Hlt|Hge].
      + left. split; assumption.
      + right. split; [right; intros y Hy; rewrite Hi in Hy; injection Hy as <-; lia|].
        split; [split; [exact Hi|lia]|exact Hx].
    - intros [[Hi Hx]|[_ [[Hi _] Hx]]]; (split; [exact Hi|lia]). }
  assert (Hdisj : expired_entries h now1 m ##ₘ expired_entries h now2 (live_entries h now1 m)).
  { unfold expired_entries, live_entries. apply map_disjoint_spec.
    intros i x y Hx Hy. apply map_lookup_filter_Some in Hx, Hy.
    destruct Hx as [Hi Hx]. destruct Hy as [Hy _].
    apply map_lookup_filter_Some in Hy. destruct Hy as [Hi' Hy].
    rewrite Hi in Hi'. injection Hi' as <-. cbn in Hx, Hy. lia. }
  rewrite Hexp, (map_size_disj_union _ _ Hdisj). lia.
Qed.

(** X7.  [Update] of an identifier that is not stored, or whose session has
    expired, returns the error of [Get] and changes neither the session
    objects nor the table. *)
Theorem Update_needs_live_session (now now' : time.Time) (id : string)
    (data : gmap string any) (st : store) :
  (forall sess, sessions st !! id = Some sess ->
                session.ExpiresAt (objs st sess) < now) ->
  let r := sessionsvc.Update now now' id data st in
  r.1 = Some (match sessions st !! id with
              | Some _ => Errorf "session expired"
              | None => Errorf_w "get session" (Errorf "session not found")
              end)
  /\ objs r.2 = objs st
  /\ sessions r.2 = sessions st.
Proof.
  intros Hdead. cbv zeta. unfold sessionsvc.Update. rewrite bind_run.
  destruct (sessions st !! id) as [q|] eqn:Hq.
  - rewrite (Get_expired now id st q Hq (Hdead q eq_refl)). cbn [fst snd].
    split; [reflexivity|]. split; reflexivity.
  - rewrite (Get_not_found now id st Hq). cbn [fst snd].
    split; [reflexivity|]. split; reflexivity.
Qed.

End SessionLifecycle.

(** ** Registry: registration, heartbeats and probes *)
Section RegistryLifecycle.
Import memory_registry.

Lemma Register_state (now : time.Time) (svc : loc) (st : store) :
  let r := registry.Register now svc st in
  r.1 = None
  /\ objs r.2 svc = registered now (objs st svc)
  /\ (forall q, q <> svc -> objs r.2 q = objs st q)
  /\ services r.2 = <[service.ID (objs st svc) := svc]> (services st)
  /\ updates r.2 = updates st.
Proof.
  cbv zeta.
  unfold registry.Register, registry.through, registry.log, Register, registered.
  rewrite !bind_run. unfold modify, ret.
  cbn [fst snd objs services updates with_obj with_services with_log].
  rewrite !bind_run. cbn [fst snd objs services updates with_obj with_services with_log].
  rewrite !poke_eq. cbn [service.ID service.set_Status service.set_LastHeartbeat
    service.set_RegisteredAt].
  split; [reflexivity|]. split; [reflexivity|]. split; [|split; reflexivity].
  intros q Hq. rewrite !poke_ne by exact Hq. reflexivity.
Qed.

Lemma Discover_elem (capability : string) (st : store) (matched : list loc)
    (svc : loc) :
  (registry.Discover capability st).1 = Ok matched ->
  (svc ∈ matched
   <-> (exists id, services st !! id = Some svc)
       /\ service.Status (objs st svc) = service.StatusHealthy
       /\ (capability = "" \/ capability ∈ service.Capabilities (objs st svc))).
Proof.
  rewrite Discover_run. cbn [fst]. intros H. injection H as <-.
  rewrite list_elem_of_filter, listed_registered. unfold discoverable. tauto.
Qed.

(** X8.  [Register] never fails: it stamps registered-at and last-heartbeat
    with the clock reading and the status healthy, whatever the caller put
    there, changes no other object, and stores the service under its
    identifier in place of any earlier one; [Discover] then returns it
    exactly for the empty capability and for its own capabilities. *)
Theorem Register_then_Discover (now : time.Time) (svc : loc) (st : store) :
  let r := registry.Register now svc st in
  r.1 = None
  /\ objs r.2 svc
     = service.set_Status service.StatusHealthy
         (service.set_LastHeartbeat now
            (service.set_RegisteredAt now (objs st svc)))
  /\ (forall q, q <> svc -> objs r.2 q = objs st q)
  /\ services r.2 = <[service.ID (objs st svc) := svc]> (services st)
  /\ (forall capability matched,
        (registry.Discover capability r.2).1 = Ok matched ->
        (svc ∈ matched
         <-> capability = "" \/ capability ∈ service.Capabilities (objs st svc))).
Proof.
  destruct (Register_state now svc st) as (H1 & H2 & H3 & H4 & _).
  cbv zeta. split; [exact H1|]. split; [exact H2|]. split; [exact H3|].
  split; [exact H4|].
  intros capability matched Hd.
  rewrite (Discover_elem _ _ _ svc Hd), H2, H4. unfold registered.
  cbn [service.Status service.Capabilities service.set_Status
       service.set_LastHeartbeat service.set_RegisteredAt].
  split; [tauto|]. intros Hc.
  split; [eexists; apply lookup_insert_eq|]. split; [reflexivity|exact Hc].
Qed.

Lemma Heartbeat_unknown (now : time.Time) (id : string) (st : store) :
  services st !! id = None ->
  registry.Heartbeat now id st
  = (Some (Errorf_w "get service" (Errorf "service not found")), st).
Proof.
  intros H. unfold registry.Heartbeat. rewrite bind_run. unfold Get.
  rewrite H. reflexivity.
Qed.

(** X9.  [Deregister] never fails, whether or not the identifier is
    registered; it removes that entry only.  [Heartbeat] for the identifier
    then fails with "get service: service not found" and changes nothing,
    and [Discover] returns only services still registered under another
    identifier. *)
Theorem Deregister_then_Heartbeat (now : time.Time) (id : string) (st : store) :
  let r := registry.Deregister id st in
  r.1 = None
  /\ services r.2 = delete id (services st)
  /\ objs r.2 = objs st
  /\ registry.Heartbeat now id r.2
     = (Some (Errorf_w "get service" (Errorf "service not found")), r.2)
  /\ (forall capability matched svc,
        (registry.Discover capability r.2).1 = Ok matched ->
        svc ∈ matched ->
        exists id', id' <> id /\ services st !! id' = Some svc).
Proof.
  cbv zeta. unfold registry.Deregister. rewrite bind_run.
  unfold Deregister. cbn [fst snd]. rewrite bind_run.
  unfold registry.log, modify, ret.
  cbn [fst snd objs services with_services with_log].
  split; [reflexivity|]. split; [reflexivity|]. split; [reflexivity|]. split.
  - apply Heartbeat_unknown. cbn [services with_log with_services]. apply lookup_delete_eq.
  - intros capability matched svc Hd Hin.
    apply (Discover_elem _ _ _ svc Hd) in Hin.
    destruct Hin as [[id' Hid'] _]. cbn [services with_log with_services] in Hid'.
    apply lookup_delete_Some in Hid'. destruct Hid' as [Hne Hid'].
    exists id'. split; [congruence|exact Hid'].
Qed.

Lemma Heartbeat_state (now : time.Time) (id : string) (svc : loc) (st : store) :
  services st !! id = Some svc ->
  service.ID (objs st svc) = id ->
  let r := registry.Heartbeat now id st in
  r.1 = None
  /\ objs r.2 svc
     = service.set_Status service.StatusHealthy
         (service.set_LastHeartbeat now (objs st svc))
  /\ (forall q, q <> svc -> objs r.2 q = objs st q)
  /\ services r.2 = services st
  /\ updates r.2 = svc :: updates st.
Proof.
  intros Hid HID. cbv zeta.
  unfold registry.Heartbeat. rewrite bind_run. unfold Get. rewrite Hid.
  cbn [fst snd]. rewrite bind_run. unfold registry.through, modify.
  cbn [fst snd]. rewrite bind_run. unfold Update, service.UpdateHeartbeat.
  cbn [objs services updates with_obj with_update]. rewrite poke_eq.
  cbn [service.ID service.set_Status service.set_LastHeartbeat]. rewrite HID, Hid.
  cbn [fst snd objs services updates with_services with_update with_obj ret].
  rewrite poke_eq.
  split; [reflexivity|]. split; [reflexivity|]. split; [|split].
  - intros q Hq. apply poke_ne. exact Hq.
  - apply insert_id. exact Hid.
  - reflexivity.
Qed.

(** X10.  [Heartbeat] for a registered service sets its last-heartbeat to the
    clock reading and its status to healthy -- also when it was unhealthy
    -- writes it back with [Update] and changes nothing else; the service
    then counts as healthy for every timeout longer than the time since
    that heartbeat. *)
Theorem Heartbeat_revives (now : time.Time) (id : string) (svc : loc) (st : store) :
  services st !! id = Some svc ->
  service.ID (objs st svc) = id ->
  let r := registry.Heartbeat now id st in
  r.1 = None
  /\ objs r.2 svc
     = service.set_Status service.StatusHealthy
         (service.set_LastHeartbeat now (objs st svc))
  /\ (forall q, q <> svc -> objs r.2 q = objs st q)
  /\ services r.2 = services st
  /\ updates r.2 = svc :: updates st
  /\ (forall (now' : time.Time) (timeout : time.Duration),
        time.Since now' now < timeout ->
        service.IsHealthy now' timeout (objs r.2 svc) = true).
Proof.
  intros Hid HID.
  destruct (Heartbeat_state now id svc st Hid HID) as (H1 & H2 & H3 & H4 & H5).
  cbv zeta. split; [exact H1|]. split; [exact H2|]. split; [exact H3|].
  split; [exact H4|]. split; [exact H5|].
  intros now' timeout Hlt. rewrite H2. unfold service.IsHealthy.
  cbn [service.Status service.LastHeartbeat service.set_Status
       service.set_LastHeartbeat].
  change (String.eqb service.StatusHealthy service.StatusUnhealthy) with false.
  cbv iota. apply Z.ltb_lt. exact Hlt.
Qed.

Lemma write_back (f : service.Service -> service.Service) (l : Level)
    (msg : string) (svc : loc) (st : store) :
  (forall x, service.ID (f x) = service.ID x) ->
  let r := bind (registry.through svc f)
             (fun _ => bind (Update svc) (fun _ => registry.log l msg)) st in
  objs r.2 svc = f (objs st svc)
  /\ (forall q, q <> svc -> objs r.2 q = objs st q)
  /\ updates r.2 = svc :: updates st
  /\ (forall id, services st !! id = Some svc -> services r.2 !! id = Some svc).
Proof.
  intros HID. cbv zeta. rewrite bind_run. unfold registry.through, modify.
  cbn [fst snd]. rewrite bind_run. unfold Update, registry.log, modify.
  cbn [objs services updates with_obj with_update]. rewrite poke_eq, HID.
  destruct (services st !! service.ID (objs st svc)) as [q|] eqn:Hq;
    cbn [fst snd objs services updates with_services with_log with_update with_obj];
    rewrite ?poke_eq.
  - split; [reflexivity|]. split; [|split; [reflexivity|]].
    + intros q' Hq'. apply poke_ne. exact Hq'.
    + intros id Hid. destruct (decide (service.ID (objs st svc) = id)) as [<-|Hne].
      * apply lookup_insert_eq.
      * rewrite lookup_insert_ne by exact Hne. exact Hid.
  - split; [reflexivity|]. split; [|split; [reflexivity|]].
    + intros q' Hq'. apply poke_ne. exact Hq'.
    + intros id Hid. exact Hid.
Qed.

(** X11.  A probe that fails in transport or returns another status than 200
    marks the service unhealthy and writes it back, so that [Discover] no
    longer returns it; a probe that returns 200 leaves the service healthy,
    writing it back only when it was not, so that [Discover] returns it for
    the empty capability when it is registered.  No other object changes. *)
Theorem checkServiceHealth_then_Discover (outcome : registry.probe) (svc : loc)
    (st : store) :
  let r := registry.checkServiceHealth outcome svc st in
  (failed outcome ->
   objs r.2 svc = service.set_Status service.StatusUnhealthy (objs st svc)
   /\ updates r.2 = svc :: updates st
   /\ forall capability matched,
        (registry.Discover capability r.2).1 = Ok matched -> svc ∉ matched)
  /\ (outcome = registry.Response registry.StatusOK ->
      objs r.2 svc = service.set_Status service.StatusHealthy (objs st svc)
      /\ (service.Status (objs st svc) = service.StatusHealthy ->
          updates r.2 = updates st)
      /\ (service.Status (objs st svc) <> service.StatusHealthy ->
          updates r.2 = svc :: updates st)
      /\ ((exists id, services st !! id = Some svc) ->
          forall matched,
            (registry.Discover "" r.2).1 = Ok matched -> svc ∈ matched))
  /\ (forall q, q <> svc -> objs r.2 q = objs st q).
Proof.
  cbv zeta.
  assert (Hfail : forall msg,
    let r := bind (registry.through svc service.MarkUnhealthy)
               (fun _ => bind (Update svc) (fun _ => registry.log LevelWarn msg)) st in
    (objs r.2 svc = service.set_Status service.StatusUnhealthy (objs st svc)
     /\ updates r.2 = svc :: updates st
     /\ forall capability matched,
          (registry.Discover capability r.2).1 = Ok matched -> svc ∉ matched)
    /\ (forall q, q <> svc -> objs r.2 q = objs st q)).
  { intros msg.
    destruct (write_back service.MarkUnhealthy LevelWarn msg svc st ltac:(reflexivity))
      as (Ho & Hq & Hu & _).
    cbv zeta. split; [|exact Hq]. split; [exact Ho|]. split; [exact Hu|].
    intros capability matched Hd Hin.
    apply (Discover_elem _ _ _ svc Hd) in Hin. destruct Hin as (_ & Hs & _).
    rewrite Ho in Hs. discriminate Hs. }
  destruct outcome as [| |code]; cbn [failed registry.checkServiceHealth].
  - split; [intros []|]. split; [discriminate|]. reflexivity.
  - destruct (Hfail "service health check failed") as [Hf Hq].
    split; [intros _; exact Hf|]. split; [discriminate|exact Hq].
  - destruct (Z.eqb_spec code registry.StatusOK) as [->|Hne]; cbn [negb].
    + split; [intros H; contradiction|].
      rewrite bind_run. unfold gets. cbn [fst snd].
      destruct (String.eqb_spec (service.Status (objs st svc)) service.StatusHealthy)
        as [Hh|Hnh]; cbn [negb].
      * unfold ret. cbn [fst snd]. split; [|reflexivity]. intros _.
        split; [destruct (objs st svc); cbn in Hh |- *; subst; reflexivity|].
        split; [reflexivity|]. split; [contradiction|].
        intros Hreg matched Hd. apply (Discover_elem _ _ _ svc Hd).
        split; [exact Hreg|]. split; [exact Hh|left; reflexivity].
      * destruct (write_back (service.set_Status service.StatusHealthy) LevelInfo
                    "service recovered" svc st ltac:(reflexivity))
          as (Ho & Hq & Hu & Hs).
        split; [|exact Hq]. intros _. split; [exact Ho|].
        split; [contradiction|]. split; [intros _; exact Hu|].
        intros [id Hid] matched Hd. apply (Discover_elem _ _ _ svc Hd).
        split; [exists id; apply Hs; exact Hid|].
        split; [rewrite Ho; reflexivity|left; reflexivity].
    + destruct (Hfail "service health check failed") as [Hf Hq].
      split; [intros _; exact Hf|]. split; [|exact Hq].
      intros H. injection H as ->. contradiction.
Qed.

End RegistryLifecycle.

(** ** Registry: the probes a sweep starts *)
Section Probes.
Import memory_registry.

Variable s : registry.Service.
Variable clock : nat -> time.Time.

Lemma probed_ext (h h' : objects service.Service) (l : list loc) :
  (forall p, service.HealthCheckURL (h' p) = service.HealthCheckURL (h p)) ->
  probed h' l = probed h l.
Proof.
  intros H. unfold probed. apply List.filter_ext. intros p. rewrite H. reflexivity.
Qed.

Lemma healthCheckLoop_probes (l : list loc) :
  forall (i0 : nat) (st : store),
    (registry.healthCheckLoop s clock i0 l st).1 = probed (objs st) l.
Proof.
  induction l as [|q rest IH]; intros i0 st; [reflexivity|].
  destruct (String.eqb_spec (service.HealthCheckURL (objs st q)) "") as [Hurl|Hurl].
  - rewrite (healthCheckLoop_cons_heartbeat s clock i0 q rest st Hurl).
    rewrite IH. unfold probed at 2. cbn [List.filter]. rewrite Hurl.
    cbn [String.eqb negb]. fold (probed (objs st) rest).
    apply probed_ext. intros p.
    destruct (healthCheckLoop_spec s clock [q] i0 st) as (H1 & _).
    rewrite (healthCheckLoop_cons_heartbeat s clock i0 q [] st Hurl) in H1.
    cbn [registry.healthCheckLoop ret snd] in H1.
    destruct (H1 p) as [-> | ->]; reflexivity.
  - rewrite (healthCheckLoop_cons_probe s clock i0 q rest st Hurl). cbn [fst].
    rewrite IH. unfold probed. cbn [List.filter].
    destruct (String.eqb_spec (service.HealthCheckURL (objs st q)) "");
      [contradiction|reflexivity].
Qed.

(** X12.  A sweep starts a probe for exactly the listed services that have a
    health-check URL, in the order listed, and itself neither changes nor
    writes back any of them. *)
Theorem sweep_starts_probes (st : store) :
  let r := registry.performHealthChecks s clock st in
  r.1 = List.filter
          (fun p => negb (String.eqb (service.HealthCheckURL (objs st p)) ""))
          (map snd (map_to_list (services st)))
  /\ (forall p, service.HealthCheckURL (objs st p) <> "" -> objs r.2 p = objs st p)
  /\ (exists new, updates r.2 = (new ++ updates st)%list
                  /\ forall p, p ∈ r.1 -> p ∉ new).
Proof.
  cbv zeta. rewrite performHealthChecks_run.
  split; [apply healthCheckLoop_probes|].
  destruct (healthCheckLoop_spec s clock (map snd (map_to_list (services st))) 0%nat st)
    as (_ & _ & H3 & (new & Hnew & Hin) & _).
  assert (Hnm : forall p, service.HealthCheckURL (objs st p) <> "" ->
                ~ marked s clock (objs st) 0 (map snd (map_to_list (services st))) p).
  { intros p Hurl (j & _ & Hu & _). contradiction. }
  split.
  - intros p Hurl. apply H3, Hnm, Hurl.
  - exists new. split; [exact Hnew|].
    intros p Hp. rewrite healthCheckLoop_probes in Hp.
    apply list_elem_of_In, List.filter_In in Hp. destruct Hp as [_ Hp].
    rewrite Hin. apply Hnm.
    destruct (String.eqb_spec (service.HealthCheckURL (objs st p)) "");
      [discriminate|assumption].
Qed.

End Probes.

(** ** Auth service: revocation *)
Section Revocation.

Lemma Authenticate_result (a : auth.Service) (now : time.Time) (authHeader : string)
    (logs logs' : list entry) :
  (middleware.Authenticate a now authHeader logs).1
  = (middleware.Authenticate a now authHeader logs').1.
Proof.
  unfold middleware.Authenticate.
  destruct (String.eqb authHeader ""); [reflexivity|].
  destruct (strings.Split authHeader " ") as [|scheme [|tok [|x rest]]];
    try reflexivity.
  destruct (negb (String.eqb scheme "Bearer")); [reflexivity|].
  rewrite !bind_run. unfold auth.ValidateToken.
  destruct (jwt.Validate (auth.jwtService a) now tok); [reflexivity|].
  rewrite !bind_run. reflexivity.
Qed.

(** X17.  [RevokeToken] returns no error and writes one log entry; what
    [Authenticate] and [RefreshToken] answer for any token, the revoked one
    included, is as before. *)
Theorem RevokeToken_revokes_nothing (a : auth.Service) (tokenString : string)
    (logs : list entry) :
  let r := auth.RevokeToken a tokenString logs in
  r.1 = None
  /\ r.2 = (LevelInfo, "token revoked") :: logs
  /\ (forall now authHeader,
        (middleware.Authenticate a now authHeader r.2).1
        = (middleware.Authenticate a now authHeader logs).1)
  /\ (forall now now',
        (auth.RefreshToken a now now' tokenString r.2).1
        = (auth.RefreshToken a now now' tokenString logs).1).
Proof.
  cbv zeta. split; [reflexivity|]. split; [reflexivity|]. split.
  - intros now authHeader. apply Authenticate_result.
  - intros now now'. unfold auth.RefreshToken.
    destruct (jwt.Validate (auth.jwtService a) now tokenString) as [cl|];
      [|reflexivity].
    rewrite !bind_run. unfold auth.IssueToken.
    destruct (jwt.Generate (auth.jwtService a) now' cl); rewrite !bind_run; reflexivity.
Qed.

End Revocation.

(** ** Token authority: formats, bearer tokens and renewal *)

Section Bearer.

Lemma Split_length (s : string) (sep : ascii) :
  length (strings.Split s sep) = S (countByte s sep).
Proof.
  induction s as [|c s IH]; [reflexivity|].
  cbn [strings.Split countByte].
  destruct (Ascii.eqb c sep).
  - cbn [length]. rewrite IH. reflexivity.
  - destruct (strings.Split s sep) as [|part parts]; [discriminate IH|].
    cbn [length] in *. lia.
Qed.

(** X13.  [Validate] answers "invalid token format" exactly for the strings
    that do not hold two periods. *)
Theorem Validate_format (s : jwt.jwtService) (now : time.Time) (tokenString : string) :
  jwt.Validate s now tokenString = Err (Errorf "invalid token format")
  <-> countByte tokenString "." <> 2%nat.
Proof.
  pose proof (Split_length tokenString ".") as Hlen.
  unfold jwt.Validate.
  destruct (strings.Split tokenString ".") as [|h [|c [|sig [|x rest]]]];
    cbn [length] in Hlen.
  - split; [intros _; lia|reflexivity].
  - split; [intros _; lia|reflexivity].
  - split; [intros _; lia|reflexivity].
  - split; [|intros H; exfalso; apply H; lia].
    destruct (negb (hmac.Equal sig (jwt.sign s (h ++ "." ++ c)))); [discriminate|].
    destruct (base64.DecodeString c) as [js|]; [|discriminate].
    destruct (token.UnmarshalClaims js) as [cl|]; [|discriminate].
    destruct (time.After now (token.ExpiresAt cl)); discriminate.
  - split; [intros _; lia|reflexivity].
Qed.

Lemma sign_no_period (s : jwt.jwtService) (message : string) :
  strings.ContainsByte (jwt.sign s message) "." = false.
Proof. unfold jwt.sign. apply EncodeToString_no_period. Qed.

(** [Validate] on a signed message of two segments. *)
Lemma Validate_signed (s : jwt.jwtService) (now : time.Time) (h c : string) :
  strings.ContainsByte h "." = false ->
  strings.ContainsByte c "." = false ->
  jwt.Validate s now (signed s (h ++ "." ++ c))
  = match base64.DecodeString c with
    | Err err => Err (Errorf_w "decode claims" err)
    | Ok claimsJSON =>
        match token.UnmarshalClaims claimsJSON with
        | Err err => Err (Errorf_w "unmarshal claims" err)
        | Ok claims =>
            if time.After now (token.ExpiresAt claims)
            then Err (Errorf "token expired") else Ok claims
        end
    end.
Proof.
  intros Hh Hc. unfold signed, jwt.Validate.
  rewrite (Split_three h c _ Hh Hc (sign_no_period s _)).
  unfold hmac.Equal. rewrite String.eqb_refl. reflexivity.
Qed.

(** X14.  [Validate] does not read the header segment: with the signature
    computed over it, any text without a period in its place gives the
    same answer. *)
Theorem Validate_ignores_header (s : jwt.jwtService) (now : time.Time)
    (h h' c : string) :
  strings.ContainsByte h "." = false ->
  strings.ContainsByte h' "." = false ->
  strings.ContainsByte c "." = false ->
  jwt.Validate s now (signed s (h ++ "." ++ c))
  = jwt.Validate s now (signed s (h' ++ "." ++ c)).
Proof.
  intros Hh Hh' Hc.
  rewrite (Validate_signed s now h c Hh Hc), (Validate_signed s now h' c Hh' Hc).
  reflexivity.
Qed.

(** The token [Generate] returns for claims that come back from their
    encoding, and what [Validate] makes of it. *)
Lemma Generate_Validate (s : jwt.jwtService) (now : time.Time)
    (claims : token.Claims) :
  restorableClaims (stamp (jwt.config s) now claims) = true ->
  exists js,
    jwt.Generate s now claims
    = Ok {| token.Value :=
              signed s (base64.EncodeToString (json.encodeStringMap jwt.header)
                        ++ "." ++ base64.EncodeToString js);
            token.TokenType := token.TypeAccess;
            token.TokenExpiresAt := time.Add now (jwt.AccessTokenTTL (jwt.config s));
            token.TokenIssuedAt := now;
            token.TokenClaims := [] |}
    /\ forall now',
         jwt.Validate s now'
           (signed s (base64.EncodeToString (json.encodeStringMap jwt.header)
                      ++ "." ++ base64.EncodeToString js))
         = if time.After now' (time.Add now (jwt.AccessTokenTTL (jwt.config s)))
           then Err (Errorf "token expired")
           else Ok (stamp (jwt.config s) now claims).
Proof.
  intros Hvalid.
  destruct (UnmarshalClaims_MarshalClaims _ Hvalid) as (js & Hm & Hu).
  exists js. rewrite Generate_run, Hm. split; [reflexivity|].
  intros now'.
  rewrite Validate_signed by apply EncodeToString_no_period.
  rewrite DecodeString_EncodeToString, Hu. reflexivity.
Qed.

Lemma append_not_empty (a b : string) (c : ascii) :
  String.eqb (a ++ String c b) "" = false.
Proof. destruct a; reflexivity. Qed.


Lemma stamp_stamp (cfg : jwt.Config) (now now' : time.Time) (claims : token.Claims) :
  stamp cfg now' (stamp cfg now claims) = stamp cfg now' claims.
Proof. reflexivity. Qed.


Lemma Split_two (s x y : string) (sep : ascii) :
  strings.Split s sep = [x; y] ->
  s = (x ++ String sep y)%string
  /\ strings.ContainsByte x sep = false
  /\ strings.ContainsByte y sep = false.
Proof.
  revert x. induction s as [|c s IH]; intros x H; [discriminate|].
  cbn [strings.Split] in H.
  destruct (Ascii.eqb_spec c sep) as [->|Hne].
  - injection H as <- Hs. rewrite append_nil_l.
    destruct (strings.ContainsByte s sep) eqn:Hc.
    + destruct (Split_sep s sep Hc) as (a & b & rest & Hab).
      rewrite Hab in Hs. discriminate.
    + rewrite (Split_no_sep s sep Hc) in Hs. injection Hs as <-.
      split; [reflexivity|split; [reflexivity|exact Hc]].
  - destruct (strings.Split s sep) as [|part parts] eqn:Hs; [discriminate|].
    injection H as <- ->.
    destruct (IH part eq_refl) as (-> & Hx & Hy).
    rewrite append_cons. split; [reflexivity|]. split; [|exact Hy].
    cbn [strings.ContainsByte]. rewrite Hx.
    destruct (Ascii.eqb_spec c sep); [contradiction|reflexivity].
Qed.

Lemma encode_not_space :
  forallb (fun x => negb (Ascii.eqb (base64.encode x) " ")) base64.sextets = true.
Proof. vm_compute. reflexivity. Qed.

Lemma EncodeToString_no_space (src : string) :
  strings.ContainsByte (base64.EncodeToString src) " " = false.
Proof.
  unfold base64.EncodeToString.
  induction (base64.split6 (list_ascii_of_string src)) as [|x rest IH];
    simpl; [reflexivity|].
  rewrite IH, orb_false_r.
  pose proof encode_not_space as H. rewrite forallb_forall in H.
  specialize (H x (sextets_all x)). apply negb_true_iff in H. exact H.
Qed.

(** X18.  [Authenticate] calls the next handler exactly for a header that is
    "Bearer", one space, and a token without a space that [Validate]
    accepts, with the claims [Validate] returned; every other request is
    answered with the status 401. *)
Theorem Authenticate_passes (a : auth.Service) (now : time.Time)
    (authHeader : string) (logs : list entry) :
  (forall claims,
     (middleware.Authenticate a now authHeader logs).1 = middleware.Next claims
     <-> exists tok,
           authHeader = ("Bearer " ++ tok)%string
           /\ strings.ContainsByte tok " " = false
           /\ jwt.Validate (auth.jwtService a) now tok = Ok claims)
  /\ (forall r,
        (middleware.Authenticate a now authHeader logs).1 = middleware.Answered r ->
        http.status r = http.StatusUnauthorized).
Proof.
  unfold middleware.Authenticate.
  destruct (String.eqb_spec authHeader "") as [->|Hne].
  { split.
    - intros claims. split; [discriminate|].
      intros (tok & H & _). discriminate H.
    - intros r H. injection H as <-. reflexivity. }
  destruct (strings.Split authHeader " ") as [|scheme [|tok [|x rest]]] eqn:Hs.
  - split.
    + intros claims. split; [discriminate|]. intros (tok & -> & Ht & _).
      exfalso. revert Hs. apply Split_nonempty.
    + intros r H. injection H as <-. reflexivity.
  - split.
    + intros claims. split; [discriminate|]. intros (tok & -> & Ht & _).
      change ("Bearer " ++ tok)%string with ("Bearer" ++ String " " tok)%string in Hs.
      rewrite Split_app in Hs by reflexivity.
      rewrite (Split_no_sep tok " " Ht) in Hs. discriminate.
    + intros r H. injection H as <-. reflexivity.
  - destruct (Split_two _ _ _ _ Hs) as (Hh & Hsch & Htok).
    destruct (String.eqb_spec scheme "Bearer") as [->|Hsc]; cbn [negb].
    + rewrite bind_run. unfold auth.ValidateToken.
      destruct (jwt.Validate (auth.jwtService a) now tok) as [cl|e] eqn:Hv.
      * cbn. split.
        -- intros claims. split.
           ++ intros H. injection H as <-. exists tok. rewrite Hh. auto.
           ++ intros (tok' & Heq & _ & Hv'). rewrite Hh in Heq.
              repeat (rewrite append_cons in Heq || rewrite append_nil_l in Heq).
              injection Heq as <-. rewrite Hv in Hv'. congruence.
        -- intros r H. discriminate H.
      * rewrite bind_run. cbn. split.
        -- intros claims. split; [discriminate|].
           intros (tok' & Heq & _ & Hv'). rewrite Hh in Heq.
           repeat (rewrite append_cons in Heq || rewrite append_nil_l in Heq).
           injection Heq as <-. rewrite Hv in Hv'. discriminate.
        -- intros r H. injection H as <-. reflexivity.
    + split.
      * intros claims. split; [discriminate|]. intros (tok' & Heq & Ht & _).
        rewrite Heq in Hs.
        change ("Bearer " ++ tok')%string with ("Bearer" ++ String " " tok')%string in Hs.
        rewrite Split_app in Hs by reflexivity.
        rewrite (Split_no_sep tok' " " Ht) in Hs. injection Hs as <- _.
        contradiction.
      * intros r H. injection H as <-. reflexivity.
  - split.
    + intros claims. split; [discriminate|]. intros (tok' & -> & Ht & _).
      change ("Bearer " ++ tok')%string with ("Bearer" ++ String " " tok')%string in Hs.
      rewrite Split_app in Hs by reflexivity.
      rewrite (Split_no_sep tok' " " Ht) in Hs. discriminate.
    + intros r H. injection H as <-. reflexivity.
Qed.


End Bearer.

(** ** Session identifiers *)
Section Identifiers.

Lemma formatBits_posDigits (fuel : nat) :
  forall (u : Z) (acc : string),
    strconv.formatBits fuel u acc = json.posDigits fuel u acc.
Proof.
  induction fuel as [|fuel IH]; intros u acc; [reflexivity|].
  cbn [strconv.formatBits json.posDigits]. rewrite IH. reflexivity.
Qed.

Lemma FormatInt_formatInt (i : Z) : strconv.FormatInt i = json.formatInt i.
Proof.
  unfold strconv.FormatInt, json.formatInt. rewrite !formatBits_posDigits.
  reflexivity.
Qed.

Lemma leading_digit (c : ascii) :
  49 <= utf8.byte c <= 57 -> c <> "0"%char /\ c <> "-"%char.
Proof.
  intros H. split; intros ->; vm_compute in H; destruct H as [H _];
    apply H; reflexivity.
Qed.

Lemma formatInt_inj (a b : Z) : json.formatInt a = json.formatInt b -> a = b.
Proof.
  intros H.
  destruct (formatInt_shape a) as [[-> Ha]|(c & ds & Hc & _ & Ha)];
    destruct (formatInt_shape b) as [[-> Hb]|(c' & ds' & Hc' & _ & Hb)].
  - reflexivity.
  - exfalso. rewrite Ha in H. destruct (leading_digit c' Hc') as [H0 _].
    destruct Hb as [(_ & Hb & _)|(_ & Hb & _)]; rewrite Hb in H;
      [injection H as H _; congruence|discriminate H].
  - exfalso. rewrite Hb in H. destruct (leading_digit c Hc) as [H0 _].
    destruct Ha as [(_ & Ha & _)|(_ & Ha & _)]; rewrite Ha in H;
      [injection H as H _; congruence|discriminate H].
  - destruct (leading_digit c Hc) as [_ Hm]. destruct (leading_digit c' Hc') as [_ Hm'].
    destruct Ha as [(_ & Ha & Hva)|(_ & Ha & Hva)];
      destruct Hb as [(_ & Hb & Hvb)|(_ & Hb & Hvb)];
      rewrite Ha, Hb in H.
    + injection H as -> ->. lia.
    + exfalso. injection H as H _. congruence.
    + exfalso. injection H as H _. congruence.
    + injection H as -> ->. lia.
Qed.

Lemma wrap64_small (z : Z) : - 2 ^ 63 <= z < 2 ^ 63 -> time.wrap64 z = z.
Proof.
  intros H. unfold time.wrap64. rewrite Z.mod_small by lia. lia.
Qed.

Lemma append_inj_r (p a b : string) : (p ++ a = p ++ b)%string -> a = b.
Proof.
  induction p as [|c p IH]; intros H.
  - rewrite !append_nil_l in H. exact H.
  - rewrite !append_cons in H. injection H as H. exact (IH H).
Qed.

(** X3.  Two clock readings within the range of [int64] nanoseconds give the
    same session identifier exactly when they are the same reading. *)
Theorem generateSessionID_distinct (t1 t2 : time.Time) :
  - 2 ^ 63 <= t1 < 2 ^ 63 ->
  - 2 ^ 63 <= t2 < 2 ^ 63 ->
  (sessionsvc.generateSessionID t1 = sessionsvc.generateSessionID t2 <-> t1 = t2).
Proof.
  intros H1 H2. split; [|intros ->; reflexivity].
  unfold sessionsvc.generateSessionID, time.UnixNano. intros H.
  apply append_inj_r in H. rewrite !FormatInt_formatInt in H.
  apply formatInt_inj in H.
  rewrite (wrap64_small t1 H1), (wrap64_small t2 H2) in H. exact H.
Qed.

End Identifiers.

(** ** Handlers: the identifier of a path *)
Section Handlers.

Lemma last_Split_app (a b : string) (sep : ascii) (d : string) :
  List.last (strings.Split (a ++ String sep b) sep) d
  = List.last (strings.Split b sep) d.
Proof.
  induction a as [|c a IH].
  - rewrite append_nil_l. cbn [strings.Split]. rewrite Ascii.eqb_refl.
    destruct (strings.Split b sep) as [|x l] eqn:Hs; [|reflexivity].
    exfalso. revert Hs. apply Split_nonempty.
  - rewrite append_cons. cbn [strings.Split].
    destruct (Ascii.eqb c sep).
    + destruct (strings.Split (a ++ String sep b) sep) as [|x l] eqn:Hs.
      * exfalso. revert Hs. apply Split_nonempty.
      * rewrite <- IH. reflexivity.
    + assert (Hc : strings.ContainsByte (a ++ String sep b) sep = true).
      { rewrite ContainsByte_app. cbn [strings.ContainsByte].
        rewrite Ascii.eqb_refl. apply orb_true_r. }
      destruct (Split_sep _ _ Hc) as (x & y & rest & Hs).
      rewrite Hs in IH |- *. rewrite <- IH. reflexivity.
Qed.

Lemma last_Split_no_sep (s : string) (sep : ascii) :
  strings.ContainsByte (List.last (strings.Split s sep) "") sep = false.
Proof.
  induction s as [|c s IH]; [reflexivity|].
  cbn [strings.Split].
  destruct (Ascii.eqb_spec c sep) as [->|Hne].
  - destruct (strings.Split s sep) as [|x l] eqn:Hs; [reflexivity|exact IH].
  - destruct (strings.Split s sep) as [|x [|y l]] eqn:Hs.
    + exfalso. revert Hs. apply Split_nonempty.
    + cbn [List.last] in *. cbn [strings.ContainsByte]. rewrite IH.
      destruct (Ascii.eqb_spec c sep); [contradiction|reflexivity].
    + exact IH.
Qed.

Lemma extractID_last (path : string) :
  sessionhandler.extractID path = List.last (strings.Split path "/") "".
Proof.
  unfold sessionhandler.extractID.
  destruct (strings.Split path "/"); reflexivity.
Qed.

Lemma extractID_same (path : string) :
  registryhandler.extractID path = sessionhandler.extractID path.
Proof. reflexivity. Qed.

Lemma extractID_app (dir id : string) :
  strings.ContainsByte id "/" = false ->
  sessionhandler.extractID (dir ++ "/" ++ id) = id.
Proof.
  intros Hid. rewrite extractID_last.
  change ("/" ++ id)%string with (String "/"%char id).
  rewrite last_Split_app, (Split_no_sep id "/" Hid). reflexivity.
Qed.

(** X20.  [extractID] returns the text after the last slash of the path, the
    whole path when it has no slash; the result holds no slash.  The two
    handlers have the same function. *)
Theorem extractID_last_segment (path : string) :
  strings.ContainsByte (sessionhandler.extractID path) "/" = false
  /\ (forall dir id, strings.ContainsByte id "/" = false ->
        sessionhandler.extractID (dir ++ "/" ++ id) = id)
  /\ (strings.ContainsByte path "/" = false -> sessionhandler.extractID path = path)
  /\ registryhandler.extractID path = sessionhandler.extractID path.
Proof.
  split; [rewrite extractID_last; apply last_Split_no_sep|].
  split; [exact extractID_app|]. split; [|reflexivity].
  intros H. rewrite extractID_last, (Split_no_sep path "/" H). reflexivity.
Qed.

(** X21.  The handlers [Delete] of sessions and [Deregister] of services
    answer 400 when the path ends in a slash, and 204 otherwise, whether
    or not the entry exists; the entry of the last path segment is removed
    and no object is touched. *)
Theorem Delete_handlers_answer (dir id : string) :
  strings.ContainsByte id "/" = false ->
  (forall st : memory_session.store,
     let r := sessionhandler.Delete (dir ++ "/" ++ id) st in
     if String.eqb id ""
     then r = (http.Error "session id required" http.StatusBadRequest, st)
     else r.1 = http.WriteHeader http.StatusNoContent
          /\ memory_session.sessions r.2 = delete id (memory_session.sessions st)
          /\ memory_session.objs r.2 = memory_session.objs st)
  /\ (forall st : memory_registry.store,
        let r := registryhandler.Deregister (dir ++ "/" ++ id) st in
        if String.eqb id ""
        then r = (http.Error "service id required" http.StatusBadRequest, st)
        else r.1 = http.WriteHeader http.StatusNoContent
             /\ memory_registry.services r.2 = delete id (memory_registry.services st)
             /\ memory_registry.objs r.2 = memory_registry.objs st).
Proof.
  intros Hid. split; intros st; cbv zeta.
  - unfold sessionhandler.Delete. rewrite (extractID_app dir id Hid).
    destruct (String.eqb id ""); [reflexivity|].
    rewrite bind_run. unfold sessionsvc.Delete. rewrite bind_run.
    unfold memory_session.Delete. cbn [fst snd]. rewrite bind_run.
    cbn. split; [reflexivity|]. split; reflexivity.
  - unfold registryhandler.Deregister. rewrite extractID_same, (extractID_app dir id Hid).
    destruct (String.eqb id ""); [reflexivity|].
    rewrite bind_run. unfold registry.Deregister. rewrite bind_run.
    unfold memory_registry.Deregister. cbn [fst snd]. rewrite bind_run.
    cbn. split; [reflexivity|]. split; reflexivity.
Qed.

(** X22.  The handler [Heartbeat] answers 500 "failed to update heartbeat"
    for an identifier that is not registered, leaving the store as it was,
    and 204 for a registered service, whose last-heartbeat is then the
    clock reading and whose status is healthy. *)
Theorem Heartbeat_handler_answers (now : time.Time) (dir id : string)
    (st : memory_registry.store) :
  strings.ContainsByte id "/" = false ->
  id <> "" ->
  let r := registryhandler.Heartbeat now (dir ++ "/" ++ id) st in
  (memory_registry.services st !! id = None ->
   r = (http.Error "failed to update heartbeat" http.StatusInternalServerError, st))
  /\ (forall svc,
        memory_registry.services st !! id = Some svc ->
        service.ID (memory_registry.objs st svc) = id ->
        r.1 = http.WriteHeader http.StatusNoContent
        /\ memory_registry.objs r.2 svc
           = service.set_Status service.StatusHealthy
               (service.set_LastHeartbeat now (memory_registry.objs st svc))).
Proof.
  intros Hid Hne. cbv zeta. unfold registryhandler.Heartbeat.
  rewrite extractID_same, (extractID_app dir id Hid).
  destruct (String.eqb_spec id ""); [contradiction|].
  rewrite bind_run. split.
  - intros Hnone. rewrite (Heartbeat_unknown now id st Hnone). reflexivity.
  - intros svc Hsvc HID.
    destruct (Heartbeat_state now id svc st Hsvc HID) as (H1 & H2 & _).
    rewrite H1. cbn [ret fst snd]. split; [reflexivity|exact H2].
Qed.

End Handlers.

(** ** What a handler tells and what [Generate] returns *)
Section Answers.

(** X27.  The handler [Get] gives one answer, 404 "session not found", both
    for an identifier that is not stored and for a session that has
    expired; a session that has not expired is encoded, and the store is
    left as it was. *)
Theorem Get_handler_masks_expiry (now : time.Time) (dir id : string)
    (st : memory_session.store) :
  strings.ContainsByte id "/" = false ->
  id <> "" ->
  let r := sessionhandler.Get now (dir ++ "/" ++ id) st in
  (memory_session.sessions st !! id = None ->
   r.1 = sessionhandler.Failed (http.Error "session not found" http.StatusNotFound))
  /\ (forall sess,
        memory_session.sessions st !! id = Some sess ->
        session.ExpiresAt (memory_session.objs st sess) < now ->
        r.1 = sessionhandler.Failed (http.Error "session not found" http.StatusNotFound))
  /\ (forall sess,
        memory_session.sessions st !! id = Some sess ->
        now <= session.ExpiresAt (memory_session.objs st sess) ->
        r = (sessionhandler.Encoded sess, st)).
Proof.
  intros Hid Hne. cbv zeta. unfold sessionhandler.Get.
  rewrite (extractID_app dir id Hid).
  destruct (String.eqb_spec id ""); [contradiction|].
  rewrite bind_run. split; [|split].
  - intros Hnone. rewrite (Get_not_found now id st Hnone). reflexivity.
  - intros sess Hs Hexp. rewrite (Get_expired now id st sess Hs Hexp). reflexivity.
  - intros sess Hs Hlive. rewrite (Get_live now id st sess Hs) by lia. reflexivity.
Qed.

Lemma countByte_app (a b : string) (sep : ascii) :
  countByte (a ++ b) sep = (countByte a sep + countByte b sep)%nat.
Proof.
  induction a as [|c a IH]; [reflexivity|].
  rewrite append_cons. cbn [countByte]. rewrite IH. lia.
Qed.

Lemma countByte_none (a : string) (sep : ascii) :
  strings.ContainsByte a sep = false -> countByte a sep = 0%nat.
Proof.
  induction a as [|c a IH]; [reflexivity|].
  cbn [strings.ContainsByte countByte]. intros H.
  apply orb_false_iff in H. destruct H as [Hc Ha].
  rewrite Hc, (IH Ha). reflexivity.
Qed.

(** X28.  A token [Generate] returns holds exactly two periods, is of the
    type access, issued at the clock reading and expiring the access
    lifetime later, and carries no claims map; [Validate] of the same
    authority never answers "invalid token format" or "invalid signature"
    for it. *)
Theorem Generate_returns (s : jwt.jwtService) (now : time.Time)
    (claims : token.Claims) (tok : token.Token) :
  jwt.Generate s now claims = Ok tok ->
  countByte (token.Value tok) "." = 2%nat
  /\ token.TokenType tok = token.TypeAccess
  /\ token.TokenIssuedAt tok = now
  /\ token.TokenExpiresAt tok = now + jwt.AccessTokenTTL (jwt.config s)
  /\ token.TokenClaims tok = []
  /\ (forall now',
        jwt.Validate s now' (token.Value tok) <> Err (Errorf "invalid token format")
        /\ jwt.Validate s now' (token.Value tok) <> Err (Errorf "invalid signature")).
Proof.
  rewrite Generate_run.
  destruct (token.MarshalClaims (stamp (jwt.config s) now claims)) as [js|e];
    [|discriminate].
  intros H. injection H as <-.
  cbn [token.Value token.TokenType token.TokenIssuedAt token.TokenExpiresAt
       token.TokenClaims].
  split; [|split; [reflexivity|split; [reflexivity|split; [reflexivity|split;
    [reflexivity|]]]]].
  - unfold signed. rewrite !countByte_app.
    rewrite !(countByte_none (base64.EncodeToString _) "."
                (EncodeToString_no_period _)).
    rewrite (countByte_none (jwt.sign s _) "." (sign_no_period s _)).
    reflexivity.
  - intros now'.
    rewrite Validate_signed by apply EncodeToString_no_period.
    destruct (base64.DecodeString (base64.EncodeToString js)) as [js'|];
      [|split; discriminate].
    destruct (token.UnmarshalClaims js') as [cl|]; [|split; discriminate].
    destruct (time.After now' (token.ExpiresAt cl)); split; discriminate.
Qed.

End Answers.

(** ** Logger: the threshold *)

Section Logger.

Lemma levels_text (lv : Level) : logger.levels !! logger.text lv = Some (severity lv).
Proof. destruct lv; reflexivity. Qed.

Lemma levels_other (s : string) :
  (forall lv, s <> logger.text lv) -> logger.levels !! s = None.
Proof.
  intros H. unfold logger.levels.
  rewrite lookup_insert_ne by (intros E; exact (H LevelDebug (eq_sym E))).
  rewrite lookup_insert_ne by (intros E; exact (H LevelInfo (eq_sym E))).
  rewrite lookup_insert_ne by (intros E; exact (H LevelWarn (eq_sym E))).
  apply lookup_singleton_ne. intros E. exact (H LevelError (eq_sym E)).
Qed.

Lemma method_run (lv : Level) (l : logger.logger) (message : string)
    (logs : list entry) :
  method lv l message logs
  = (tt, if logger.shouldLog l lv then (lv, message) :: logs else logs).
Proof.
  destruct lv; cbn [method];
    unfold logger.Debug, logger.Info, logger.Warn, logger.Error;
    match goal with |- context [logger.shouldLog l ?x] =>
      destruct (logger.shouldLog l x) end; reflexivity.
Qed.

(** X23.  A logger configured with one of the four levels writes a call
    exactly when its level is at least the configured one; configured
    with any other string it writes every call; a call of [Error] is
    always written. *)
Theorem logger_threshold (configLevel : string) (lv : Level) (message : string)
    (logs : list entry) :
  let l := logger.New configLevel in
  (forall lv0, configLevel = logger.text lv0 ->
     method lv l message logs
     = (tt, if severity lv0 <=? severity lv then (lv, message) :: logs else logs))
  /\ ((forall lv0, configLevel <> logger.text lv0) ->
      method lv l message logs = (tt, (lv, message) :: logs))
  /\ logger.Error l message logs = (tt, (LevelError, message) :: logs).
Proof.
  cbv zeta. change logger.Error with (method LevelError). rewrite !method_run.
  unfold logger.shouldLog, logger.New. cbn [logger.level].
  rewrite !levels_text. cbn [from_option id].
  split; [|split].
  - intros lv0 ->. rewrite (levels_text lv0). reflexivity.
  - intros H. rewrite (levels_other configLevel H). cbn [from_option id].
    destruct lv; reflexivity.
  - cbn [severity].
    destruct (logger.levels !! configLevel) as [z|] eqn:Hz; cbn [from_option id];
      [|reflexivity].
    assert (Hle : z <= 3).
    { unfold logger.levels in Hz.
      repeat (apply lookup_insert_Some in Hz; destruct Hz as [[_ <-]|[_ Hz]]; [lia|]).
      apply lookup_singleton_Some in Hz. destruct Hz as [_ <-]. lia. }
    destruct (Z.leb_spec z 3); [reflexivity|lia].
Qed.

End Logger.

(** ** CORS *)
Section CORS.

Lemma isAllowedOrigin_spec (origin : string) (allowed : list string) :
  middleware.isAllowedOrigin origin allowed = true
  <-> "*" ∈ allowed \/ origin ∈ allowed.
Proof.
  induction allowed as [|o rest IH]; cbn [middleware.isAllowedOrigin].
  - split; [discriminate|]. intros [H|H]; inversion H.
  - destruct (String.eqb_spec o "*") as [->|Hstar]; cbn [orb].
    + split; [intros _; left; left|reflexivity].
    + destruct (String.eqb_spec o origin) as [->|Hne].
      * split; [intros _; right; left|reflexivity].
      * rewrite IH. rewrite !elem_of_cons. split.
        -- intros [H|H]; [left|right]; right; exact H.
        -- intros [[H|H]|[H|H]]; try congruence; [left|right]; exact H.
Qed.

(** X24.  [CORS] does nothing when disabled.  When enabled it sets
    Access-Control-Allow-Origin exactly for a request with an origin that
    the configuration lists or that it allows by "*", and always to the
    origin of the request; it answers an OPTIONS request itself with 204
    and calls the next handler for every other method. *)
Theorem CORS_headers (cfg : middleware.CORSConfig) (method origin : string) :
  let r := middleware.CORS cfg method origin in
  (middleware.Enabled cfg = false ->
   r = {| middleware.headers := []; middleware.answered := None |})
  /\ (middleware.Enabled cfg = true ->
      (forall v,
         ("Access-Control-Allow-Origin", v) ∈ middleware.headers r
         <-> v = origin /\ origin <> ""
             /\ ("*" ∈ middleware.AllowedOrigins cfg
                 \/ origin ∈ middleware.AllowedOrigins cfg))
      /\ (middleware.answered r
          = if String.eqb method "OPTIONS" then Some http.StatusNoContent else None)).
Proof.
  cbv zeta. unfold middleware.CORS. split; intros He; rewrite He; cbn [negb].
  - reflexivity.
  - split.
    + intros v.
      assert (Hrest : forall a b c : string,
                ("Access-Control-Allow-Origin", v)
                ∈ [("Access-Control-Allow-Methods", a);
                   ("Access-Control-Allow-Headers", b);
                   ("Access-Control-Max-Age", c)] -> False).
      { intros a b c H. rewrite !elem_of_cons in H.
        destruct H as [H|[H|[H|H]]]; try discriminate H. inversion H. }
      assert (Hhd : forall h : list (string * string),
                ("Access-Control-Allow-Origin", v) ∈ middleware.headers
                  (if String.eqb method http.MethodOptions
                   then {| middleware.headers := h;
                           middleware.answered := Some http.StatusNoContent |}
                   else {| middleware.headers := h; middleware.answered := None |})
                <-> ("Access-Control-Allow-Origin", v) ∈ h)
        by (intros h; destruct (String.eqb method http.MethodOptions); reflexivity).
      rewrite Hhd. clear Hhd.
      destruct (String.eqb_spec origin "") as [->|Hne]; cbn [negb andb].
      * cbn [app]. split; [intros H; exfalso; exact (Hrest _ _ _ H)|].
        intros (_ & H & _). contradiction.
      * destruct (middleware.isAllowedOrigin origin (middleware.AllowedOrigins cfg))
          eqn:Ha.
        -- apply isAllowedOrigin_spec in Ha. cbn [app]. rewrite elem_of_cons. split.
           ++ intros [H|H]; [|exfalso; exact (Hrest _ _ _ H)].
              injection H as ->. auto.
           ++ intros (-> & _). left. reflexivity.
        -- cbn [app]. split; [intros H; exfalso; exact (Hrest _ _ _ H)|].
           intros (_ & _ & H). apply isAllowedOrigin_spec in H. congruence.
    + destruct (String.eqb method http.MethodOptions) eqn:Hm;
        unfold http.MethodOptions in Hm; rewrite Hm; reflexivity.
Qed.

End CORS.

(** ** Configuration repository *)

Section Config.
Import memory_config.

Lemma Get_result (serviceID version : string) (st : store) :
  (Get serviceID version st).1
  = match configs st !! serviceID with
    | None => Err (Errorf "service not found")
    | Some versions =>
        match versions !! version with
        | None => Err (Errorf "version not found")
        | Some config => Ok config
        end
    end.
Proof.
  unfold Get. destruct (configs st !! serviceID) as [vs|]; [|reflexivity].
  destruct (vs !! version); reflexivity.
Qed.

Lemma Set_state (serviceID version : string) (config : loc) (st : store) :
  Set_ serviceID version config st
  = (None,
     {| configs := <[serviceID := <[version := config]>
                                    (default ∅ (configs st !! serviceID))]>
                     (configs st) |}).
Proof.
  unfold Set_. destruct (configs st !! serviceID) as [vs|] eqn:Hsv.
  - rewrite Hsv. reflexivity.
  - rewrite lookup_insert_eq, insert_insert_eq. reflexivity.
Qed.

(** X25.  [Set] never fails; [Get] then returns the configuration stored for
    the service and version, answers as before for other services and for
    other versions of a service that was known, and "version not found"
    for other versions of a service that was not.  [Set] keeps every
    stored service with at least one version. *)
Theorem Set_then_Get (serviceID version : string) (config : loc) (st : store) :
  let r := Set_ serviceID version config st in
  r.1 = None
  /\ (Get serviceID version r.2).1 = Ok config
  /\ (forall s v, s <> serviceID -> (Get s v r.2).1 = (Get s v st).1)
  /\ (forall v, v <> version ->
        (Get serviceID v r.2).1
        = match configs st !! serviceID with
          | Some _ => (Get serviceID v st).1
          | None => Err (Errorf "version not found")
          end)
  /\ (wellKept st -> wellKept r.2).
Proof.
  cbv zeta. rewrite Set_state. cbn [fst snd].
  split; [reflexivity|]. split; [|split; [|split]].
  - rewrite Get_result. cbn [configs].
    rewrite lookup_insert_eq, lookup_insert_eq. reflexivity.
  - intros s v Hs. rewrite !Get_result. cbn [configs].
    rewrite lookup_insert_ne by congruence. reflexivity.
  - intros v Hv. rewrite !Get_result. cbn [configs].
    rewrite lookup_insert_eq, lookup_insert_ne by congruence.
    destruct (configs st !! serviceID) as [vs|]; [reflexivity|].
    cbn [from_option id]. rewrite lookup_empty. reflexivity.
  - intros Hk s vs Hs. cbn [configs] in Hs.
    destruct (decide (serviceID = s)) as [<-|Hne].
    + rewrite lookup_insert_eq in Hs. injection Hs as <-.
      apply insert_non_empty.
    + rewrite lookup_insert_ne in Hs by exact Hne. exact (Hk s vs Hs).
Qed.

(** X26.  In a repository where every stored service has a version, [Delete]
    never fails; [Get] then fails for the service and version and returns
    the other versions as before; the service itself is dropped with its
    last version, so that [List] is empty exactly when [Get] answers
    "service not found"; and every stored service still has a version. *)
Theorem Delete_then_Get_config (serviceID version : string) (st : store) :
  wellKept st ->
  let r := Delete serviceID version st in
  r.1 = None
  /\ (exists err, (Get serviceID version r.2).1 = Err err)
  /\ (forall s v, s <> serviceID -> (Get s v r.2).1 = (Get s v st).1)
  /\ (forall v config, v <> version ->
        (Get serviceID v st).1 = Ok config -> (Get serviceID v r.2).1 = Ok config)
  /\ ((List serviceID r.2).1 = Ok [] <->
      (Get serviceID version r.2).1 = Err (Errorf "service not found"))
  /\ wellKept r.2.
Proof.
  intros Hk. cbv zeta. unfold Delete.
  destruct (configs st !! serviceID) as [vs|] eqn:Hsv.
  - destruct (Nat.eqb_spec (size (delete version vs)) 0) as [Hz|Hnz];
      cbn [fst snd].
    + apply map_size_empty_inv in Hz.
      split; [reflexivity|]. split; [|split; [|split; [|split]]].
      * eexists. rewrite Get_result. cbn [configs].
        rewrite lookup_delete_eq. reflexivity.
      * intros s v Hs. rewrite !Get_result. cbn [configs].
        rewrite lookup_delete_ne by congruence. reflexivity.
      * intros v config Hv Hg. rewrite Get_result, Hsv in Hg.
        destruct (vs !! v) as [c|] eqn:Hvs; [|discriminate].
        exfalso. assert (Hd : delete version vs !! v = Some c)
          by (rewrite lookup_delete_ne by congruence; exact Hvs).
        rewrite Hz, lookup_empty in Hd. discriminate.
      * rewrite Get_result. unfold List. cbn [configs].
        rewrite lookup_delete_eq. split; reflexivity.
      * intros s vs' Hs. cbn [configs] in Hs.
        apply lookup_delete_Some in Hs. destruct Hs as [_ Hs].
        exact (Hk s vs' Hs).
    + split; [reflexivity|]. split; [|split; [|split; [|split]]].
      * eexists. rewrite Get_result. cbn [configs].
        rewrite lookup_insert_eq, lookup_delete_eq. reflexivity.
      * intros s v Hs. rewrite !Get_result. cbn [configs].
        rewrite lookup_insert_ne by congruence. reflexivity.
      * intros v config Hv Hg. rewrite Get_result in Hg |- *. rewrite Hsv in Hg.
        cbn [configs]. rewrite lookup_insert_eq, lookup_delete_ne by congruence.
        exact Hg.
      * rewrite Get_result. unfold List. cbn [configs].
        rewrite lookup_insert_eq, lookup_delete_eq. cbn [fst].
        split; [|discriminate]. intros H. injection H as H.
        apply fmap_nil_inv in H. apply map_to_list_empty_iff in H.
        exfalso. apply Hnz. rewrite H. apply map_size_empty.
      * intros s vs' Hs. cbn [configs] in Hs.
        destruct (decide (serviceID = s)) as [<-|Hne].
        -- rewrite lookup_insert_eq in Hs. injection Hs as <-.
           intros He. apply Hnz. rewrite He. apply map_size_empty.
        -- rewrite lookup_insert_ne in Hs by exact Hne. exact (Hk s vs' Hs).
  - cbn [fst snd]. split; [reflexivity|]. split; [|split; [|split; [|split]]].
    + eexists. rewrite Get_result, Hsv. reflexivity.
    + reflexivity.
    + intros v config _ Hg. exact Hg.
    + rewrite Get_result. unfold List. rewrite Hsv. split; reflexivity.
    + exact Hk.
Qed.

End Config.

(** ** Where the claims as worded part from the code *)

(** A healthy record whose last heartbeat is exactly [2 * interval] old is
    within the tolerance as worded, and the sweep marks it unhealthy. *)
Lemma C6_counterexample_boundary :
  ~ C6_as_stated monitor30 (60 * 1000000000) registry0.
Proof.
  intros H. specialize (H 1%positive).
  destruct H as [_ H].
  - vm_compute. left.
  - reflexivity.
  - destruct H as [Hobj _]; [vm_compute; discriminate|].
    apply (f_equal service.Status) in Hobj. vm_compute in Hobj. discriminate.
Qed.

(** The token [Generate] issues for [claims0] at [now0]. *)
Lemma token0_generated :
  jwt.Generate authority0 now0 claims0
  = Ok {| token.Value := token0; token.TokenType := token.TypeAccess;
          token.TokenExpiresAt := now0 + 15 * minute;
          token.TokenIssuedAt := now0; token.TokenClaims := [] |}.
Proof. vm_compute. reflexivity. Qed.

Lemma token0_claims : claimsOf token0 = Some (stamp config0 now0 claims0).
Proof. vm_compute. reflexivity. Qed.

Lemma token0_signed : signatureOK authority0 token0 = true.
Proof. vm_compute. reflexivity. Qed.

Lemma C2_counterexample_signature_first :
  ~ C2_as_stated authority0 (now0 + 60 * minute) forged0.
Proof.
  intros H. specialize (H (stamp config0 now0 claims0)).
  assert (Hv : jwt.Validate authority0 (now0 + 60 * minute) forged0
               = Err (Errorf "invalid signature")) by (vm_compute; reflexivity).
  rewrite Hv in H.
  assert (Hne : Err (Errorf "invalid signature") = Err (Errorf "token expired")
                :> result token.Claims).
  { apply H; vm_compute; reflexivity. }
  discriminate.
Qed.

(** The first byte of [signature0] is [n], which is a period with bit 6
    set. *)
Lemma signature0_first_byte :
  String.get 0 signature0 = Some "n"%char
  /\ Z.lxor (utf8.byte "n") 64 = utf8.byte ".".
Proof. split; reflexivity. Qed.

Lemma C3_counterexample_period :
  ~ C3_as_stated authority0 now0 now0 claims0.
Proof.
  intros H.
  specialize (H _ token0_generated header0 payload0 signature0).
  cbn [token.Value] in H.
  specialize (H ltac:(vm_compute; reflexivity) 0%nat "."%char).
  assert (Hv : jwt.Validate authority0 now0
                 ((header0 ++ "." ++ payload0) ++ "." ++ setByte 0 "." signature0)
               = Err (Errorf "invalid token format")) by (vm_compute; reflexivity).
  rewrite Hv in H.
  assert (Hne : Err (Errorf "invalid token format") = Err (Errorf "invalid signature")
                :> result token.Claims).
  { apply H; [vm_compute; lia|vm_compute; discriminate]. }
  discriminate.
Qed.

Lemma C8_counterexample_channel : ~ C8_as_stated config0 now0 claimsChan.
Proof.
  intros H. specialize (H authority0 eq_refl).
  vm_compute in H. discriminate.
Qed.

(** The subject the token issued for [claimsFF] carries: the byte that is
    not UTF-8 was encoded as the replacement character. *)
Lemma claimsFF_subject (tok : token.Token) (claims' : token.Claims) :
  jwt.Generate authority0 now0 claimsFF = Ok tok ->
  jwt.Validate authority0 now0 (token.Value tok) = Ok claims' ->
  token.Subject claims' = replacement.
Proof.
  intros G Hv. vm_compute in G. injection G as <-.
  vm_compute in Hv. injection Hv as <-. reflexivity.
Qed.


(** Sixteen minutes after a token with a lifetime of fifteen minutes was
    issued, [Validate] rejects it. *)
Lemma late_validation_rejected :
  ~ C1_as_stated authority0 now0 (now0 + 16 * minute) claims0.
Proof.
  intros H.
  destruct (H ltac:(discriminate) eq_refl _ token0_generated) as (claims' & Hv & _).
  cbn [token.Value] in Hv.
  rewrite (Validate_three _ _ _ _ token0_claims), token0_signed in Hv.
  vm_compute in Hv. discriminate.
Qed.

(** ** The theorems at work on the scenarios *)

Lemma C4_witness :
  exists matched : list loc,
    registry.Discover "payment" registry0 = (Ok matched, registry0)
    /\ (1%positive ∈ matched <->
        (exists id, memory_registry.services registry0 !! id = Some 1%positive)
        /\ service.Status (memory_registry.objs registry0 1%positive)
           = service.StatusHealthy
        /\ ("payment" = "" \/ "payment" ∈ service.Capabilities
                                            (memory_registry.objs registry0 1%positive))).
Proof.
  destruct (C4_Discover_exact "payment" registry0) as (matched & Hrun & _ & Hmem & _).
  exists matched. split; [exact Hrun|apply Hmem].
Defined.

Lemma C5_witness :
  (memory_session.DeleteExpired (61 * minute) sessions0).1
  = (Z.of_nat (size (expired_entries (memory_session.objs sessions0) (61 * minute)
                       (memory_session.sessions sessions0))), None).
Proof. exact (proj1 (C5_cleanup_sweep_exact (61 * minute) sessions0)). Defined.

Lemma C6_witness :
  exists new : list loc,
    memory_registry.updates
      (registry.performHealthChecks monitor30 (fun _ => 61 * 1000000000) registry0).2
    = (new ++ memory_registry.updates registry0)%list
    /\ service.Status
         (memory_registry.objs
            (registry.performHealthChecks monitor30 (fun _ => 61 * 1000000000) registry0).2
            1%positive)
       = service.StatusUnhealthy
    /\ 1%positive ∈ new.
Proof.
  destruct (C6_heartbeat_sweep monitor30 (fun _ => 61 * 1000000000) registry0)
    as (new & Hnew & Hstale & _).
  exists new. split; [exact Hnew|].
  apply (Hstale 0%nat 1%positive); [reflexivity|reflexivity|].
  right. vm_compute. discriminate.
Defined.

Lemma C7_witness :
  (sessionsvc.Get (61 * minute) "sess-1" sessions0).1 = Err (Errorf "session expired")
  /\ memory_session.sessions (sessionsvc.Get (61 * minute) "sess-1" sessions0).2
     = memory_session.sessions sessions0
  /\ memory_session.objs (sessionsvc.Get (61 * minute) "sess-1" sessions0).2
     = memory_session.objs sessions0.
Proof.
  destruct (C7_Get_expired_is_distinct_and_readonly (61 * minute) "sess-1" sessions0
              1%positive ltac:(reflexivity) ltac:(vm_compute; reflexivity))
    as (H1 & _ & H3 & H4 & _).
  split; [exact H1|]. split; [exact H3|exact H4].
Defined.

Lemma C9_witness :
  let st' := (sessionsvc.Update minute (2 * minute) "sess-1" {[ "theme" := Str "light" ]}
                sessions0).2 in
  session.Data (memory_session.objs st' 1%positive) = {[ "theme" := Str "light" ]}
  /\ session.UpdatedAt (memory_session.objs st' 1%positive) = 2 * minute
  /\ session.ExpiresAt (memory_session.objs st' 1%positive) = session.ExpiresAt session1.
Proof.
  destruct (C9_Update_frame minute (2 * minute) "sess-1" {[ "theme" := Str "light" ]}
              sessions0
              (sessionsvc.Update minute (2 * minute) "sess-1" {[ "theme" := Str "light" ]}
                 sessions0).2
              1%positive ltac:(reflexivity) ltac:(vm_compute; discriminate)
              ltac:(vm_compute; reflexivity))
    as (H1 & H2 & _ & _ & _ & _ & H7 & _).
  cbv zeta. split; [exact H1|]. split; [exact H2|exact H7].
Defined.

Lemma C10_witness :
  now0 < token.NotBefore (stamp config0 now0 claims0)
  /\ jwt.Validate authority0 now0 token0 = Ok (stamp config0 now0 claims0).
Proof.
  split; [vm_compute; reflexivity|].
  apply C10_Validate_ignores_not_before;
    [exact token0_signed|exact token0_claims|vm_compute; discriminate].
Defined.

Lemma C2_witness :
  jwt.Validate authority0 (now0 + 60 * minute) token0
  = if signatureOK authority0 token0
    then Err (Errorf "token expired") else Err (Errorf "invalid signature").
Proof.
  apply (C2_expired_after_signature authority0 (now0 + 60 * minute) token0
           (stamp config0 now0 claims0));
    [exact token0_claims|vm_compute; reflexivity].
Defined.

Lemma C3_witness :
  exists message : string,
    token0 = (message ++ "." ++ jwt.sign authority0 message)%string
    /\ forall (i : nat) (c : ascii) (now' : time.Time),
         (i < String.length (jwt.sign authority0 message))%nat ->
         String.get i (jwt.sign authority0 message) <> Some c ->
         jwt.Validate authority0 now'
           (message ++ "." ++ setByte i c (jwt.sign authority0 message))
         = if Ascii.eqb c "."
           then Err (Errorf "invalid token format")
           else Err (Errorf "invalid signature").
Proof.
  exact (C3_changed_signature_byte authority0 now0 claims0 _ token0_generated).
Defined.

Lemma C8_witness :
  isOk (jwt.NewService config0) = true
  /\ isOk (jwt.Generate authority0 now0 claimsChan) = false
  /\ isOk (jwt.Generate authority0 now0 claims0) = true.
Proof.
  destruct C8_Generate_fails_iff_not_encodable as (Hnew & Hgen & _).
  rewrite Hnew, !Hgen. vm_compute. auto.
Defined.


Lemma Create_then_Get_witness :
  (sessionsvc.Create sessions60 now0 now0 2%positive "user-2" "svc-1" ∅ 0 sessions0).1
  = Ok 2%positive
  /\ (sessionsvc.Get (now0 + 60 * minute) (sessionsvc.generateSessionID now0)
        (sessionsvc.Create sessions60 now0 now0 2%positive "user-2" "svc-1" ∅ 0
           sessions0).2).1
     = Ok 2%positive.
Proof.
  assert (H1 : memory_session.sessions sessions0 !! sessionsvc.generateSessionID now0
               = None) by (vm_compute; reflexivity).
  assert (H2 : unreferenced 2%positive sessions0).
  { intros id q H. unfold sessions0 in H. cbn [memory_session.sessions] in H.
    apply lookup_singleton_Some in H. destruct H as [_ <-].
    discriminate. }
  destruct (Create_then_Get sessions60 now0 now0 (now0 + 60 * minute) 2%positive
              "user-2" "svc-1" ∅ 0 sessions0 H1 H2) as (A & _ & _ & _ & B & _).
  split; [exact A|]. apply B. vm_compute. discriminate.
Defined.

Lemma Create_existing_identifier_witness :
  (sessionsvc.Create sessions60 now0 now0 2%positive "user-2" "svc-1" ∅ 0 sessionsAt0).1
  = Err (Errorf_w "create session" (Errorf "session already exists")).
Proof.
  assert (H1 : memory_session.sessions sessionsAt0 !! sessionsvc.generateSessionID now0
               = Some 1%positive) by apply lookup_singleton_eq.
  assert (H2 : unreferenced 2%positive sessionsAt0).
  { intros id q H. unfold sessionsAt0 in H. cbn [memory_session.sessions] in H.
    apply lookup_singleton_Some in H. destruct H as [_ <-].
    discriminate. }
  exact (proj1 (Create_existing_identifier sessions60 now0 now0 2%positive 1%positive
                  "user-2" "svc-1" ∅ 0 sessionsAt0 H1 H2)).
Defined.

Lemma generateSessionID_distinct_witness :
  sessionsvc.generateSessionID now0 = sessionsvc.generateSessionID (now0 + 1)
  <-> now0 = now0 + 1.
Proof.
  apply generateSessionID_distinct; unfold now0; lia.
Defined.

Lemma Update_needs_live_session_witness :
  memory_session.objs
    (sessionsvc.Update (61 * minute) (61 * minute) "sess-1" ∅ sessions0).2
  = memory_session.objs sessions0.
Proof.
  apply (Update_needs_live_session (61 * minute) (61 * minute) "sess-1" ∅ sessions0).
  intros sess _. vm_compute. reflexivity.
Defined.

Lemma sweeps_compose_witness :
  memory_session.sessions
    (sessionsvc.cleanup_tick (61 * minute)
       (sessionsvc.cleanup_tick (30 * minute) sessions0).2).2
  = memory_session.sessions (sessionsvc.cleanup_tick (61 * minute) sessions0).2.
Proof.
  apply (sweeps_compose (30 * minute) (61 * minute) sessions0).
  vm_compute. discriminate.
Defined.

Lemma Heartbeat_revives_witness :
  (registry.Heartbeat now0 "svc-1" registry0).1 = None.
Proof.
  apply (Heartbeat_revives now0 "svc-1" 1%positive registry0); reflexivity.
Defined.

Lemma Validate_ignores_header_witness :
  jwt.Validate authority0 now0 (signed authority0 (header0 ++ "." ++ payload0))
  = jwt.Validate authority0 now0 (signed authority0 ("e30" ++ "." ++ payload0)).
Proof.
  apply Validate_ignores_header; vm_compute; reflexivity.
Defined.




Lemma Delete_handlers_answer_witness :
  (sessionhandler.Delete "/session/sess-1" sessions0).1
  = http.WriteHeader http.StatusNoContent.
Proof.
  exact (proj1 (proj1 (Delete_handlers_answer "/session" "sess-1" eq_refl) sessions0)).
Defined.

Lemma Heartbeat_handler_answers_witness :
  (registryhandler.Heartbeat now0 "/registry/heartbeat/svc-1" registry0).1
  = http.WriteHeader http.StatusNoContent.
Proof.
  assert (Hne : "svc-1" <> "") by discriminate.
  exact (proj1 (proj2 (Heartbeat_handler_answers now0 "/registry/heartbeat" "svc-1"
                         registry0 eq_refl Hne)
                  1%positive eq_refl eq_refl)).
Defined.

Lemma Delete_then_Get_config_witness :
  (memory_config.Delete "svc-1" "v1" configs0).1 = None.
Proof.
  apply (Delete_then_Get_config "svc-1" "v1" configs0).
  intros serviceID versions H. unfold configs0 in H.
  cbn [memory_config.configs] in H. apply lookup_singleton_Some in H.
  destruct H as [_ <-]. apply map_non_empty_singleton.
Defined.

Lemma Get_handler_masks_expiry_witness :
  (sessionhandler.Get (61 * minute) "/session/sess-1" sessions0).1
  = sessionhandler.Failed (http.Error "session not found" http.StatusNotFound).
Proof.
  assert (Hne : "sess-1" <> "") by discriminate.
  apply (proj1 (proj2 (Get_handler_masks_expiry (61 * minute) "/session" "sess-1"
                         sessions0 eq_refl Hne)) 1%positive);
    [reflexivity|vm_compute; reflexivity].
Defined.

Lemma Generate_returns_witness :
  countByte token0 "." = 2%nat.
Proof.
  exact (proj1 (Generate_returns authority0 now0 claims0 _ token0_generated)).
Defined.
